(** * binary-ws: the value codec, the header codec and the send queue of
    [BaseSocket] (bin/common/BaseSocket.js), embedded in Rocq.

    The file follows the source: Node's [Buffer] primitives first, then
    [serialize] / [deserialize], the two header layouts, and the queue of
    pending sends with its [control] objects. *)

From Stdlib Require Import ZArith List Lia Bool.
From Stdlib Require Import Strings.String Strings.Byte.
From Stdlib Require Import Sorted.
From stdpp Require Import base option list gmap.
Import ListNotations.

Local Open Scope Z_scope.

(** ** JavaScript numbers

    A JavaScript number is an IEEE-754 double.  Where the code stores or
    transports a number it is kept as its 64-bit pattern ([double]); where the
    code computes with it (an offset, a length, a map key) it is read through
    [to_num] as an exact value ([jsnum]). *)

Abbreviation double := Z (only parsing).

Inductive jsnum :=
| JInt (z : Z)          (* an integer-valued double; -0 is read as 0 *)
| JFrac (m e : Z)       (* the non-integer m * 2^e, with e < 0 *)
| JInf (neg : bool)
| JNaN.

Definition pow2 (e : Z) : Z := 2 ^ e.

(** [m * 2^e] as a [jsnum]. *)
Definition classify (m e : Z) : jsnum :=
  if 0 <=? e then JInt (m * pow2 e)
  else if m mod pow2 (- e) =? 0 then JInt (m / pow2 (- e))
  else JFrac m e.

Definition nan_bits : double := 0x7FF8000000000000.

Definition sign_of (b : double) : bool := Z.testbit b 63.
Definition exponent_of (b : double) : Z := (b / pow2 52) mod pow2 11.
Definition mantissa_of (b : double) : Z := b mod pow2 52.

Definition is_nan (b : double) : bool :=
  (exponent_of b =? 2047) && negb (mantissa_of b =? 0).

(** JavaScript has one NaN: every NaN pattern reads as the same number. *)
Definition canon (b : double) : double := if is_nan b then nan_bits else b.

Definition to_num (b : double) : jsnum :=
  let s := if sign_of b then -1 else 1 in
  let ex := exponent_of b in
  let mant := mantissa_of b in
  if ex =? 2047 then (if mant =? 0 then JInf (sign_of b) else JNaN)
  else if ex =? 0 then classify (s * mant) (-1074)
  else classify (s * (pow2 52 + mant)) (ex - 1075).

(** Round [m * 2^e] to the nearest double, ties to even.  The callers only
    pass sums of doubles, so [e >= -1074] and no result is subnormal unless
    it is exact. *)
Definition round_dyadic (m e : Z) : jsnum :=
  if Z.abs m <? pow2 53 then classify m e
  else
    let k := Z.log2 (Z.abs m) - 52 in
    let q := Z.abs m / pow2 k in
    let r := Z.abs m mod pow2 k in
    let h := pow2 (k - 1) in
    let q' := if (h <? r) || ((r =? h) && Z.odd q) then q + 1 else q in
    if 1024 <=? Z.log2 q' + e + k then JInf (m <? 0)
    else classify (Z.sgn m * q') (e + k).

Definition dyadic (x : jsnum) : Z * Z :=
  match x with
  | JInt z => (z, 0)
  | JFrac m e => (m, e)
  | _ => (0, 0)
  end.

(** [x + y] on doubles: the exact sum, rounded. *)
Definition js_add (x y : jsnum) : jsnum :=
  match x, y with
  | JNaN, _ | _, JNaN => JNaN
  | JInf a, JInf b => if Bool.eqb a b then JInf a else JNaN
  | JInf a, _ | _, JInf a => JInf a
  | _, _ =>
      let '(m1, e1) := dyadic x in
      let '(m2, e2) := dyadic y in
      let e := Z.min e1 e2 in
      round_dyadic (m1 * pow2 (e1 - e) + m2 * pow2 (e2 - e)) e
  end.

(** [x < y] on doubles. *)
Definition js_lt (x y : jsnum) : bool :=
  match x, y with
  | JNaN, _ | _, JNaN => false
  | JInf a, JInf b => a && negb b
  | JInf a, _ => a
  | _, JInf b => negb b
  | _, _ =>
      let '(m1, e1) := dyadic x in
      let '(m2, e2) := dyadic y in
      let e := Z.min e1 e2 in
      m1 * pow2 (e1 - e) <? m2 * pow2 (e2 - e)
  end.

(** The double nearest to the integer [n] (exact below 2^53), as the number
    stored by [writeDoubleBE(content.length)]. *)
Definition of_int (n : Z) : double :=
  if n =? 0 then 0
  else
    let a := Z.abs n in
    let l := Z.log2 a in
    let s := if n <? 0 then pow2 63 else 0 in
    if l <=? 52 then s + (l + 1023) * pow2 52 + (a - pow2 l) * pow2 (52 - l)
    else
      let k := l - 52 in
      let q := a / pow2 k in
      let r := a mod pow2 k in
      let h := pow2 (k - 1) in
      let q' := if (h <? r) || ((r =? h) && Z.odd q) then q + 1 else q in
      if 1024 <=? Z.log2 q' + k then s + 2047 * pow2 52
      else s + (l + 1023) * pow2 52 + (q' - pow2 52).

(** ** Node's Buffer *)

Definition byte_of_Z (z : Z) : byte :=
  match Byte.of_N (Z.to_N (z mod 256)) with
  | Some b => b
  | None => x00
  end.

Definition Z_of_byte (b : byte) : Z := Z.of_N (Byte.to_N b).

(** Big-endian bytes of an unsigned integer, [n] bytes wide. *)
Fixpoint be_encode (n : nat) (z : Z) : list byte :=
  match n with
  | O => []
  | S n' => be_encode n' (z / 256) ++ [byte_of_Z z]
  end.

Definition be_decode (l : list byte) : Z :=
  fold_left (fun acc b => acc * 256 + Z_of_byte b) l 0.

Definition len (data : list byte) : Z := Z.of_nat (length data).

(** ** Errors and results *)

Inductive error :=
| RangeError              (* a Buffer read outside the buffer *)
| TypeNotExist (t : Z)    (* 'data type don`t exist. type: ' + type *)
| SyntaxError             (* thrown by JSON.parse *)
| TypeError               (* thrown by Buffer.from, and by send in the second variant *)
| NotSerialized           (* the Buffer passed to send was not made by serialize *)
| BadDataType             (* the data passed to send is neither array nor Buffer *)
| PayloadTooLarge         (* the frame is larger than maxPayload *)
| ConnectionAborted       (* the error the close handler hands out *)
| Other (msg : string).   (* an error of the caller or of the transport *)

Inductive res (A : Type) :=
| Ret (a : A)
| Throw (e : error).
Arguments Ret {A} a.
Arguments Throw {A} e.

Definition bind {A B} (r : res A) (k : A -> res B) : res B :=
  match r with
  | Ret a => k a
  | Throw e => Throw e
  end.

Notation "'do' x <- r ; k" := (bind r (fun x => k))
  (at level 10, x name, r at level 100, k at level 200).

(** An offset a read accepts: an integer with [0 <= off <= length - width]. *)
Definition valid_offset (data : list byte) (off : jsnum) (width : Z) : option Z :=
  match off with
  | JInt z => if (0 <=? z) && (z + width <=? len data) then Some z else None
  | _ => None
  end.

Definition readUInt8 (data : list byte) (off : jsnum) : res Z :=
  match valid_offset data off 1 with
  | Some z => Ret (Z_of_byte (nth (Z.to_nat z) data x00))
  | None => Throw RangeError
  end.

Definition readDoubleBE (data : list byte) (off : jsnum) : res double :=
  match valid_offset data off 8 with
  | Some z => Ret (canon (be_decode (take 8 (drop (Z.to_nat z) data))))
  | None => Throw RangeError
  end.

(** [flag ? 1 : 0] *)
Definition flag (b : bool) : Z := if b then 1 else 0.

(** [alloc(1)] then [writeUInt8(v, 0)]; [alloc(8)] then [writeDoubleBE(x, 0)]. *)
Definition writeUInt8 (v : Z) : list byte := [byte_of_Z v].
Definition writeDoubleBE (x : double) : list byte := be_encode 8 x.

(** The index [slice] computes from an argument: truncated to an integer,
    counted from the end when negative, clamped to the buffer. *)
Definition to_index (x : jsnum) (n : Z) : Z :=
  let rel z := if z <? 0 then Z.max (n + z) 0 else Z.min z n in
  match x with
  | JNaN => 0
  | JInf neg => if neg then 0 else n
  | JInt z => rel z
  | JFrac m e => rel (Z.quot m (pow2 (- e)))
  end.

Definition slice (data : list byte) (start stop : jsnum) : list byte :=
  let a := to_index start (len data) in
  let b := to_index stop (len data) in
  take (Z.to_nat (b - a)) (drop (Z.to_nat a) data).

(** [data.slice(start)]: the end defaults to the length. *)
Definition slice_from (data : list byte) (start : jsnum) : list byte :=
  slice data start (JInt (len data)).

(** ** JavaScript strings

    A JavaScript string is a sequence of 16-bit code units (UTF-16), and any
    sequence is a string: a surrogate need not have its partner. *)

Record char16 := Char16 { hi : byte; lo : byte }.

Definition jsstring := list char16.

Definition code (u : char16) : Z := Z_of_byte (hi u) * 256 + Z_of_byte (lo u).
Definition char16_of_Z (z : Z) : char16 :=
  {| hi := byte_of_Z (z / 256); lo := byte_of_Z z |}.

(** The string written ["..."] in the source, for text of one-byte
    characters. *)
Definition str (s : string) : jsstring :=
  map (fun b => {| hi := x00; lo := b |}) (list_byte_of_string s).

Definition char16_eqb (u v : char16) : bool :=
  Byte.eqb (hi u) (hi v) && Byte.eqb (lo u) (lo v).

(** [a === b] on strings. *)
Fixpoint jsstring_eqb (a b : jsstring) : bool :=
  match a, b with
  | [], [] => true
  | u :: a', v :: b' => char16_eqb u v && jsstring_eqb a' b'
  | _, _ => false
  end.

Definition is_lead (c : Z) : bool := (0xD800 <=? c) && (c <=? 0xDBFF).
Definition is_trail (c : Z) : bool := (0xDC00 <=? c) && (c <=? 0xDFFF).

(** A string is well formed when every surrogate is half of a pair. *)
Fixpoint well_formed (s : jsstring) : bool :=
  match s with
  | [] => true
  | u :: rest =>
      if is_lead (code u) then
        match rest with
        | v :: rest' => is_trail (code v) && well_formed rest'
        | [] => false
        end
      else negb (is_trail (code u)) && well_formed rest
  end.

(** The UTF-8 bytes of a code point. *)
Definition utf8_bytes (c : Z) : list byte :=
  if c <? 0x80 then [byte_of_Z c]
  else if c <? 0x800 then
    [byte_of_Z (0xC0 + c / 64); byte_of_Z (0x80 + c mod 64)]
  else if c <? 0x10000 then
    [byte_of_Z (0xE0 + c / 4096); byte_of_Z (0x80 + (c / 64) mod 64);
     byte_of_Z (0x80 + c mod 64)]
  else
    [byte_of_Z (0xF0 + c / 262144); byte_of_Z (0x80 + (c / 4096) mod 64);
     byte_of_Z (0x80 + (c / 64) mod 64); byte_of_Z (0x80 + c mod 64)].

Definition replacement : Z := 0xFFFD.

(** [Buffer.from(string)]: the string in UTF-8.  A surrogate pair is one code
    point; a surrogate without its partner is written as U+FFFD. *)
Fixpoint Buffer_from (s : jsstring) : list byte :=
  match s with
  | [] => []
  | u :: rest =>
      let c := code u in
      if is_lead c then
        match rest with
        | v :: rest' =>
            if is_trail (code v) then
              utf8_bytes (0x10000 + (c - 0xD800) * 1024 + (code v - 0xDC00))
                ++ Buffer_from rest'
            else utf8_bytes replacement ++ Buffer_from rest
        | [] => utf8_bytes replacement
        end
      else if is_trail c then utf8_bytes replacement ++ Buffer_from rest
      else utf8_bytes c ++ Buffer_from rest
  end.

(** The decoder of [buffer.toString()]: the code point being read, the
    continuation bytes it still needs and the range the next byte must be
    in. *)
Record utf8_state := {
  point : Z;
  needed : Z;
  lower : Z;
  upper : Z
}.

Definition utf8_start : utf8_state :=
  {| point := 0; needed := 0; lower := 0x80; upper := 0xBF |}.

(** A byte read when no code point is under way: the code points it
    completes and the state it leaves. *)
Definition utf8_first (b : Z) : list Z * utf8_state :=
  if b <=? 0x7F then ([b], utf8_start)
  else if (0xC2 <=? b) && (b <=? 0xDF) then
    ([], {| point := b - 0xC0; needed := 1; lower := 0x80; upper := 0xBF |})
  else if (0xE0 <=? b) && (b <=? 0xEF) then
    ([], {| point := b - 0xE0; needed := 2;
            lower := if b =? 0xE0 then 0xA0 else 0x80;
            upper := if b =? 0xED then 0x9F else 0xBF |})
  else if (0xF0 <=? b) && (b <=? 0xF4) then
    ([], {| point := b - 0xF0; needed := 3;
            lower := if b =? 0xF0 then 0x90 else 0x80;
            upper := if b =? 0xF4 then 0x8F else 0xBF |})
  else ([replacement], utf8_start).

(** Bytes that are not UTF-8 are read as U+FFFD, one for each ill-formed
    run; the byte that ends such a run is read again as a first byte. *)
Fixpoint utf8_decode (data : list byte) (st : utf8_state) : list Z :=
  match data with
  | [] => if needed st =? 0 then [] else [replacement]
  | x :: rest =>
      let b := Z_of_byte x in
      if needed st =? 0 then
        let '(out, st') := utf8_first b in
        out ++ utf8_decode rest st'
      else if (lower st <=? b) && (b <=? upper st) then
        let c := point st * 64 + (b - 0x80) in
        if needed st =? 1 then c :: utf8_decode rest utf8_start
        else utf8_decode rest {| point := c; needed := needed st - 1;
                                 lower := 0x80; upper := 0xBF |}
      else
        let '(out, st') := utf8_first b in
        replacement :: out ++ utf8_decode rest st'
  end.

(** The code units of a code point: itself, or a surrogate pair. *)
Definition units (c : Z) : jsstring :=
  if c <? 0x10000 then [char16_of_Z c]
  else [char16_of_Z (0xD800 + (c - 0x10000) / 1024);
        char16_of_Z (0xDC00 + (c - 0x10000) mod 1024)].

(** [buffer.toString()] *)
Definition toString (b : list byte) : jsstring :=
  flat_map units (utf8_decode b utf8_start).

(** A code point that is not a surrogate. *)
Definition scalar (c : Z) : Prop :=
  0 <= c < 0x110000 /\ ~ (0xD800 <= c <= 0xDFFF).

(** ** The value codec: [BaseSocket.serialize] and [BaseSocket.deserialize] *)

Section BaseSocket.

(** Objects that are neither [null] nor a Buffer, with the platform's
    [JSON.stringify] and [JSON.parse].  [JSON.stringify] returns the text,
    or [undefined] ([None]), or throws what a [toJSON] method or a getter of
    the object throws; [JSON.parse] returns the value or throws its
    [SyntaxError] ([None]). *)
Context {obj : Type}.

Inductive value :=
| VNumber (n : double)
| VString (s : jsstring)
| VBoolean (b : bool)
| VNull
| VUndefined
| VBuffer (b : list byte)
| VObject (o : obj)
| VFunction.              (* typeof 'function' or 'symbol': no case of the switch *)

Variable JSON_stringify : obj -> res (option jsstring).
Variable JSON_parse : jsstring -> option value.

(** The buffers one item pushes on [bufferItems], concatenated. *)
Definition serialize_item (item : value) : res (list byte) :=
  match item with
  | VNumber n =>
      Ret (writeUInt8 0 ++ writeDoubleBE n)
  | VString s =>
      let content := Buffer_from s in
      Ret (writeUInt8 1 ++ writeDoubleBE (of_int (len content)) ++ content)
  | VBoolean b =>
      Ret (writeUInt8 2 ++ writeUInt8 (if b then 1 else 0))
  | VUndefined =>
      Ret (writeUInt8 4)
  | VNull =>
      Ret (writeUInt8 3)
  | VBuffer content =>
      Ret (writeUInt8 6 ++ writeDoubleBE (of_int (len content)) ++ content)
  | VObject o =>
      do text <- JSON_stringify o;
      match text with
      | Some text =>
          let content := Buffer_from text in
          Ret (writeUInt8 5 ++ writeDoubleBE (of_int (len content)) ++ content)
      | None => Throw TypeError    (* Buffer.from(undefined) *)
      end
  | VFunction => Ret []
  end.

Fixpoint serialize (data : list value) : res (list byte) :=
  match data with
  | [] => Ret []
  | item :: rest =>
      do bufferItems <- serialize_item item;
      do tail <- serialize rest;
      Ret (bufferItems ++ tail)
  end.

(** The [while] loop of [deserialize].  A negative length sends [previous]
    backwards and the loop may then run forever, so the loop takes fuel:
    [None] is "still running". *)
Fixpoint deserialize_loop (fuel : nat) (data : list byte) (previous : jsnum)
    (result : list value) : option (res (list value)) :=
  match fuel with
  | O => None
  | S fuel =>
      if js_lt previous (JInt (len data)) then
        match readUInt8 data previous with
        | Throw e => Some (Throw e)
        | Ret type =>
            let previous := js_add previous (JInt 1) in
            if type =? 0 then
              match readDoubleBE data previous with
              | Throw e => Some (Throw e)
              | Ret n =>
                  deserialize_loop fuel data (js_add previous (JInt 8))
                    (result ++ [VNumber n])
              end
            else if type =? 1 then
              match readDoubleBE data previous with
              | Throw e => Some (Throw e)
              | Ret length =>
                  let previous := js_add previous (JInt 8) in
                  let stop := js_add previous (to_num length) in
                  let content := slice data previous stop in
                  deserialize_loop fuel data stop
                    (result ++ [VString (toString content)])
              end
            else if type =? 2 then
              match readUInt8 data previous with
              | Throw e => Some (Throw e)
              | Ret content =>
                  deserialize_loop fuel data (js_add previous (JInt 1))
                    (result ++ [VBoolean (content =? 1)])
              end
            else if type =? 4 then
              deserialize_loop fuel data previous (result ++ [VUndefined])
            else if type =? 3 then
              deserialize_loop fuel data previous (result ++ [VNull])
            else if type =? 6 then
              match readDoubleBE data previous with
              | Throw e => Some (Throw e)
              | Ret length =>
                  let previous := js_add previous (JInt 8) in
                  let stop := js_add previous (to_num length) in
                  deserialize_loop fuel data stop
                    (result ++ [VBuffer (slice data previous stop)])
              end
            else if type =? 5 then
              match readDoubleBE data previous with
              | Throw e => Some (Throw e)
              | Ret length =>
                  let previous := js_add previous (JInt 8) in
                  let stop := js_add previous (to_num length) in
                  let content := slice data previous stop in
                  match JSON_parse (toString content) with
                  | None => Some (Throw SyntaxError)
                  | Some v => deserialize_loop fuel data stop (result ++ [v])
                  end
              end
            else Some (Throw (TypeNotExist type))
        end
      else Some (Ret result)
  end.

Definition deserialize (fuel : nat) (data : list byte) : option (res (list value)) :=
  deserialize_loop fuel data (JInt 0) [].

(** [deserialize] as a decoder of whole buffers, with the turns a buffer of
    that length takes when every item moves the loop forward.  It is what
    stands in for the decoder of object2buffer where one is needed. *)
Definition deserialize_whole (data : list byte) : res (list value) :=
  match deserialize (S (length data)) data with
  | Some r => r
  | None => Throw RangeError
  end.

(** *** What [deserialize] does, read off the bytes that remain

    [scan] restates the decoder without offsets, consuming the buffer item
    by item.  It fails in three places only: a tag byte above 6, a number, a
    length or a boolean whose bytes are not all there, and text under tag 5
    that [JSON.parse] rejects.  A declared length larger than what remains
    is no failure: the content is what remains ([take] stops at the end).
    [None] marks the buffers [scan] does not describe, those with a length
    field that is not an integer in [0, 2^52). *)

Definition declared (w : list byte) : option Z :=
  match to_num (canon (be_decode w)) with
  | JInt k => if (0 <=? k) && (k <? 2 ^ 52) then Some k else None
  | _ => None
  end.

Definition push (v : value) (r : option (res (list value))) : option (res (list value)) :=
  match r with
  | Some (Ret vs) => Some (Ret (v :: vs))
  | _ => r
  end.

Fixpoint scan (fuel : nat) (rest : list byte) : option (res (list value)) :=
  match rest, fuel with
  | [], _ => Some (Ret [])
  | _ :: _, O => None
  | t :: r, S fuel =>
      let tag := Z_of_byte t in
      if tag =? 0 then
        if len r <? 8 then Some (Throw RangeError)
        else push (VNumber (canon (be_decode (take 8 r)))) (scan fuel (drop 8 r))
      else if tag =? 2 then
        match r with
        | [] => Some (Throw RangeError)
        | b :: r' => push (VBoolean (Z_of_byte b =? 1)) (scan fuel r')
        end
      else if tag =? 3 then push VNull (scan fuel r)
      else if tag =? 4 then push VUndefined (scan fuel r)
      else if (tag =? 1) || (tag =? 5) || (tag =? 6) then
        if len r <? 8 then Some (Throw RangeError)
        else
          match declared (take 8 r) with
          | None => None
          | Some k =>
              let content := take (Z.to_nat k) (drop 8 r) in
              let r' := drop (Z.to_nat k) (drop 8 r) in
              if tag =? 1 then push (VString (toString content)) (scan fuel r')
              else if tag =? 6 then push (VBuffer content) (scan fuel r')
              else
                match JSON_parse (toString content) with
                | None => Some (Throw SyntaxError)
                | Some v => push v (scan fuel r')
                end
          end
      else Some (Throw (TypeNotExist tag))
  end.

(** The buffers Node can make are shorter than 2^53 bytes; below that
    bound the offsets of the loop are exact. *)
Definition small (data : list byte) : Prop := len data < 2 ^ 53.

(** The values of the variants Number, String, Boolean, Null, Undefined and
    Binary; a number is a 64-bit pattern, NaN being the one NaN. *)
Definition plain (v : value) : Prop :=
  match v with
  | VNumber n => 0 <= n < 2 ^ 64 /\ canon n = n
  | VObject _ | VFunction => False
  | _ => True
  end.

(** A value whose text, when it is a string, is well formed, and what a
    value is once written by [serialize] and read by [deserialize]: a string
    has gone through UTF-8. *)
Definition well_formed_value (v : value) : Prop :=
  match v with
  | VString s => well_formed s = true
  | _ => True
  end.

Definition transported (v : value) : value :=
  match v with
  | VString s => VString (toString (Buffer_from s))
  | _ => v
  end.

Definition prepend (acc : list value) (r : res (list value)) : res (list value) :=
  match r with
  | Ret vs => Ret (acc ++ vs)
  | Throw e => Throw e
  end.

(** ** The header codec (the layout of the first variant of the file)

    header length, isInternal, name length, name, needACK, message id. *)

Record header := {
  isInternal : bool;
  messageName : jsstring;
  needACK : bool;
  messageID : double;
  headerLength : double
}.

(** [Buffer.concat(list, totalLength)]: cut or zero-filled to [totalLength]. *)
Definition Buffer_concat_to (l : list (list byte)) (totalLength : Z) : list byte :=
  take (Z.to_nat totalLength) (concat l ++ repeat x00 (Z.to_nat totalLength)).

Definition _serializeHeader (isInternal : bool) (messageName : jsstring)
    (needACK : bool) (messageID : double) : list byte :=
  let _messageName := Buffer_from messageName in
  let _isInternal := writeUInt8 (if isInternal then 1 else 0) in
  let _messageNameLength := writeDoubleBE (of_int (len _messageName)) in
  let _needACK := writeUInt8 (if needACK then 1 else 0) in
  let _messageID := writeDoubleBE messageID in
  let length := 8 + len _isInternal + len _messageName
                + len _messageNameLength + len _needACK + len _messageID in
  let _headerLength := writeDoubleBE (of_int length) in
  Buffer_concat_to [_headerLength; _isInternal; _messageNameLength;
                    _messageName; _needACK; _messageID] length.

Definition _deserializeHeader (data : list byte) : res header :=
  do headerLength <- readDoubleBE data (JInt 0);
  let index := JInt 8 in
  do internal <- readUInt8 data index;
  let index := js_add index (JInt 1) in
  do messageNameLength <- readDoubleBE data index;
  let index := js_add index (JInt 8) in
  let stop := js_add index (to_num messageNameLength) in
  let name := toString (slice data index stop) in
  do ack <- readUInt8 data stop;
  let index := js_add stop (JInt 1) in
  do id <- readDoubleBE data index;
  Ret {| isInternal := internal =? 1;
         messageName := name;
         needACK := ack =? 1;
         messageID := id;
         headerLength := headerLength |}.

(** ** The queue of pending sends

    Every call of [_send] takes a fresh [msgID], makes one promise and, unless
    its executor throws, one [control] object.  The [control] objects are
    shared and mutated ([sent]) through the Map [_queue], through the closures
    that [_sendData] calls back and through the array the close handler
    copies, so they live in a store, [controls], under the [msgID] of the call
    that made them; [_queue] holds the Map's keys in insertion order, and the
    value under key [k] is the object [controls !! k].  [_messageID] is an
    integer below 2^53, where [++] on a JavaScript number is exact. *)

Inductive payload :=
| DArray (data : list value)
| DBuffer (data : list byte) (_serialized : bool)
| DOther.

Inductive settlement :=
| Pending
| Resolved
| Rejected (err : error).

Inductive event :=
| EError (err : error)                              (* emit('error', err) *)
| EMessage (name : jsstring) (body : list value)      (* emit('message', ...), from setTimeout *)
| EMessageRaw (name : jsstring) (body : list byte).

Record control := {
  data : list byte;       (* sendingData *)
  msgID : Z;
  sent : bool;
  ackWanted : bool        (* the needACK the closures of this control captured *)
}.

Record socket := {
  _messageID : Z;
  _queue : list Z;
  _maxPayload : option Z;            (* None is undefined *)
  _needDeserialize : bool;
  controls : gmap Z control;
  promises : gmap Z settlement;      (* the promise of each _send call *)
  catching : list Z;                 (* promises with .catch(err => emit('error', err)) *)
  settled : list (Z * settlement);   (* the settlements, in the order they happened *)
  sendData : list (Z * list byte);   (* the calls of _sendData, in order *)
  writing : list Z;                  (* controls whose _sendData promise is pending *)
  emitted : list event
}.

Definition set_messageID (n : Z) (s : socket) : socket :=
  {| _messageID := n; _queue := _queue s; _maxPayload := _maxPayload s;
     _needDeserialize := _needDeserialize s; controls := controls s;
     promises := promises s; catching := catching s; settled := settled s;
     sendData := sendData s; writing := writing s; emitted := emitted s |}.

Definition set_queue (q : list Z) (s : socket) : socket :=
  {| _messageID := _messageID s; _queue := q; _maxPayload := _maxPayload s;
     _needDeserialize := _needDeserialize s; controls := controls s;
     promises := promises s; catching := catching s; settled := settled s;
     sendData := sendData s; writing := writing s; emitted := emitted s |}.

Definition set_controls (c : gmap Z control) (s : socket) : socket :=
  {| _messageID := _messageID s; _queue := _queue s; _maxPayload := _maxPayload s;
     _needDeserialize := _needDeserialize s; controls := c;
     promises := promises s; catching := catching s; settled := settled s;
     sendData := sendData s; writing := writing s; emitted := emitted s |}.

Definition set_promises (p : gmap Z settlement) (s : socket) : socket :=
  {| _messageID := _messageID s; _queue := _queue s; _maxPayload := _maxPayload s;
     _needDeserialize := _needDeserialize s; controls := controls s;
     promises := p; catching := catching s; settled := settled s;
     sendData := sendData s; writing := writing s; emitted := emitted s |}.

Definition set_catching (l : list Z) (s : socket) : socket :=
  {| _messageID := _messageID s; _queue := _queue s; _maxPayload := _maxPayload s;
     _needDeserialize := _needDeserialize s; controls := controls s;
     promises := promises s; catching := l; settled := settled s;
     sendData := sendData s; writing := writing s; emitted := emitted s |}.

Definition set_settled (l : list (Z * settlement)) (s : socket) : socket :=
  {| _messageID := _messageID s; _queue := _queue s; _maxPayload := _maxPayload s;
     _needDeserialize := _needDeserialize s; controls := controls s;
     promises := promises s; catching := catching s; settled := l;
     sendData := sendData s; writing := writing s; emitted := emitted s |}.

Definition set_sendData (l : list (Z * list byte)) (s : socket) : socket :=
  {| _messageID := _messageID s; _queue := _queue s; _maxPayload := _maxPayload s;
     _needDeserialize := _needDeserialize s; controls := controls s;
     promises := promises s; catching := catching s; settled := settled s;
     sendData := l; writing := writing s; emitted := emitted s |}.

Definition set_writing (l : list Z) (s : socket) : socket :=
  {| _messageID := _messageID s; _queue := _queue s; _maxPayload := _maxPayload s;
     _needDeserialize := _needDeserialize s; controls := controls s;
     promises := promises s; catching := catching s; settled := settled s;
     sendData := sendData s; writing := l; emitted := emitted s |}.

Definition emit (ev : event) (s : socket) : socket :=
  {| _messageID := _messageID s; _queue := _queue s; _maxPayload := _maxPayload s;
     _needDeserialize := _needDeserialize s; controls := controls s;
     promises := promises s; catching := catching s; settled := settled s;
     sendData := sendData s; writing := writing s; emitted := emitted s ++ [ev] |}.

(** The socket the constructor leaves. *)
Definition new_socket (maxPayload : option Z) (needDeserialize : bool) : socket :=
  {| _messageID := 0; _queue := []; _maxPayload := maxPayload;
     _needDeserialize := needDeserialize; controls := ∅; promises := ∅;
     catching := []; settled := []; sendData := []; writing := []; emitted := [] |}.

(** [Map] operations on the keys. *)
Definition is_empty (q : list Z) : bool :=
  match q with
  | [] => true
  | _ :: _ => false
  end.

Definition mem (k : Z) (q : list Z) : bool := existsb (Z.eqb k) q.
Definition queue_set (k : Z) (q : list Z) : list Z := if mem k q then q else q ++ [k].
Definition queue_delete (k : Z) (q : list Z) : list Z :=
  List.filter (fun x => negb (x =? k)) q.
Definition queue_get (k : Z) (s : socket) : option control :=
  if mem k (_queue s) then controls s !! k else None.
Definition queue_size (s : socket) : Z := Z.of_nat (length (_queue s)).

(** [err ? reject(err) : resolve()] of the promise made by call [id].  A
    promise settles once; [resolve] and [reject] do nothing afterwards.
    The ['error'] that a [.catch] handler emits is listed in [emitted] where
    the promise is rejected; the handler itself runs once the call under way
    has returned, so [emitted] tells which events a call gives rise to, not
    the order of two events of one call. *)
Definition outcome (err : option error) : settlement :=
  match err with
  | Some e => Rejected e
  | None => Resolved
  end.

Definition settle (id : Z) (o : settlement) (s : socket) : socket :=
  match promises s !! id with
  | Some Pending =>
      let s := set_promises (<[id := o]> (promises s)) s in
      let s := set_settled (settled s ++ [(id, o)]) s in
      match o with
      | Rejected e => if mem id (catching s) then emit (EError e) s else s
      | _ => s
      end
  | _ => s
  end.

(** [control.cancel(err)] *)
Definition control_cancel (id : Z) (err : option error) (s : socket) : bool * socket :=
  match controls s !! id with
  | Some control =>
      if sent control then (false, s)
      else
        let s := set_queue (queue_delete id (_queue s)) s in
        (true, settle id (outcome err) s)
  | None => (false, s)
  end.

(** [control.send()].  The callbacks put on the promise of [_sendData] run
    when the write completes: see [written]. *)
Definition control_send (id : Z) (s : socket) : socket :=
  match controls s !! id with
  | Some control =>
      if sent control then s
      else
        let control' := {| data := data control; msgID := msgID control;
                           sent := true; ackWanted := ackWanted control |} in
        let s := set_controls (<[id := control']> (controls s)) s in
        let s := set_sendData (sendData s ++ [(id, data control)]) s in
        set_writing (writing s ++ [id]) s
  | None => s
  end.

(** [control.ack(err)] *)
Definition control_ack (id : Z) (err : option error) (s : socket) : socket :=
  let isFirst := match _queue s with first :: _ => first =? id | [] => false end in
  let s := set_queue (queue_delete id (_queue s)) s in
  let s := settle id (outcome err) s in
  if isFirst && (0 <? queue_size s) then
    match _queue s with
    | first :: _ => control_send first s
    | [] => s
    end
  else s.

(** The promise [_sendData] returned for control [id] settles: with
    [needACK], [.catch(control.ack)]; without,
    [.then(control.ack).catch(control.ack)]. *)
Definition written (id : Z) (err : option error) (s : socket) : socket :=
  let s := set_writing (List.filter (fun x => negb (x =? id)) (writing s)) s in
  match controls s !! id with
  | Some control =>
      if ackWanted control then
        match err with
        | Some e => control_ack id (Some e) s
        | None => s
        end
      else control_ack id err s
  | None => s
  end.

(** [_send], first variant of the file.  An exception in the executor of
    the promise rejects the promise. *)
Definition _send (isInternal prior : bool) (messageName : jsstring) (needACK : bool)
    (data : payload) (s : socket) : Z * socket :=
  let msgID := _messageID s in
  let s := set_messageID (msgID + 1) s in
  let s := set_promises (<[msgID := Pending]> (promises s)) s in
  let executor : res (list byte) :=
    let header := _serializeHeader isInternal messageName needACK (of_int msgID) in
    do sendingData <-
      match data with
      | DArray data => do body <- serialize data; Ret (header ++ body)
      | DBuffer data _serialized =>
          if _serialized then Ret (header ++ data) else Throw NotSerialized
      | DOther => Throw BadDataType
      end;
    match _maxPayload s with
    | Some maxPayload =>
        if maxPayload <? len sendingData then Throw PayloadTooLarge else Ret sendingData
    | None => Ret sendingData
    end in
  match executor with
  | Throw e => (msgID, settle msgID (Rejected e) s)
  | Ret sendingData =>
      let control := {| data := sendingData; msgID := msgID;
                        sent := false; ackWanted := needACK |} in
      let s := set_controls (<[msgID := control]> (controls s)) s in
      let s := set_queue (queue_set msgID (_queue s)) s in
      if prior || (queue_size s =? 1) then (msgID, control_send msgID s)
      else (msgID, s)
  end.

Definition send (messageName : jsstring) (data : payload) (needACK prior : bool)
    (s : socket) : Z * socket :=
  _send false prior messageName needACK data s.

Definition _sendInternal (messageName : jsstring) (data : payload)
    (needACK prior : bool) (s : socket) : Z * socket :=
  _send true prior messageName needACK data s.

(** [cancel(messageID, err)] *)
Definition cancel (messageID : Z) (err : option error) (s : socket) : bool * socket :=
  match queue_get messageID s with
  | Some _ => control_cancel messageID err s
  | None => (false, s)
  end.

(** The handler of ['close']: over a copy of the Map's values, reversed. *)
Definition close_item (s : socket) (item : Z) : socket :=
  let '(result, s) := control_cancel item (Some ConnectionAborted) s in
  if result then s else control_ack item (Some ConnectionAborted) s.

Definition on_close (s : socket) : socket :=
  fold_left close_item (rev (_queue s)) s.

(** The key [this._queue.get(body[0])] looks up: the keys are the integers
    [msgID], so only a number with an integer value can be one. *)
Definition ack_key (body : list value) : option Z :=
  match body with
  | VNumber n :: _ =>
      match to_num n with
      | JInt z => Some z
      | _ => None
      end
  | _ => None
  end.

(** [_receiveData].  [None]: [deserialize] is still running. *)
Definition _receiveData (fuel : nat) (data : list byte) (s : socket) : option socket :=
  match _deserializeHeader data with
  | Throw e => Some (emit (EError e) s)
  | Ret header =>
      let s :=
        if needACK header then
          let '(id, s) :=
            _sendInternal (str "ack") (DArray [VNumber (messageID header)]) false true
              (set_catching (_messageID s :: catching s) s) in
          s
        else s in
      let rest := slice_from data (to_num (headerLength header)) in
      if isInternal header then
        match deserialize fuel rest with
        | None => None
        | Some (Throw e) => Some (emit (EError e) s)
        | Some (Ret body) =>
            if jsstring_eqb (messageName header) (str "ack") then
              match ack_key body with
              | Some k =>
                  match queue_get k s with
                  | Some _ => Some (control_ack k None s)
                  | None => Some s
                  end
              | None => Some s
              end
            else Some s
        end
      else if _needDeserialize s then
        match deserialize fuel rest with
        | None => None
        | Some (Throw e) => Some (emit (EError e) s)
        | Some (Ret body) => Some (emit (EMessage (messageName header) body) s)
        end
      else Some (emit (EMessageRaw (messageName header) rest) s)
  end.

(** ** The socket as a transition system

    What can happen to a socket: the application calls [send] or [cancel],
    the transport settles the promise of a [_sendData] call, delivers a frame
    or closes. *)

Inductive action :=
| Send (messageName : jsstring) (data : payload) (needACK prior : bool)
| Cancel (messageID : Z) (err : option error)
| Written (id : Z) (err : option error)
| Receive (data : list byte)
| Close.

Inductive step : socket -> action -> socket -> Prop :=
| step_send s messageName data needACK prior :
    step s (Send messageName data needACK prior)
         (snd (send messageName data needACK prior s))
| step_cancel s messageID err :
    step s (Cancel messageID err) (snd (cancel messageID err s))
| step_written s id err :
    In id (writing s) ->
    step s (Written id err) (written id err s)
| step_receive s data fuel s' :
    _receiveData fuel data s = Some s' ->
    step s (Receive data) s'
| step_close s :
    step s Close (on_close s).

(** An action that makes no [prior] send: a [send] without [prior], and a
    frame that asks for no acknowledgement (the reply to one that does is
    sent with [prior]). *)
Definition no_prior (a : action) : Prop :=
  match a with
  | Send _ _ _ prior => prior = false
  | Receive data => forall h, _deserializeHeader data = Ret h -> needACK h = false
  | _ => True
  end.

(** An action in which the application makes no [prior] send; any frame
    may arrive. *)
Definition no_prior_send (a : action) : Prop :=
  match a with
  | Send _ _ _ prior => prior = false
  | _ => True
  end.

Inductive reachable (P : action -> Prop) (init : socket) : socket -> Prop :=
| reach_init : reachable P init init
| reach_step s a s' :
    reachable P init s -> P a -> step s a s' -> reachable P init s'.

(** The two halves of [_send], named for the proofs: the state once the
    counter is advanced and the promise made, and what the executor does
    with [sendingData] after its checks. *)
Definition promised (s : socket) : socket :=
  set_promises (<[_messageID s := Pending]> (promises s))
    (set_messageID (_messageID s + 1) s).

Definition enqueue (msgID : Z) (sendingData : list byte) (needACK prior : bool)
    (s : socket) : socket :=
  let control := {| data := sendingData; msgID := msgID;
                    sent := false; ackWanted := needACK |} in
  let s := set_controls (<[msgID := control]> (controls s)) s in
  let s := set_queue (queue_set msgID (_queue s)) s in
  if prior || (queue_size s =? 1) then control_send msgID s else s.

(** The shape every socket keeps: the keys of the Map are distinct and
    below the counter, each has its control in the store and a pending
    promise, and a control whose promise is pending is still in the Map. *)
Record wf (s : socket) : Prop := {
  wf_nodup : List.NoDup (_queue s);
  wf_queue : forall id, In id (_queue s) ->
    is_Some (controls s !! id) /\ promises s !! id = Some Pending;
  wf_fresh : forall id, _messageID s <= id ->
    controls s !! id = None /\ promises s !! id = None;
  wf_pending : forall id, is_Some (controls s !! id) ->
    promises s !! id = Some Pending -> In id (_queue s);
  wf_promise : forall id, is_Some (controls s !! id) -> is_Some (promises s !! id)
}.

(** Only the head of the queue has been sent. *)
Definition head_only (s : socket) : Prop :=
  forall id c, In id (_queue s) -> controls s !! id = Some c -> sent c = true ->
    hd_error (_queue s) = Some id.

(** What [_receiveData] does first with any frame: it answers a frame that
    asks for an acknowledgement. *)
Definition reply (h : header) (s : socket) : socket :=
  if needACK h then
    snd (_sendInternal (str "ack") (DArray [VNumber (messageID h)]) false true
           (set_catching (_messageID s :: catching s) s))
  else s.

(** A control that waits (not sent in [s]) and is sent in [s'] is the head
    of the queue of [s']. *)
Definition only_head_sent (s s' : socket) : Prop :=
  forall id c c', controls s !! id = Some c -> sent c = false ->
    controls s' !! id = Some c' -> sent c' = true ->
    hd_error (_queue s') = Some id.

(** Any action; the sockets that can be reached from a new one. *)
Definition any (a : action) : Prop := True.

Definition live (s : socket) : Prop :=
  exists maxPayload needDeserialize,
    reachable any (new_socket maxPayload needDeserialize) s.

(** A control that was sent and whose promise is pending. *)
Definition in_flight (s : socket) (id : Z) : Prop :=
  exists c, controls s !! id = Some c /\ sent c = true /\
            promises s !! id = Some Pending.

Definition single_flight (s : socket) : Prop :=
  forall id, in_flight s id -> hd_error (_queue s) = Some id.

End BaseSocket.

(** ** The second variant of the file

    It differs from the first in the header, which is the array
    [[isInternal, needACK, messageID, messageName]] written by the package
    object2buffer behind its own length, in the default and the comparison
    of [_maxPayload], and in taking any Buffer as data.  The codec of
    object2buffer is not part of the repository: it is a parameter. *)

Module Canonical.
Section WithCodec.

Context {obj : Type}.
Variable o2b_serialize : list (@value obj) -> res (list byte).
Variable o2b_deserialize : list byte -> res (list (@value obj)).

Record header := {
  isInternal : @value obj;
  needACK : @value obj;
  messageID : @value obj;
  messageName : @value obj;
  headerLength : jsnum
}.

Definition _serializeHeader (isInternal : bool) (messageName : @value obj)
    (needACK : bool) (messageID : double) : res (list byte) :=
  do header <- o2b_serialize [VBoolean isInternal; VBoolean needACK;
                               VNumber messageID; messageName];
  let headerLength := writeDoubleBE (of_int (len header)) in
  Ret (headerLength ++ header).

Definition _deserializeHeader (data : list byte) : res header :=
  do headerLength <- readDoubleBE data (JInt 0);
  do header <- o2b_deserialize
                 (slice data (JInt 8) (js_add (to_num headerLength) (JInt 8)));
  Ret {| isInternal := nth 0 header VUndefined;
         needACK := nth 1 header VUndefined;
         messageID := nth 2 header VUndefined;
         messageName := nth 3 header VUndefined;
         headerLength := js_add (JInt 8) (to_num headerLength) |}.

(** The constructor: [maxPayload] defaults to 100 MiB. *)
Definition new_socket (maxPayload : option Z) (needDeserialize : bool) : @socket obj :=
  {| _messageID := 0; _queue := [];
     _maxPayload := Some (match maxPayload with
                          | None => 1024 * 1024 * 100
                          | Some m => m
                          end);
     _needDeserialize := needDeserialize; controls := ∅; promises := ∅;
     catching := []; settled := []; sendData := []; writing := []; emitted := [] |}.

Definition _send (isInternal prior : bool) (messageName : @value obj)
    (needACK : bool) (data : @payload obj) (s : @socket obj) : Z * @socket obj :=
  let msgID := _messageID s in
  let s := set_messageID (msgID + 1) s in
  let s := set_promises (<[msgID := Pending]> (promises s)) s in
  let executor : res (list byte) :=
    do header <- _serializeHeader isInternal messageName needACK (of_int msgID);
    do sendingData <-
      match data with
      | DArray data => do body <- o2b_serialize data; Ret (header ++ body)
      | DBuffer data _ => Ret (header ++ data)
      | DOther => Throw TypeError
      end;
    match _maxPayload s with
    | Some maxPayload =>
        if maxPayload <=? len sendingData then Throw PayloadTooLarge else Ret sendingData
    | None => Ret sendingData
    end in
  match executor with
  | Throw e => (msgID, settle msgID (Rejected e) s)
  | Ret sendingData =>
      let control := {| data := sendingData; msgID := msgID;
                        sent := false; ackWanted := needACK |} in
      let s := set_controls (<[msgID := control]> (controls s)) s in
      let s := set_queue (queue_set msgID (_queue s)) s in
      if prior || (queue_size s =? 1) then (msgID, control_send msgID s)
      else (msgID, s)
  end.

End WithCodec.
End Canonical.

(** A small instance of the JSON parameters, for the examples: the only
    object is the empty one. *)
Definition toy_stringify (o : unit) : res (option jsstring) := Ret (Some (str "{}")).
Definition toy_parse (s : jsstring) : option (@value unit) :=
  if jsstring_eqb s (str "{}") then Some (VObject tt) else None.

(** A run of the socket, for the examples.

    A new socket without limit, then [send("greet", ["hi", 42, true])], then
    [send("second", [])], then a third send with [prior]. *)

Definition run0 : @socket unit := new_socket None true.
Definition run1 : @socket unit :=
  snd (send toy_stringify (str "greet")
         (DArray [VString (str "hi"); VNumber (of_int 42); VBoolean true]) true false run0).
Definition run2 : @socket unit :=
  snd (send toy_stringify (str "second") (DArray []) true false run1).
Definition run3 : @socket unit :=
  snd (send toy_stringify (str "third") (DArray []) true true run2).

(** The first frame of a peer that called [send("ping", [])]: it asks for an
    acknowledgement.  [run1_asked] is [run1] once that frame has arrived. *)
Definition ping0 : list byte := _serializeHeader false (str "ping") true (of_int 0).
Definition run1_asked : @socket unit :=
  match _receiveData toy_stringify toy_parse 1 ping0 run1 with
  | Some s => s
  | None => run1
  end.

(** The codec of the first variant, standing in for object2buffer. *)
Definition toy_o2b_serialize : list (@value unit) -> res (list byte) :=
  serialize toy_stringify.
Definition toy_o2b_deserialize (b : list byte) : res (list (@value unit)) :=
  match deserialize toy_parse (S (length b)) b with
  | Some r => r
  | None => Throw RangeError
  end.

(** ** More of [BaseSocket]: the getter [bufferedAmount], and what the
    queue keeps over every run *)

Section Observations.
Context {obj : Type}.

(** [get bufferedAmount()]: [size += item.data.length] over the Map's values. *)
Definition bufferedAmount (s : @socket obj) : jsnum :=
  fold_left
    (fun size k =>
       match controls s !! k with
       | Some item => js_add size (JInt (len (data item)))
       | None => size
       end)
    (_queue s) (JInt 0).

(** The header [_send] writes for call [id], as [_deserializeHeader] returns
    it: the name has gone through UTF-8. *)
Definition header_of (isInternal : bool) (messageName : jsstring) (needACK : bool)
    (id : Z) : header :=
  {| isInternal := isInternal; messageName := toString (Buffer_from messageName);
     needACK := needACK; messageID := of_int id;
     headerLength := of_int (26 + len (Buffer_from messageName)) |}.

(** The first entry of the queue has been handed to [_sendData]. *)
Definition head_sent (s : @socket obj) : Prop :=
  forall h, hd_error (_queue s) = Some h ->
    exists c, controls s !! h = Some c /\ sent c = true.

(** A pending promise belongs to a control object. *)
Definition owned (s : @socket obj) : Prop :=
  forall id, promises s !! id = Some Pending -> is_Some (controls s !! id).

(** The calls of [_sendData] are the controls with [sent] set, each once and
    with the [sendingData] of its control. *)
Record logged (s : @socket obj) : Prop := {
  lg_sound : forall id d, In (id, d) (sendData s) ->
    exists c, controls s !! id = Some c /\ sent c = true /\ data c = d;
  lg_complete : forall id c, controls s !! id = Some c -> sent c = true ->
    In (id, data c) (sendData s);
  lg_once : List.NoDup (map fst (sendData s))
}.

(** The order of the queue and of the calls of [_sendData]: both by
    increasing [msgID], and no call made yet is for an entry behind the
    head. *)
Record fifo (s : @socket obj) : Prop := {
  ff_queue : StronglySorted Z.lt (_queue s);
  ff_log : StronglySorted Z.lt (map fst (sendData s));
  ff_head : forall id h, In id (map fst (sendData s)) ->
    hd_error (_queue s) = Some h -> id <= h
}.

(** What a socket keeps whatever happens to it. *)
Definition steady (s : @socket obj) : Prop :=
  head_sent s /\ owned s /\ logged s /\ 0 <= _messageID s.

(** What it keeps as long as nothing is sent with [prior]. *)
Definition in_order (s : @socket obj) : Prop :=
  head_sent s /\ logged s /\ fifo s.

(** A message that was taken out of the queue before it was sent. *)
Definition shelved (id : Z) (s : @socket obj) : Prop :=
  ~ In id (_queue s) /\ id < _messageID s /\
  exists c, controls s !! id = Some c /\ sent c = false.

End Observations.

(** ** The [BaseSocket] that comes with server/Socket.ts

    Its frames are the length of a title on 4 bytes, the title and the
    data; there is no header, no acknowledgement and no [prior].  The queue
    [_sendingQueue] holds [{ size, send }] under the message id; the closure
    [send] keeps the variable [sent] and the frame [r_data]. *)

(** [alloc(4)] then [writeUInt32BE(v, 0)]; [readUInt32BE(off)]. *)
Definition writeUInt32BE (v : Z) : res (list byte) :=
  if (0 <=? v) && (v <=? 4294967295) then Ret (be_encode 4 v) else Throw RangeError.

Definition readUInt32BE (data : list byte) (off : jsnum) : res Z :=
  match valid_offset data off 4 with
  | Some z => Ret (be_decode (take 4 (drop (Z.to_nat z) data)))
  | None => Throw RangeError
  end.

Module Titled.

Inductive event :=
| EError (err : error)                        (* emit('error', err) *)
| EMessage (title : jsstring) (data : list byte).  (* emit('message', title, r_data) *)

Record item := {
  size : Z;               (* r_data.length *)
  sent : bool;            (* the variable of the closure send *)
  r_data : list byte
}.

Record socket := {
  _messageID : Z;
  _sendingQueue : list Z;            (* the keys of the Map, in insertion order *)
  maxPayload : Z;
  items : gmap Z item;               (* the value made by call id *)
  promises : gmap Z settlement;
  sendData : list (Z * list byte);   (* the calls of _sendData, in order *)
  writing : list Z;                  (* items whose _sendData promise is pending *)
  last_thens : nat;                  (* settled _sendData promises whose last .then has not run *)
  emitted : list event
}.

Definition set_messageID (n : Z) (s : socket) : socket :=
  {| _messageID := n; _sendingQueue := _sendingQueue s; maxPayload := maxPayload s;
     items := items s; promises := promises s; sendData := sendData s;
     writing := writing s; last_thens := last_thens s; emitted := emitted s |}.

Definition set_queue (q : list Z) (s : socket) : socket :=
  {| _messageID := _messageID s; _sendingQueue := q; maxPayload := maxPayload s;
     items := items s; promises := promises s; sendData := sendData s;
     writing := writing s; last_thens := last_thens s; emitted := emitted s |}.

Definition set_items (i : gmap Z item) (s : socket) : socket :=
  {| _messageID := _messageID s; _sendingQueue := _sendingQueue s;
     maxPayload := maxPayload s;
     items := i; promises := promises s; sendData := sendData s;
     writing := writing s; last_thens := last_thens s; emitted := emitted s |}.

Definition set_promises (p : gmap Z settlement) (s : socket) : socket :=
  {| _messageID := _messageID s; _sendingQueue := _sendingQueue s;
     maxPayload := maxPayload s;
     items := items s; promises := p; sendData := sendData s;
     writing := writing s; last_thens := last_thens s; emitted := emitted s |}.

Definition set_sendData (l : list (Z * list byte)) (s : socket) : socket :=
  {| _messageID := _messageID s; _sendingQueue := _sendingQueue s;
     maxPayload := maxPayload s;
     items := items s; promises := promises s; sendData := l;
     writing := writing s; last_thens := last_thens s; emitted := emitted s |}.

Definition set_writing (l : list Z) (s : socket) : socket :=
  {| _messageID := _messageID s; _sendingQueue := _sendingQueue s;
     maxPayload := maxPayload s;
     items := items s; promises := promises s; sendData := sendData s;
     writing := l; last_thens := last_thens s; emitted := emitted s |}.

Definition set_last_thens (n : nat) (s : socket) : socket :=
  {| _messageID := _messageID s; _sendingQueue := _sendingQueue s;
     maxPayload := maxPayload s;
     items := items s; promises := promises s; sendData := sendData s;
     writing := writing s; last_thens := n; emitted := emitted s |}.

Definition emit (ev : event) (s : socket) : socket :=
  {| _messageID := _messageID s; _sendingQueue := _sendingQueue s;
     maxPayload := maxPayload s;
     items := items s; promises := promises s; sendData := sendData s;
     writing := writing s; last_thens := last_thens s; emitted := emitted s ++ [ev] |}.

(** The constructor: [configs.maxPayload == null || configs.maxPayload <= 0
    ? 0 : configs.maxPayload + 4]. *)
Definition new_socket (configured : option Z) : socket :=
  {| _messageID := 0; _sendingQueue := [];
     maxPayload := match configured with
                   | None => 0
                   | Some m => if m <=? 0 then 0 else m + 4
                   end;
     items := ∅; promises := ∅; sendData := []; writing := []; last_thens := 0;
     emitted := [] |}.

(** [resolve()] and [reject(err)] of the promise of call [id]. *)
Definition settle (id : Z) (o : settlement) (s : socket) : socket :=
  match promises s !! id with
  | Some Pending => set_promises (<[id := o]> (promises s)) s
  | _ => s
  end.

(** The closure [send(err)] of call [id].  What it puts on the promise of
    [_sendData] runs later: see [written] and [last_then]. *)
Definition item_send (id : Z) (err : option error) (s : socket) : socket :=
  match items s !! id with
  | Some it =>
      if sent it then s
      else
        let s := set_items (<[id := {| size := size it; sent := true;
                                       r_data := r_data it |}]> (items s)) s in
        match err with
        | Some e =>
            let s := settle id (Rejected e) s in
            set_queue (queue_delete id (_sendingQueue s)) s
        | None =>
            let s := set_sendData (sendData s ++ [(id, r_data it)]) s in
            set_writing (writing s ++ [id]) s
        end
  | None => s
  end.

(** [send(title, data)] *)
Definition send (title : jsstring) (data : list byte) (s : socket) : Z * socket :=
  let messageID := _messageID s in
  let s := set_messageID (messageID + 1) s in
  let s := set_promises (<[messageID := Pending]> (promises s)) s in
  let executor : res (list byte) :=
    let b_title := Buffer_from title in
    do b_title_length <- writeUInt32BE (len b_title);
    let r_data := b_title_length ++ b_title ++ data in
    if negb (maxPayload s =? 0) && (maxPayload s <? len r_data)
    then Throw PayloadTooLarge
    else Ret r_data in
  match executor with
  | Throw e => (messageID, settle messageID (Rejected e) s)
  | Ret r_data =>
      let s := set_items (<[messageID := {| size := len r_data; sent := false;
                                            r_data := r_data |}]> (items s)) s in
      let s := set_queue (queue_set messageID (_sendingQueue s)) s in
      if Z.of_nat (length (_sendingQueue s)) =? 1
      then (messageID, item_send messageID None s)
      else (messageID, s)
  end.

(** The promise of [_sendData] for call [id] settles: the first [.then] or
    the [.catch] takes the message out of the queue and settles the promise
    of the call; the last [.then] is now due. *)
Definition written (id : Z) (err : option error) (s : socket) : socket :=
  let s := set_writing (List.filter (fun x => negb (x =? id)) (writing s)) s in
  let s := set_queue (queue_delete id (_sendingQueue s)) s in
  let s := settle id (outcome err) s in
  set_last_thens (S (last_thens s)) s.

(** The last [.then]: [if (size > 0) values().next().value.send()]. *)
Definition last_then (s : socket) : socket :=
  let s := set_last_thens (Nat.pred (last_thens s)) s in
  match _sendingQueue s with
  | first :: _ => item_send first None s
  | [] => s
  end.

(** [cancel(messageID, err)]; [err] defaults to an error of its own. *)
Definition cancel (messageID : Z) (err : error) (s : socket) : socket :=
  if mem messageID (_sendingQueue s) then item_send messageID (Some err) s else s.

(** The handler of ['close']: [cancel] over the keys, reversed. *)
Definition on_close (s : socket) : socket :=
  fold_left (fun s item => cancel item ConnectionAborted s) (rev (_sendingQueue s)) s.

(** [_receiveData(data)] *)
Definition _receiveData (data : list byte) (s : socket) : socket :=
  match readUInt32BE data (JInt 0) with
  | Throw e => emit (EError e) s
  | Ret title_length =>
      let offset := js_add (JInt 0) (JInt 4) in
      let stop := js_add offset (JInt title_length) in
      let title := toString (slice data offset stop) in
      let r_data := slice_from data stop in
      emit (EMessage title r_data) s
  end.

(** What can happen to the socket. *)
Inductive action :=
| Send (title : jsstring) (data : list byte)
| Cancel (messageID : Z) (err : error)
| Written (id : Z) (err : option error)
| LastThen
| Receive (data : list byte)
| Close.

Inductive step : socket -> action -> socket -> Prop :=
| step_send s title data : step s (Send title data) (snd (send title data s))
| step_cancel s messageID err : step s (Cancel messageID err) (cancel messageID err s)
| step_written s id err : In id (writing s) -> step s (Written id err) (written id err s)
| step_last_then s : (0 < last_thens s)%nat -> step s LastThen (last_then s)
| step_receive s data : step s (Receive data) (_receiveData data s)
| step_close s : step s Close (on_close s).

Inductive reachable (init : socket) : socket -> Prop :=
| reach_init : reachable init init
| reach_step s a s' : reachable init s -> step s a s' -> reachable init s'.

Definition live (s : socket) : Prop := exists configured, reachable (new_socket configured) s.

(** The shape the socket keeps: the keys of the Map are the pending calls,
    in increasing order; an item that was not sent is in the Map; an item in
    the Map that was sent is its first and the one transport call under
    way; the calls of [_sendData] are in increasing order of id and none is
    for an item behind the first. *)
Record shape (s : socket) : Prop := {
  sh_sorted : StronglySorted Z.lt (_sendingQueue s);
  sh_queue : forall id, In id (_sendingQueue s) ->
    is_Some (items s !! id) /\ promises s !! id = Some Pending;
  sh_fresh : forall id, _messageID s <= id ->
    items s !! id = None /\ promises s !! id = None;
  sh_pending : forall id, promises s !! id = Some Pending -> In id (_sendingQueue s);
  sh_waiting : forall id it, items s !! id = Some it -> sent it = false ->
    In id (_sendingQueue s);
  sh_flight : forall id it, In id (_sendingQueue s) -> items s !! id = Some it ->
    sent it = true -> hd_error (_sendingQueue s) = Some id /\ In id (writing s);
  sh_writing : forall id, In id (writing s) ->
    In id (_sendingQueue s) /\ exists it, items s !! id = Some it /\ sent it = true;
  sh_log : forall id d, In (id, d) (sendData s) ->
    exists it, items s !! id = Some it /\ sent it = true /\ r_data it = d;
  sh_order : StronglySorted Z.lt (map fst (sendData s));
  sh_behind : forall id h, In id (map fst (sendData s)) ->
    hd_error (_sendingQueue s) = Some h -> id <= h
}.

(** The queue moves: if its first item was not sent, a last [.then] is due
    that will send it. *)
Definition moving (s : socket) : Prop :=
  forall h it, hd_error (_sendingQueue s) = Some h -> items s !! h = Some it ->
    sent it = false -> (0 < last_thens s)%nat.

Definition wf (s : socket) : Prop := shape s /\ moving s.

End Titled.

(** What the handler of ['close'] leaves of a socket [s]: [t] has lost
    items that were waiting, their promises rejected, and nothing else. *)
Definition closes (s t : Titled.socket) : Prop :=
  Titled.sendData t = Titled.sendData s /\
  (forall id, In id (Titled._sendingQueue t) ->
     In id (Titled._sendingQueue s) /\ Titled.items t !! id = Titled.items s !! id /\
     Titled.promises t !! id = Titled.promises s !! id) /\
  (forall id, In id (Titled._sendingQueue s) -> ~ In id (Titled._sendingQueue t) ->
     Titled.promises t !! id = Some (Rejected ConnectionAborted) /\
     exists it, Titled.items s !! id = Some it /\ Titled.sent it = false) /\
  (forall id, ~ In id (Titled._sendingQueue s) ->
     Titled.promises t !! id = Titled.promises s !! id) /\
  (forall id it, In id (Titled._sendingQueue s) -> Titled.items s !! id = Some it ->
     Titled.sent it = true -> In id (Titled._sendingQueue t)).

(** ** More runs, for the examples *)

(** The control [run1] holds for its first send. *)
Definition greet_control : control :=
  {| data := _serializeHeader false (str "greet") true (of_int 0)
             ++ match serialize toy_stringify
                        [VString (str "hi"); VNumber (of_int 42); VBoolean true] with
                | Ret body => body
                | Throw _ => []
                end;
     msgID := 0; sent := true; ackWanted := true |}.

(** The frame [ack [0]] as a peer sends it, and [run2] once it has arrived. *)
Definition ack0 : list byte :=
  _serializeHeader true (str "ack") false (of_int 7) ++ writeUInt8 0 ++ writeDoubleBE (of_int 0).
Definition run2_acked : @socket unit :=
  match _receiveData toy_stringify toy_parse 2 ack0 run2 with
  | Some s => s
  | None => run2
  end.

(** [run2] with its second message cancelled, then the frame [ack [0]]. *)
Definition run2_cancelled : @socket unit := snd (cancel 1 None run2).
Definition run2_cancelled_acked : @socket unit :=
  match _receiveData toy_stringify toy_parse 2 ack0 run2_cancelled with
  | Some s => s
  | None => run2_cancelled
  end.

(** A run of the socket of server/Socket.ts: a limit of 8 bytes, then
    [send("ab", <01 02 03>)], [send("c", <>)] and a send that is too large. *)
Definition t0 : Titled.socket := Titled.new_socket (Some 8).
Definition t1 : Titled.socket := snd (Titled.send (str "ab") [x01; x02; x03] t0).
Definition t2 : Titled.socket := snd (Titled.send (str "c") [] t1).
Definition t3 : Titled.socket := snd (Titled.send (str "title") [x01; x02; x03; x04] t2).
(** [t2] once the transport is done with the first frame. *)
Definition t2_done : Titled.socket := Titled.written 0 None t2.

(** * Proofs *)

(** ** Bytes and numbers *)

Arguments writeDoubleBE : simpl never.
Arguments byte_of_Z : simpl never.

Lemma Z_of_byte_range b : 0 <= Z_of_byte b < 256.
Proof.
  unfold Z_of_byte. pose proof (Byte.to_N_bounded b) as H.
  lia.
Qed.

Lemma Z_of_byte_of_Z z : 0 <= z < 256 -> Z_of_byte (byte_of_Z z) = z.
Proof.
  intros Hz. unfold Z_of_byte, byte_of_Z.
  rewrite Z.mod_small by lia.
  destruct (Byte.of_N (Z.to_N z)) as [b|] eqn:E.
  - apply Byte.to_of_N in E. rewrite E. lia.
  - apply Byte.of_N_None_iff in E. lia.
Qed.

Lemma byte_of_Z_of_byte b : byte_of_Z (Z_of_byte b) = b.
Proof.
  unfold byte_of_Z, Z_of_byte.
  pose proof (Z_of_byte_range b) as H. unfold Z_of_byte in H.
  rewrite Z.mod_small by lia. rewrite N2Z.id, Byte.of_to_N. reflexivity.
Qed.

Lemma byte_of_Z_mod z : byte_of_Z (z mod 256) = byte_of_Z z.
Proof. unfold byte_of_Z. rewrite Z.mod_mod by lia. reflexivity. Qed.

(** *** Strings and their UTF-8 bytes *)

Lemma code_range u : 0 <= code u < 65536.
Proof.
  unfold code. pose proof (Z_of_byte_range (hi u)). pose proof (Z_of_byte_range (lo u)).
  lia.
Qed.

Lemma char16_of_code u : char16_of_Z (code u) = u.
Proof.
  destruct u as [h l]. unfold char16_of_Z, code. cbn [hi lo].
  pose proof (Z_of_byte_range h). pose proof (Z_of_byte_range l).
  f_equal.
  - replace ((Z_of_byte h * 256 + Z_of_byte l) / 256) with (Z_of_byte h)
      by (apply Z.div_unique with (r := Z_of_byte l); lia).
    apply byte_of_Z_of_byte.
  - rewrite <- byte_of_Z_mod.
    replace ((Z_of_byte h * 256 + Z_of_byte l) mod 256) with (Z_of_byte l)
      by (apply Z.mod_unique with (q := Z_of_byte h); lia).
    apply byte_of_Z_of_byte.
Qed.

Lemma code_of_char16 z : 0 <= z < 65536 -> code (char16_of_Z z) = z.
Proof.
  intros Hz. unfold code, char16_of_Z. cbn [hi lo].
  rewrite Z_of_byte_of_Z by (split; [apply Z.div_pos; lia | apply Z.div_lt_upper_bound; lia]).
  rewrite <- byte_of_Z_mod, Z_of_byte_of_Z by (apply Z.mod_pos_bound; lia).
  pose proof (Z.div_mod z 256). lia.
Qed.

Lemma char16_eqb_eq u v : char16_eqb u v = true <-> u = v.
Proof.
  destruct u as [a b], v as [c d]. unfold char16_eqb. cbn [hi lo].
  rewrite andb_true_iff. split.
  - intros [H1 H2]. apply Byte.byte_dec_bl in H1, H2. congruence.
  - intros [= -> ->]. split; apply Byte.byte_dec_lb; reflexivity.
Qed.

Lemma jsstring_eqb_eq a b : jsstring_eqb a b = true <-> a = b.
Proof.
  revert b. induction a as [|u a IH]; intros [|v b]; cbn [jsstring_eqb];
    try (split; [discriminate | intros [=]]); [tauto|].
  rewrite andb_true_iff, char16_eqb_eq, IH. split.
  - intros [-> ->]. reflexivity.
  - intros [= -> ->]. tauto.
Qed.

Lemma jsstring_eqb_refl a : jsstring_eqb a a = true.
Proof. apply jsstring_eqb_eq. reflexivity. Qed.

Ltac compare_all :=
  repeat match goal with
         | |- context [?a <=? ?b] => destruct (Z.leb_spec a b); try lia
         | |- context [?a <? ?b] => destruct (Z.ltb_spec a b); try lia
         | |- context [?a =? ?b] => destruct (Z.eqb_spec a b); try lia
         end;
  cbn [andb orb negb].

Lemma utf8_decode_first b rest :
  0 <= b < 256 ->
  utf8_decode (byte_of_Z b :: rest) utf8_start =
  fst (utf8_first b) ++ utf8_decode rest (snd (utf8_first b)).
Proof.
  intros Hb. cbn [utf8_decode utf8_start needed]. rewrite Z_of_byte_of_Z by assumption.
  change (0 =? 0) with true. cbv iota. destruct (utf8_first b). reflexivity.
Qed.

Lemma utf8_decode_next b rest st :
  0 <= b < 256 -> 1 < needed st -> lower st <= b <= upper st ->
  utf8_decode (byte_of_Z b :: rest) st =
  utf8_decode rest {| point := point st * 64 + (b - 0x80); needed := needed st - 1;
                      lower := 0x80; upper := 0xBF |}.
Proof.
  intros Hb Hn Hl. cbn [utf8_decode]. rewrite Z_of_byte_of_Z by assumption.
  compare_all. reflexivity.
Qed.

Lemma utf8_decode_last b rest st :
  0 <= b < 256 -> needed st = 1 -> lower st <= b <= upper st ->
  utf8_decode (byte_of_Z b :: rest) st =
  (point st * 64 + (b - 0x80)) :: utf8_decode rest utf8_start.
Proof.
  intros Hb Hn Hl. cbn [utf8_decode]. rewrite Z_of_byte_of_Z by assumption.
  rewrite Hn. compare_all. reflexivity.
Qed.

Lemma utf8_decode_bytes c rest :
  scalar c ->
  utf8_decode (utf8_bytes c ++ rest) utf8_start = c :: utf8_decode rest utf8_start.
Proof.
  intros [Hc Hs]. unfold utf8_bytes.
  destruct (Z.ltb_spec c 0x80) as [H1|H1];
    [|destruct (Z.ltb_spec c 0x800) as [H2|H2];
      [|destruct (Z.ltb_spec c 0x10000) as [H3|H3]]];
    cbn [app].
  - rewrite utf8_decode_first by lia. unfold utf8_first. compare_all. reflexivity.
  - pose proof (Z.div_mod c 64 ltac:(lia)) as Hd.
    pose proof (Z.mod_pos_bound c 64 ltac:(lia)) as Hm.
    assert (2 <= c / 64 < 32) as Hq by lia.
    rewrite utf8_decode_first by lia. unfold utf8_first. compare_all. cbn [fst snd app].
    rewrite utf8_decode_last by (cbn [needed lower upper]; lia).
    cbn [point]. f_equal. lia.
  - pose proof (Z.div_mod c 64 ltac:(lia)) as Hd.
    pose proof (Z.mod_pos_bound c 64 ltac:(lia)) as Hm.
    pose proof (Z.div_mod (c / 64) 64 ltac:(lia)) as Hd'.
    pose proof (Z.mod_pos_bound (c / 64) 64 ltac:(lia)) as Hm'.
    assert (c / 4096 = c / 64 / 64) as Hdd by (rewrite Z.div_div by lia; reflexivity).
    assert (0 <= c / 4096 < 16) as Hq by lia.
    rewrite utf8_decode_first by lia. unfold utf8_first.
    destruct (Z.leb_spec (0xE0 + c / 4096) 0x7F); [lia|].
    destruct (Z.leb_spec 0xC2 (0xE0 + c / 4096)); [|lia].
    destruct (Z.leb_spec (0xE0 + c / 4096) 0xDF); [lia|].
    destruct (Z.leb_spec 0xE0 (0xE0 + c / 4096)); [|lia].
    destruct (Z.leb_spec (0xE0 + c / 4096) 0xEF); [|lia].
    cbn [andb fst snd app].
    rewrite utf8_decode_next;
      [|lia|cbn [needed]; lia|cbn [lower upper]; compare_all].
    rewrite utf8_decode_last by (cbn [needed lower upper]; lia).
    cbn [point]. f_equal. lia.
  - pose proof (Z.div_mod c 64 ltac:(lia)) as Hd.
    pose proof (Z.mod_pos_bound c 64 ltac:(lia)) as Hm.
    pose proof (Z.div_mod (c / 64) 64 ltac:(lia)) as Hd'.
    pose proof (Z.mod_pos_bound (c / 64) 64 ltac:(lia)) as Hm'.
    pose proof (Z.div_mod (c / 4096) 64 ltac:(lia)) as Hd''.
    pose proof (Z.mod_pos_bound (c / 4096) 64 ltac:(lia)) as Hm''.
    assert (c / 4096 = c / 64 / 64) as Hdd by (rewrite Z.div_div by lia; reflexivity).
    assert (c / 262144 = c / 4096 / 64) as Hddd by (rewrite Z.div_div by lia; reflexivity).
    assert (0 <= c / 262144 <= 4) as Hq by lia.
    rewrite utf8_decode_first by lia. unfold utf8_first.
    destruct (Z.leb_spec (0xF0 + c / 262144) 0x7F); [lia|].
    destruct (Z.leb_spec 0xC2 (0xF0 + c / 262144)); [|lia].
    destruct (Z.leb_spec (0xF0 + c / 262144) 0xDF); [lia|].
    destruct (Z.leb_spec 0xE0 (0xF0 + c / 262144)); [|lia].
    destruct (Z.leb_spec (0xF0 + c / 262144) 0xEF); [lia|].
    destruct (Z.leb_spec 0xF0 (0xF0 + c / 262144)); [|lia].
    destruct (Z.leb_spec (0xF0 + c / 262144) 0xF4); [|lia].
    cbn [andb fst snd app].
    rewrite utf8_decode_next;
      [|lia|cbn [needed]; lia|cbn [lower upper]; compare_all].
    rewrite utf8_decode_next;
      [|lia|cbn [needed]; lia|cbn [lower upper]; lia].
    rewrite utf8_decode_last by (cbn [needed lower upper]; lia).
    cbn [point]. f_equal. lia.
Qed.

Lemma units_pair u v :
  is_lead (code u) = true -> is_trail (code v) = true ->
  let c := 0x10000 + (code u - 0xD800) * 1024 + (code v - 0xDC00) in
  scalar c /\ units c = [u; v].
Proof.
  intros Hu Hv c. unfold is_lead, is_trail in Hu, Hv.
  rewrite !andb_true_iff, !Z.leb_le in Hu, Hv.
  assert (0x10000 <= c < 0x110000) as Hc by (subst c; lia).
  split; [split; lia|].
  unfold units. destruct (Z.ltb_spec c 0x10000); [lia|].
  replace ((c - 0x10000) / 1024) with (code u - 0xD800)
    by (apply Z.div_unique with (r := code v - 0xDC00); subst c; lia).
  replace ((c - 0x10000) mod 1024) with (code v - 0xDC00)
    by (apply Z.mod_unique with (q := code u - 0xD800); subst c; lia).
  replace (0xD800 + (code u - 0xD800)) with (code u) by lia.
  replace (0xDC00 + (code v - 0xDC00)) with (code v) by lia.
  rewrite !char16_of_code. reflexivity.
Qed.

Lemma units_single u :
  is_lead (code u) = false -> is_trail (code u) = false ->
  scalar (code u) /\ units (code u) = [u].
Proof.
  unfold is_lead, is_trail. intros Hu Hv.
  rewrite !andb_false_iff, !Z.leb_gt in Hu, Hv.
  pose proof (code_range u) as Hr.
  split; [split; lia|].
  unfold units. destruct (Z.ltb_spec (code u) 0x10000); [|lia].
  rewrite char16_of_code. reflexivity.
Qed.

Lemma toString_app_bytes c rest :
  scalar c -> toString (utf8_bytes c ++ rest) = units c ++ toString rest.
Proof.
  intros Hc. unfold toString. rewrite utf8_decode_bytes by assumption. reflexivity.
Qed.

Lemma toString_Buffer_from_bounded n s :
  (length s <= n)%nat -> well_formed s = true -> toString (Buffer_from s) = s.
Proof.
  revert s. induction n as [|n IH]; intros [|u rest] Hn Hw;
    try reflexivity; cbn [length] in Hn; [lia|].
  cbn [well_formed Buffer_from] in *.
  destruct (is_lead (code u)) eqn:Hl.
  - destruct rest as [|v rest']; [discriminate|].
    apply andb_true_iff in Hw as [Ht Hw]. rewrite Ht.
    destruct (units_pair u v Hl Ht) as [Hs Hu].
    rewrite toString_app_bytes, Hu by assumption.
    cbn [app]. do 2 f_equal. apply IH; [cbn [length] in Hn; lia|assumption].
  - apply andb_true_iff in Hw as [Ht Hw]. apply negb_true_iff in Ht. rewrite Ht.
    destruct (units_single u Hl Ht) as [Hs Hu].
    rewrite toString_app_bytes, Hu by assumption.
    cbn [app]. f_equal. apply IH; [lia|assumption].
Qed.

Lemma toString_Buffer_from s : well_formed s = true -> toString (Buffer_from s) = s.
Proof. apply (toString_Buffer_from_bounded (length s)). lia. Qed.

Arguments Buffer_from : simpl never.
Arguments toString : simpl never.

Lemma be_encode_length n z : length (be_encode n z) = n.
Proof.
  revert z. induction n as [|n IH]; intros z; simpl; [reflexivity|].
  rewrite length_app, IH. simpl. lia.
Qed.

Lemma be_decode_app l b : be_decode (l ++ [b]) = be_decode l * 256 + Z_of_byte b.
Proof. unfold be_decode. rewrite fold_left_app. reflexivity. Qed.

Lemma be_decode_encode n z :
  0 <= z < 256 ^ Z.of_nat n -> be_decode (be_encode n z) = z.
Proof.
  revert z. induction n as [|n IH]; intros z Hz.
  - simpl in *. unfold be_decode. simpl. lia.
  - cbn [be_encode]. rewrite be_decode_app.
    rewrite Nat2Z.inj_succ, Z.pow_succ_r in Hz by lia.
    rewrite IH by (split; [apply Z.div_pos; lia | apply Z.div_lt_upper_bound; lia]).
    rewrite <- byte_of_Z_mod, Z_of_byte_of_Z by (apply Z.mod_pos_bound; lia).
    pose proof (Z.div_mod z 256). lia.
Qed.

(** Doubles *)
Lemma testbit_63_small b : 0 <= b < 2 ^ 63 -> Z.testbit b 63 = false.
Proof.
  intros Hb. destruct (Z.eq_dec b 0) as [->|Hn]; [apply Z.bits_0|].
  apply Z.bits_above_log2; [lia|].
  apply Z.log2_lt_pow2; lia.
Qed.

Section OfInt.
Variable n : Z.
Hypothesis Hn : 0 < n < 2 ^ 53.
Let l := Z.log2 n.

Lemma log2_bounds : 0 <= l <= 52 /\ 2 ^ l <= n < 2 ^ (l + 1).
Proof.
  subst l. pose proof (Z.log2_spec n ltac:(lia)) as H.
  pose proof (Z.log2_nonneg n).
  assert (Z.log2 n < 53) by (apply Z.log2_lt_pow2; lia).
  replace (Z.succ (Z.log2 n)) with (Z.log2 n + 1) in H by lia. lia.
Qed.

Lemma split_52 : 2 ^ 52 = 2 ^ l * 2 ^ (52 - l).
Proof.
  destruct log2_bounds as [Hl _].
  rewrite <- Z.pow_add_r by lia. f_equal. lia.
Qed.

Lemma of_int_eq :
  of_int n = (l + 1023) * 2 ^ 52 + (n - 2 ^ l) * 2 ^ (52 - l).
Proof.
  destruct log2_bounds as [Hl _].
  unfold of_int, pow2. fold l.
  destruct (Z.eqb_spec n 0); [lia|].
  rewrite Z.abs_eq by lia. fold l.
  destruct (Z.ltb_spec n 0); [lia|].
  destruct (Z.leb_spec l 52); [|lia]. unfold pow2. lia.
Qed.

Lemma mant_bounds : 0 <= (n - 2 ^ l) * 2 ^ (52 - l) < 2 ^ 52.
Proof.
  destruct log2_bounds as [Hl Hn2].
  rewrite Z.pow_add_r, Z.pow_1_r in Hn2 by lia.
  assert (0 < 2 ^ (52 - l)) by (apply Z.pow_pos_nonneg; lia).
  rewrite split_52. split; [nia|].
  apply Z.mul_lt_mono_pos_r; lia.
Qed.

Lemma of_int_exponent : exponent_of (of_int n) = l + 1023.
Proof.
  destruct log2_bounds as [Hl _]. pose proof mant_bounds.
  unfold exponent_of, pow2. rewrite of_int_eq.
  rewrite Z.div_add_l by lia. rewrite Z.div_small by lia.
  rewrite Z.mod_small; [lia|]. change (2 ^ 11) with 2048. lia.
Qed.

Lemma of_int_mantissa : mantissa_of (of_int n) = (n - 2 ^ l) * 2 ^ (52 - l).
Proof.
  pose proof mant_bounds.
  unfold mantissa_of, pow2. rewrite of_int_eq.
  rewrite Z.add_comm, Z.mod_add by lia. apply Z.mod_small. lia.
Qed.

Lemma of_int_range : 0 <= of_int n < 2 ^ 63.
Proof.
  destruct log2_bounds as [Hl _]. pose proof mant_bounds.
  rewrite of_int_eq. change (2 ^ 63) with (2048 * 2 ^ 52). nia.
Qed.

Lemma to_num_of_int_pos : to_num (of_int n) = JInt n.
Proof.
  destruct log2_bounds as [Hl Hn2].
  unfold to_num. unfold sign_of. rewrite testbit_63_small by apply of_int_range.
  rewrite of_int_exponent, of_int_mantissa.
  destruct (Z.eqb_spec (l + 1023) 2047); [lia|].
  destruct (Z.eqb_spec (l + 1023) 0); [lia|].
  replace (1 * (pow2 52 + (n - 2 ^ l) * 2 ^ (52 - l))) with (n * 2 ^ (52 - l))
    by (unfold pow2; rewrite split_52; lia).
  unfold classify, pow2.
  destruct (Z.leb_spec 0 (l + 1023 - 1075)).
  - assert (l = 52) as El by lia. rewrite El. f_equal.
    change (2 ^ (52 - 52)) with 1. change (2 ^ (52 + 1023 - 1075)) with 1. lia.
  - replace (- (l + 1023 - 1075)) with (52 - l) by lia.
    assert (0 < 2 ^ (52 - l)) by (apply Z.pow_pos_nonneg; lia).
    rewrite Z.mod_mul by lia. rewrite Z.eqb_refl.
    rewrite Z.div_mul by lia. reflexivity.
Qed.

Lemma of_int_not_nan : is_nan (of_int n) = false.
Proof.
  destruct log2_bounds as [Hl _].
  unfold is_nan. rewrite of_int_exponent.
  destruct (Z.eqb_spec (l + 1023) 2047); [lia|]. reflexivity.
Qed.
End OfInt.

Lemma to_num_of_int n : 0 <= n < 2 ^ 53 -> to_num (of_int n) = JInt n.
Proof.
  intros Hn. destruct (Z.eq_dec n 0) as [->|]; [reflexivity|].
  apply to_num_of_int_pos. lia.
Qed.

Lemma of_int_double n : 0 <= n < 2 ^ 53 -> 0 <= of_int n < 2 ^ 64.
Proof.
  intros Hn. destruct (Z.eq_dec n 0) as [->|]; [vm_compute; split; congruence|].
  pose proof (of_int_range n ltac:(lia)).
  change (2 ^ 64) with (2 * 2 ^ 63). lia.
Qed.

Lemma canon_of_int n : 0 <= n < 2 ^ 53 -> canon (of_int n) = of_int n.
Proof.
  intros Hn. unfold canon.
  destruct (Z.eq_dec n 0) as [->|]; [reflexivity|].
  rewrite of_int_not_nan by lia. reflexivity.
Qed.

Lemma js_add_int a b :
  Z.abs (a + b) < 2 ^ 53 -> js_add (JInt a) (JInt b) = JInt (a + b).
Proof.
  intros H. unfold js_add, dyadic, round_dyadic, pow2.
  change (Z.min 0 0) with 0. change (2 ^ (0 - 0)) with 1.
  rewrite !Z.mul_1_r.
  destruct (Z.ltb_spec (Z.abs (a + b)) (2 ^ 53)); [|lia].
  unfold classify, pow2. simpl. f_equal. lia.
Qed.

Lemma js_lt_int a b : js_lt (JInt a) (JInt b) = (a <? b).
Proof.
  unfold js_lt, dyadic, pow2. change (Z.min 0 0) with 0.
  change (2 ^ (0 - 0)) with 1. rewrite !Z.mul_1_r. reflexivity.
Qed.

(** Buffer reads *)
Lemma len_app a b : len (a ++ b) = len a + len b.
Proof. unfold len. rewrite length_app. lia. Qed.

Lemma len_nonneg a : 0 <= len a.
Proof. unfold len. lia. Qed.

Lemma len_cons b a : len (b :: a) = 1 + len a.
Proof. unfold len. simpl length. lia. Qed.

Lemma len_writeDoubleBE x : len (writeDoubleBE x) = 8.
Proof. unfold len, writeDoubleBE. rewrite be_encode_length. reflexivity. Qed.

Lemma readUInt8_at pre b rest :
  readUInt8 (pre ++ b :: rest) (JInt (len pre)) = Ret (Z_of_byte b).
Proof.
  unfold readUInt8, valid_offset. rewrite len_app, len_cons.
  pose proof (len_nonneg pre). pose proof (len_nonneg rest).
  destruct (Z.leb_spec 0 (len pre)); [|lia].
  destruct (Z.leb_spec (len pre + 1) (len pre + (1 + len rest))); [|lia].
  simpl. unfold len. rewrite Nat2Z.id.
  rewrite app_nth2 by lia. rewrite Nat.sub_diag. reflexivity.
Qed.

Lemma readUInt8_past data p : len data <= p -> readUInt8 data (JInt p) = Throw RangeError.
Proof.
  intros H. unfold readUInt8, valid_offset.
  destruct (Z.leb_spec (p + 1) (len data)); [lia|].
  rewrite andb_false_r. reflexivity.
Qed.

Lemma readDoubleBE_at pre w rest :
  length w = 8%nat ->
  readDoubleBE (pre ++ w ++ rest) (JInt (len pre)) = Ret (canon (be_decode w)).
Proof.
  intros Hw. unfold readDoubleBE, valid_offset.
  rewrite !len_app. assert (len w = 8) as -> by (unfold len; rewrite Hw; reflexivity).
  pose proof (len_nonneg pre). pose proof (len_nonneg rest).
  destruct (Z.leb_spec 0 (len pre)); [|lia].
  destruct (Z.leb_spec (len pre + 8) (len pre + (8 + len rest))); [|lia].
  cbn [andb]. unfold len. rewrite Nat2Z.id.
  rewrite drop_app_length.
  rewrite take_app_length' by (symmetry; assumption). reflexivity.
Qed.

Lemma be_decode_writeDoubleBE x :
  0 <= x < 2 ^ 64 -> be_decode (writeDoubleBE x) = x.
Proof.
  intros Hx. unfold writeDoubleBE. apply be_decode_encode.
  change (256 ^ Z.of_nat 8) with (2 ^ 64). lia.
Qed.

Lemma length_writeDoubleBE x : length (writeDoubleBE x) = 8%nat.
Proof. apply be_encode_length. Qed.

Lemma readDoubleBE_short data p :
  len data < p + 8 -> readDoubleBE data (JInt p) = Throw RangeError.
Proof.
  intros H. unfold readDoubleBE, valid_offset.
  destruct (Z.leb_spec (p + 8) (len data)); [lia|].
  rewrite andb_false_r. reflexivity.
Qed.

(** [slice] between two offsets that are integers, the second possibly past
    the end: the bytes that exist. *)
Lemma slice_at pre rest k :
  0 <= k ->
  slice (pre ++ rest) (JInt (len pre)) (JInt (len pre + k)) = take (Z.to_nat k) rest.
Proof.
  intros Hk. unfold slice, to_index. rewrite len_app.
  pose proof (len_nonneg pre). pose proof (len_nonneg rest).
  destruct (Z.ltb_spec (len pre) 0); [lia|].
  destruct (Z.ltb_spec (len pre + k) 0); [lia|].
  rewrite (Z.min_l (len pre)) by lia.
  replace (Z.to_nat (len pre)) with (length pre) by (unfold len; lia).
  rewrite drop_app_length.
  destruct (Z.le_ge_cases (len pre + k) (len pre + len rest)).
  - rewrite Z.min_l by lia. f_equal. lia.
  - rewrite Z.min_r by lia.
    replace (len pre + len rest - len pre) with (len rest) by lia.
    rewrite !take_ge; unfold len in *; try lia. reflexivity.
Qed.

Lemma tag_byte t : 0 <= t < 256 -> Z_of_byte (byte_of_Z t) = t.
Proof. apply Z_of_byte_of_Z. Qed.

Lemma len_nil : len [] = 0.
Proof. reflexivity. Qed.

Create Rewrite HintDb len.
#[global] Hint Rewrite len_app len_cons len_writeDoubleBE len_nil : len.

Ltac lens := unfold small in *; autorewrite with len in *;
  repeat match goal with
  | |- context [len ?l] =>
      lazymatch goal with
      | _ : 0 <= len l |- _ => fail
      | _ => pose proof (len_nonneg l)
      end
  | _ : context [len ?l] |- _ =>
      lazymatch goal with
      | _ : 0 <= len l |- _ => fail
      | _ => pose proof (len_nonneg l)
      end
  end.

Lemma len_8 w : length w = 8%nat -> len w = 8.
Proof. unfold len. intros ->. reflexivity. Qed.

(** ** The value codec *)

Section CodecProofs.
Context {obj : Type}.
Variable JSON_stringify : obj -> res (option jsstring).
Variable JSON_parse : jsstring -> option (@value obj).

Lemma deserialize_loop_S fuel data previous (result : list (@value obj)) :
  deserialize_loop JSON_parse (S fuel) data previous result =
  if js_lt previous (JInt (len data)) then
    match readUInt8 data previous with
    | Throw e => Some (Throw e)
    | Ret type =>
        let previous := js_add previous (JInt 1) in
        if type =? 0 then
          match readDoubleBE data previous with
          | Throw e => Some (Throw e)
          | Ret n =>
              deserialize_loop JSON_parse fuel data (js_add previous (JInt 8))
                (result ++ [VNumber n])
          end
        else if type =? 1 then
          match readDoubleBE data previous with
          | Throw e => Some (Throw e)
          | Ret length =>
              let previous := js_add previous (JInt 8) in
              let stop := js_add previous (to_num length) in
              let content := slice data previous stop in
              deserialize_loop JSON_parse fuel data stop
                (result ++ [VString (toString content)])
          end
        else if type =? 2 then
          match readUInt8 data previous with
          | Throw e => Some (Throw e)
          | Ret content =>
              deserialize_loop JSON_parse fuel data (js_add previous (JInt 1))
                (result ++ [VBoolean (content =? 1)])
          end
        else if type =? 4 then
          deserialize_loop JSON_parse fuel data previous (result ++ [VUndefined])
        else if type =? 3 then
          deserialize_loop JSON_parse fuel data previous (result ++ [VNull])
        else if type =? 6 then
          match readDoubleBE data previous with
          | Throw e => Some (Throw e)
          | Ret length =>
              let previous := js_add previous (JInt 8) in
              let stop := js_add previous (to_num length) in
              deserialize_loop JSON_parse fuel data stop
                (result ++ [VBuffer (slice data previous stop)])
          end
        else if type =? 5 then
          match readDoubleBE data previous with
          | Throw e => Some (Throw e)
          | Ret length =>
              let previous := js_add previous (JInt 8) in
              let stop := js_add previous (to_num length) in
              let content := slice data previous stop in
              match JSON_parse (toString content) with
              | None => Some (Throw SyntaxError)
              | Some v => deserialize_loop JSON_parse fuel data stop (result ++ [v])
              end
          end
        else Some (Throw (TypeNotExist type))
    end
  else Some (Ret result).
Proof. reflexivity. Qed.

Lemma enter_item pre tag rest :
  small (pre ++ tag :: rest) ->
  js_lt (JInt (len pre)) (JInt (len (pre ++ tag :: rest))) = true /\
  readUInt8 (pre ++ tag :: rest) (JInt (len pre)) = Ret (Z_of_byte tag) /\
  js_add (JInt (len pre)) (JInt 1) = JInt (len (pre ++ [tag])).
Proof.
  unfold small. rewrite !len_app, !len_cons. intros Hs.
  pose proof (len_nonneg pre). pose proof (len_nonneg rest).
  change (len []) with 0.
  rewrite js_lt_int, readUInt8_at, js_add_int by lia.
  split; [apply Z.ltb_lt; lia | split; [reflexivity | f_equal; lia]].
Qed.

Ltac enter Hs Ht :=
  rewrite deserialize_loop_S;
  let Hlt := fresh in let Hrd := fresh in let Hadd := fresh in
  destruct (enter_item _ _ _ Hs) as (Hlt & Hrd & Hadd);
  rewrite Hlt, Hrd; cbv zeta; rewrite Hadd; clear Hlt Hrd Hadd;
  rewrite Ht; cbn [Z.eqb Pos.eqb].

Lemma step_number fuel pre t w rest (result : list (@value obj)) :
  Z_of_byte t = 0 -> length w = 8%nat ->
  small (pre ++ t :: w ++ rest) ->
  deserialize_loop JSON_parse (S fuel) (pre ++ t :: w ++ rest) (JInt (len pre)) result =
  deserialize_loop JSON_parse fuel (pre ++ t :: w ++ rest)
    (JInt (len (pre ++ t :: w))) (result ++ [VNumber (canon (be_decode w))]).
Proof.
  intros Ht Hw Hs. enter Hs Ht. apply len_8 in Hw as Hw'.
  assert (pre ++ t :: w ++ rest = (pre ++ [t]) ++ w ++ rest) as E1
    by (rewrite <- app_assoc; reflexivity).
  rewrite E1 at 1. rewrite readDoubleBE_at by assumption.
  rewrite js_add_int by (lens; lia).
  replace (len (pre ++ [t]) + 8) with (len (pre ++ t :: w)) by (lens; lia).
  reflexivity.
Qed.

(** A length-prefixed item whose declared length is the integer [k]: the
    next offset is [k] further, whether or not that many bytes remain, and
    the content is what [slice] finds. *)
Lemma read_length pre t w rest k :
  length w = 8%nat -> to_num (canon (be_decode w)) = JInt k -> 0 <= k ->
  small (pre ++ t :: w ++ rest) ->
  len (pre ++ t :: w) + k < 2 ^ 53 ->
  readDoubleBE (pre ++ t :: w ++ rest) (JInt (len (pre ++ [t]))) =
    Ret (canon (be_decode w)) /\
  js_add (js_add (JInt (len (pre ++ [t]))) (JInt 8)) (to_num (canon (be_decode w))) =
    JInt (len (pre ++ t :: w) + k) /\
  slice (pre ++ t :: w ++ rest) (js_add (JInt (len (pre ++ [t]))) (JInt 8))
      (JInt (len (pre ++ t :: w) + k)) =
    take (Z.to_nat k) rest.
Proof.
  intros Hw Hk Hk0 Hs Hs2. apply len_8 in Hw as Hw'.
  assert (pre ++ t :: w ++ rest = (pre ++ [t]) ++ w ++ rest) as E1
    by (rewrite <- app_assoc; reflexivity).
  assert (pre ++ t :: w ++ rest = ((pre ++ [t]) ++ w) ++ rest) as E2
    by (rewrite <- !app_assoc; reflexivity).
  assert (len (pre ++ t :: w) = len (pre ++ [t]) + 8) as E3 by (lens; lia).
  rewrite Hk, E3. rewrite !js_add_int by (lens; lia).
  split; [rewrite E1; apply readDoubleBE_at; assumption|].
  split; [reflexivity|].
  rewrite E2.
  replace (len (pre ++ [t]) + 8) with (len ((pre ++ [t]) ++ w)) by (lens; lia).
  apply slice_at. lia.
Qed.

Lemma step_string fuel pre t w rest k (result : list (@value obj)) :
  Z_of_byte t = 1 ->
  length w = 8%nat -> to_num (canon (be_decode w)) = JInt k -> 0 <= k ->
  small (pre ++ t :: w ++ rest) ->
  len (pre ++ t :: w) + k < 2 ^ 53 ->
  deserialize_loop JSON_parse (S fuel) (pre ++ t :: w ++ rest) (JInt (len pre)) result =
  deserialize_loop JSON_parse fuel (pre ++ t :: w ++ rest)
    (JInt (len (pre ++ t :: w) + k))
    (result ++ [VString (toString (take (Z.to_nat k) rest))]).
Proof.
  intros Ht Hw Hk Hk0 Hs Hs2.
  destruct (read_length pre t w rest k Hw Hk Hk0 Hs Hs2) as (Hr & Ha & Hsl).
  enter Hs Ht.
  rewrite Hr. cbv zeta. rewrite Ha, Hsl. reflexivity.
Qed.

Lemma step_buffer fuel pre t w rest k (result : list (@value obj)) :
  Z_of_byte t = 6 ->
  length w = 8%nat -> to_num (canon (be_decode w)) = JInt k -> 0 <= k ->
  small (pre ++ t :: w ++ rest) ->
  len (pre ++ t :: w) + k < 2 ^ 53 ->
  deserialize_loop JSON_parse (S fuel) (pre ++ t :: w ++ rest) (JInt (len pre)) result =
  deserialize_loop JSON_parse fuel (pre ++ t :: w ++ rest)
    (JInt (len (pre ++ t :: w) + k))
    (result ++ [VBuffer (take (Z.to_nat k) rest)]).
Proof.
  intros Ht Hw Hk Hk0 Hs Hs2.
  destruct (read_length pre t w rest k Hw Hk Hk0 Hs Hs2) as (Hr & Ha & Hsl).
  enter Hs Ht.
  rewrite Hr. cbv zeta. rewrite Ha, Hsl. reflexivity.
Qed.

Lemma step_object fuel pre t w rest k (result : list (@value obj)) :
  Z_of_byte t = 5 ->
  length w = 8%nat -> to_num (canon (be_decode w)) = JInt k -> 0 <= k ->
  small (pre ++ t :: w ++ rest) ->
  len (pre ++ t :: w) + k < 2 ^ 53 ->
  deserialize_loop JSON_parse (S fuel) (pre ++ t :: w ++ rest) (JInt (len pre)) result =
  match JSON_parse (toString (take (Z.to_nat k) rest)) with
  | None => Some (Throw SyntaxError)
  | Some v =>
      deserialize_loop JSON_parse fuel (pre ++ t :: w ++ rest)
        (JInt (len (pre ++ t :: w) + k)) (result ++ [v])
  end.
Proof.
  intros Ht Hw Hk Hk0 Hs Hs2.
  destruct (read_length pre t w rest k Hw Hk Hk0 Hs Hs2) as (Hr & Ha & Hsl).
  enter Hs Ht.
  rewrite Hr. cbv zeta. rewrite Ha, Hsl. reflexivity.
Qed.

(** The 8 bytes after the tag of a number or of a length are not all there. *)
Lemma step_short fuel pre t rest (result : list (@value obj)) :
  Z_of_byte t = 0 \/ Z_of_byte t = 1 \/ Z_of_byte t = 5 \/ Z_of_byte t = 6 ->
  len rest < 8 ->
  small (pre ++ t :: rest) ->
  deserialize_loop JSON_parse (S fuel) (pre ++ t :: rest) (JInt (len pre)) result =
  Some (Throw RangeError).
Proof.
  intros Ht Hr Hs.
  assert (readDoubleBE (pre ++ t :: rest) (JInt (len (pre ++ [t]))) = Throw RangeError)
    as E by (apply readDoubleBE_short; lens; lia).
  destruct Ht as [Ht|[Ht|[Ht|Ht]]]; enter Hs Ht; rewrite E; reflexivity.
Qed.

Lemma step_boolean fuel pre t b rest (result : list (@value obj)) :
  Z_of_byte t = 2 ->
  small (pre ++ t :: b :: rest) ->
  deserialize_loop JSON_parse (S fuel) (pre ++ t :: b :: rest) (JInt (len pre)) result =
  deserialize_loop JSON_parse fuel (pre ++ t :: b :: rest) (JInt (len (pre ++ [t; b])))
    (result ++ [VBoolean (Z_of_byte b =? 1)]).
Proof.
  intros Ht Hs. enter Hs Ht.
  assert (pre ++ t :: b :: rest = (pre ++ [t]) ++ b :: rest) as E1
    by (rewrite <- app_assoc; reflexivity).
  rewrite E1 at 1. rewrite readUInt8_at.
  rewrite js_add_int by (lens; lia).
  replace (len (pre ++ [t]) + 1) with (len (pre ++ [t; b])) by (lens; lia).
  reflexivity.
Qed.

Lemma step_boolean_short fuel pre t (result : list (@value obj)) :
  Z_of_byte t = 2 ->
  small (pre ++ [t]) ->
  deserialize_loop JSON_parse (S fuel) (pre ++ [t]) (JInt (len pre)) result =
  Some (Throw RangeError).
Proof.
  intros Ht Hs. enter Hs Ht.
  rewrite readUInt8_past by lia. reflexivity.
Qed.

Lemma step_null fuel pre t rest (result : list (@value obj)) :
  Z_of_byte t = 3 ->
  small (pre ++ t :: rest) ->
  deserialize_loop JSON_parse (S fuel) (pre ++ t :: rest) (JInt (len pre)) result =
  deserialize_loop JSON_parse fuel (pre ++ t :: rest) (JInt (len (pre ++ [t])))
    (result ++ [VNull]).
Proof. intros Ht Hs. enter Hs Ht. reflexivity. Qed.

Lemma step_undefined fuel pre t rest (result : list (@value obj)) :
  Z_of_byte t = 4 ->
  small (pre ++ t :: rest) ->
  deserialize_loop JSON_parse (S fuel) (pre ++ t :: rest) (JInt (len pre)) result =
  deserialize_loop JSON_parse fuel (pre ++ t :: rest) (JInt (len (pre ++ [t])))
    (result ++ [VUndefined]).
Proof. intros Ht Hs. enter Hs Ht. reflexivity. Qed.

Lemma step_unknown fuel pre t rest (result : list (@value obj)) :
  small (pre ++ t :: rest) -> 6 < Z_of_byte t ->
  deserialize_loop JSON_parse (S fuel) (pre ++ t :: rest) (JInt (len pre)) result =
  Some (Throw (TypeNotExist (Z_of_byte t))).
Proof.
  intros Hs Ht.
  rewrite deserialize_loop_S.
  destruct (enter_item _ _ _ Hs) as (Hlt & Hrd & Hadd).
  rewrite Hlt, Hrd. cbv zeta.
  repeat match goal with
  | |- context [Z_of_byte t =? ?c] => destruct (Z.eqb_spec (Z_of_byte t) c); [lia|]
  end.
  reflexivity.
Qed.

Lemma loop_end fuel data (result : list (@value obj)) :
  deserialize_loop JSON_parse (S fuel) data (JInt (len data)) result = Some (Ret result).
Proof.
  rewrite deserialize_loop_S, js_lt_int, Z.ltb_irrefl. reflexivity.
Qed.

Lemma loop_past fuel data p (result : list (@value obj)) :
  len data <= p ->
  deserialize_loop JSON_parse (S fuel) data (JInt p) result = Some (Ret result).
Proof.
  intros H. rewrite deserialize_loop_S, js_lt_int.
  destruct (Z.ltb_spec p (len data)); [lia|]. reflexivity.
Qed.

(** *** Round trip *)

Lemma take_len_app (content rest : list byte) :
  take (Z.to_nat (len content)) (content ++ rest) = content.
Proof. unfold len. rewrite Nat2Z.id. apply take_app_length. Qed.

Lemma length_prefix_ok (content : list byte) :
  len content < 2 ^ 53 ->
  length (writeDoubleBE (of_int (len content))) = 8%nat /\
  to_num (canon (be_decode (writeDoubleBE (of_int (len content))))) = JInt (len content).
Proof.
  intros H. pose proof (len_nonneg content).
  split; [apply length_writeDoubleBE|].
  rewrite be_decode_writeDoubleBE by (apply of_int_double; lia).
  rewrite canon_of_int, to_num_of_int by lia. reflexivity.
Qed.


Opaque writeDoubleBE Buffer_from.

Lemma step_item fuel item bytes pre rest (result : list (@value obj)) :
  plain item -> serialize_item JSON_stringify item = Ret bytes ->
  small (pre ++ bytes ++ rest) ->
  deserialize_loop JSON_parse (S fuel) (pre ++ bytes ++ rest) (JInt (len pre)) result =
  deserialize_loop JSON_parse fuel (pre ++ bytes ++ rest) (JInt (len (pre ++ bytes)))
    (result ++ [transported item]).
Proof.
  intros Hp Hser Hs.
  destruct item as [n|s|b| | |content|o|]; cbn in Hp; try contradiction;
    cbn [serialize_item] in Hser; injection Hser as <-; unfold writeUInt8 in *;
    repeat rewrite <- app_comm_cons in *; rewrite <- ?app_assoc in *;
    rewrite ?app_nil_l in *.
  - destruct Hp as [Hn Hc].
    rewrite step_number;
      [|apply tag_byte; lia|apply length_writeDoubleBE|assumption].
    rewrite be_decode_writeDoubleBE, Hc by assumption. reflexivity.
  - set (content := Buffer_from s) in *.
    assert (len content < 2 ^ 53) as Hl by (lens; lia).
    destruct (length_prefix_ok _ Hl) as [HL Hk].
    rewrite (step_string _ _ _ _ _ (len content)); try assumption;
      [|apply tag_byte; lia|apply len_nonneg|lens; lia].
    rewrite take_len_app. subst content. cbn [transported].
    f_equal. f_equal. lens. lia.
  - rewrite step_boolean; [|apply tag_byte; lia|assumption].
    rewrite tag_byte by (destruct b; lia). destruct b; reflexivity.
  - apply step_null; [apply tag_byte; lia|assumption].
  - apply step_undefined; [apply tag_byte; lia|assumption].
  - assert (len content < 2 ^ 53) as Hl by (lens; lia).
    destruct (length_prefix_ok _ Hl) as [HL Hk].
    rewrite (step_buffer _ _ _ _ _ (len content)); try assumption;
      [|apply tag_byte; lia|apply len_nonneg|lens; lia].
    rewrite take_len_app.
    f_equal. f_equal. lens. lia.
Qed.

Transparent writeDoubleBE Buffer_from.

Lemma serialize_item_plain item :
  plain item -> exists bytes, serialize_item JSON_stringify item = Ret bytes.
Proof. destruct item; cbn; intros H; try contradiction; eauto. Qed.

Lemma serialize_cons item rest bytes :
  serialize JSON_stringify (item :: rest) = Ret bytes ->
  exists b1 b2, serialize_item JSON_stringify item = Ret b1 /\
                serialize JSON_stringify rest = Ret b2 /\ bytes = b1 ++ b2.
Proof.
  cbn [serialize]. destruct (serialize_item _ item) as [b1|]; cbn [bind]; [|discriminate].
  destruct (serialize _ rest) as [b2|]; cbn [bind]; [|discriminate].
  intros [= <-]. eauto.
Qed.

Lemma serialize_plain v :
  Forall plain v -> exists bytes, serialize JSON_stringify v = Ret bytes.
Proof.
  induction 1 as [|item rest Hi _ [b2 IH]]; [eexists; reflexivity|].
  destruct (serialize_item_plain _ Hi) as [b1 H1].
  exists (b1 ++ b2). cbn [serialize]. rewrite H1, IH. reflexivity.
Qed.

(** Decoding runs through what [serialize] wrote, one item per turn of the
    loop, wherever in a buffer it stands. *)
Lemma loop_serialize v : forall bytes,
  Forall plain v -> serialize JSON_stringify v = Ret bytes ->
  forall fuel pre rest result,
  small (pre ++ bytes ++ rest) ->
  deserialize_loop JSON_parse (length v + fuel) (pre ++ bytes ++ rest)
    (JInt (len pre)) result =
  deserialize_loop JSON_parse fuel (pre ++ bytes ++ rest)
    (JInt (len (pre ++ bytes))) (result ++ map transported v).
Proof.
  induction v as [|item v IH]; intros bytes Hp Hser fuel pre rest result Hs.
  - injection Hser as <-. cbn [map]. rewrite !app_nil_r. reflexivity.
  - apply serialize_cons in Hser as (b1 & b2 & H1 & H2 & ->).
    inversion Hp as [|? ? Hi Hv]; subst.
    cbn [length Nat.add].
    rewrite <- (app_assoc b1 b2 rest) in *.
    rewrite (step_item _ item b1) by assumption.
    rewrite (app_assoc pre b1 (b2 ++ rest)) in *.
    rewrite (IH b2 Hv H2) by assumption.
    rewrite <- !app_assoc. cbn [map].
    rewrite (cons_middle (transported item) result (map transported v)). reflexivity.
Qed.

Lemma transported_well_formed (v : list (@value obj)) :
  Forall well_formed_value v -> map transported v = v.
Proof.
  induction 1 as [|item v Hi _ IH]; [reflexivity|].
  cbn [map]. rewrite IH. f_equal.
  destruct item; try reflexivity. cbn in *. rewrite toString_Buffer_from by assumption.
  reflexivity.
Qed.

Lemma push_Some v (o : option (res (list (@value obj)))) r :
  push v o = Some r ->
  exists r', o = Some r' /\ forall acc, prepend acc r = prepend (acc ++ [v]) r'.
Proof.
  destruct o as [[vs|e]|]; cbn; intros [= <-]; eexists; split; try reflexivity;
    intros acc; cbn; rewrite <- ?app_assoc; reflexivity.
Qed.

Lemma declared_Some w k :
  declared w = Some k -> to_num (canon (be_decode w)) = JInt k /\ 0 <= k < 2 ^ 52.
Proof.
  unfold declared. destruct (to_num _) as [z| | |]; try discriminate.
  destruct (Z.leb_spec 0 z), (Z.ltb_spec z (2 ^ 52)); cbn; try discriminate.
  intros [= <-]. split; [reflexivity|lia].
Qed.

Lemma split_8 (r : list byte) :
  8 <= len r -> r = take 8 r ++ drop 8 r /\ length (take 8 r) = 8%nat.
Proof.
  unfold len. intros H. split; [symmetry; apply take_drop|].
  rewrite length_take. lia.
Qed.

Lemma len_take k (l : list byte) :
  0 <= k <= len l -> len (take (Z.to_nat k) l) = k.
Proof. unfold len. intros H. rewrite length_take. lia. Qed.

Lemma scan_loop n : forall rest pre acc fuel r,
  (length rest <= n)%nat -> (n < fuel)%nat ->
  len (pre ++ rest) < 2 ^ 52 ->
  scan JSON_parse n rest = Some r ->
  deserialize_loop JSON_parse fuel (pre ++ rest) (JInt (len pre)) acc =
    Some (prepend acc r).
Proof.
  induction n as [|n IH]; intros rest pre acc fuel r Hn Hf Hs Hsc.
  - destruct rest; [|simpl in Hn; lia]. destruct fuel as [|fuel]; [lia|].
    injection Hsc as <-. rewrite app_nil_r, loop_end. cbn. rewrite app_nil_r. reflexivity.
  - destruct rest as [|t rest].
    { destruct fuel as [|fuel]; [lia|].
      injection Hsc as <-. rewrite app_nil_r, loop_end. cbn. rewrite app_nil_r. reflexivity. }
    destruct fuel as [|fuel]; [lia|].
    assert (small (pre ++ t :: rest)) as Hsm by (unfold small; lia).
    cbn [scan] in Hsc. cbv zeta in Hsc. simpl length in Hn.
    destruct (Z.eqb_spec (Z_of_byte t) 0) as [T0|T0].
    { (* number *)
      destruct (Z.ltb_spec (len rest) 8) as [Hr|Hr].
      - injection Hsc as <-. apply step_short; auto.
      - destruct (split_8 rest Hr) as [E Hw].
        apply push_Some in Hsc as (r' & Hsc & Hpre). rewrite Hpre.
        rewrite E at 1. rewrite step_number by (rewrite <- ?E; auto).
        rewrite <- E.
        specialize (IH (drop 8 rest) (pre ++ t :: take 8 rest) (acc ++ [VNumber (canon (be_decode (take 8 rest)))]) fuel r').
        rewrite <- app_assoc, <- app_comm_cons, <- E in IH.
        apply IH; auto; try lia. rewrite length_drop. lia. }
    destruct (Z.eqb_spec (Z_of_byte t) 2) as [T2|T2].
    { destruct rest as [|b rest].
      - injection Hsc as <-. apply step_boolean_short; auto.
      - apply push_Some in Hsc as (r' & Hsc & Hpre). rewrite Hpre.
        rewrite step_boolean by auto.
        specialize (IH rest (pre ++ [t; b]) (acc ++ [VBoolean (Z_of_byte b =? 1)]) fuel r').
        rewrite <- app_assoc in IH. apply IH; auto; simpl in *; lia. }
    destruct (Z.eqb_spec (Z_of_byte t) 3) as [T3|T3].
    { apply push_Some in Hsc as (r' & Hsc & Hpre). rewrite Hpre.
      rewrite step_null by auto.
      specialize (IH rest (pre ++ [t]) (acc ++ [VNull]) fuel r').
      rewrite <- app_assoc in IH. apply IH; auto; simpl in *; lia. }
    destruct (Z.eqb_spec (Z_of_byte t) 4) as [T4|T4].
    { apply push_Some in Hsc as (r' & Hsc & Hpre). rewrite Hpre.
      rewrite step_undefined by auto.
      specialize (IH rest (pre ++ [t]) (acc ++ [VUndefined]) fuel r').
      rewrite <- app_assoc in IH. apply IH; auto; simpl in *; lia. }
    destruct ((Z_of_byte t =? 1) || (Z_of_byte t =? 5) || (Z_of_byte t =? 6)) eqn:T156.
    2:{ injection Hsc as <-. apply step_unknown; auto.
        pose proof (Z_of_byte_range t).
        apply orb_false_elim in T156 as [T15 T6].
        apply orb_false_elim in T15 as [T1 T5].
        apply Z.eqb_neq in T1, T5, T6. lia. }
    destruct (Z.ltb_spec (len rest) 8) as [Hr|Hr].
    { injection Hsc as <-. apply step_short; auto.
      apply orb_prop in T156 as [T15|T6]; [apply orb_prop in T15 as [T1|T5]|];
        apply Z.eqb_eq in T1 || apply Z.eqb_eq in T5 || apply Z.eqb_eq in T6; auto. }
    destruct (split_8 rest Hr) as [E Hw].
    destruct (declared (take 8 rest)) as [k|] eqn:Hd; [|discriminate].
    apply declared_Some in Hd as [Hk Hk0].
    set (w := take 8 rest) in *. set (rest2 := drop 8 rest) in *.
    assert (len (pre ++ t :: w) + k < 2 ^ 53) as Hs2.
    { rewrite len_app, len_cons, (len_8 w Hw). rewrite len_app, len_cons in Hs.
      pose proof (len_nonneg pre).
      change (2 ^ 53) with (2 ^ 52 + 2 ^ 52). lia. }
    assert (small (pre ++ t :: w ++ rest2)) as Hsm2 by (rewrite <- E; auto).
    (* where the loop goes on after the item *)
    assert (forall acc' r',
      scan JSON_parse n (drop (Z.to_nat k) rest2) = Some r' ->
      deserialize_loop JSON_parse fuel (pre ++ t :: w ++ rest2)
        (JInt (len (pre ++ t :: w) + k)) acc' = Some (prepend acc' r')) as Hnext.
    { intros acc' r' Hsc'.
      destruct (Z.le_gt_cases k (len rest2)) as [Hle|Hgt].
      - assert (len (pre ++ t :: w) + k = len (pre ++ t :: w ++ take (Z.to_nat k) rest2)) as ->.
        { rewrite !len_app, !len_cons, len_app, len_take by lia. lia. }
        assert (pre ++ t :: w ++ rest2 =
                (pre ++ t :: w ++ take (Z.to_nat k) rest2) ++ drop (Z.to_nat k) rest2) as E'.
        { rewrite <- app_assoc, <- app_comm_cons, <- app_assoc, take_drop. reflexivity. }
        rewrite E'. apply IH; auto; try lia.
        + subst rest2. rewrite !length_drop. lia.
        + rewrite <- E', <- E. assumption.
      - rewrite drop_ge in Hsc' by (unfold len in Hgt; lia).
        destruct n; injection Hsc' as <-;
          (destruct fuel as [|fuel]; [lia|]);
          rewrite loop_past by (rewrite !len_app, !len_cons, len_app; lia);
          cbn; rewrite app_nil_r; reflexivity. }
    rewrite E at 1.
    destruct (Z.eqb_spec (Z_of_byte t) 1) as [T1|T1].
    { apply push_Some in Hsc as (r' & Hsc & Hpre). rewrite Hpre.
      rewrite (step_string _ _ _ _ _ k) by (auto; lia).
      apply Hnext; assumption. }
    destruct (Z.eqb_spec (Z_of_byte t) 6) as [T6|T6].
    { apply push_Some in Hsc as (r' & Hsc & Hpre). rewrite Hpre.
      rewrite (step_buffer _ _ _ _ _ k) by (auto; lia).
      apply Hnext; assumption. }
    assert (Z_of_byte t = 5) as T5.
    { destruct (Z.eqb_spec (Z_of_byte t) 5) as [T5|T5]; [assumption|].
      cbn in T156. discriminate. }
    rewrite (step_object _ _ _ _ _ k) by (auto; lia).
    fold rest2. destruct (JSON_parse _) as [v|]; [|injection Hsc as <-; reflexivity].
    apply push_Some in Hsc as (r' & Hsc & Hpre). rewrite Hpre.
    apply Hnext; assumption.
Qed.

(** More fuel does not change a result. *)
Lemma loop_fuel_mono fuel : forall data previous (result : list (@value obj)) r,
  deserialize_loop JSON_parse fuel data previous result = Some r ->
  forall fuel', (fuel <= fuel')%nat ->
  deserialize_loop JSON_parse fuel' data previous result = Some r.
Proof.
  induction fuel as [|fuel IH]; intros data previous result r H fuel' Hf;
    [discriminate|].
  destruct fuel' as [|fuel']; [lia|].
  assert (fuel <= fuel')%nat as Hf' by lia.
  rewrite deserialize_loop_S in H. rewrite deserialize_loop_S.
  destruct (js_lt previous (JInt (len data))); [|assumption].
  destruct (readUInt8 data previous) as [type|]; [|assumption].
  cbv zeta in *.
  set (p1 := js_add previous (JInt 1)) in *. clearbody p1.
  destruct (type =? 0).
  { destruct (readDoubleBE data p1); [eapply IH; eassumption|assumption]. }
  destruct (type =? 1).
  { destruct (readDoubleBE data p1); [eapply IH; eassumption|assumption]. }
  destruct (type =? 2).
  { destruct (readUInt8 data p1); [eapply IH; eassumption|assumption]. }
  destruct (type =? 4); [eapply IH; eassumption|].
  destruct (type =? 3); [eapply IH; eassumption|].
  destruct (type =? 6).
  { destruct (readDoubleBE data p1); [eapply IH; eassumption|assumption]. }
  destruct (type =? 5); [|assumption].
  destruct (readDoubleBE data p1); [|assumption].
  destruct (JSON_parse _); [eapply IH; eassumption|assumption].
Qed.

Lemma deserialize_fuel_mono fuel fuel' data (r : res (list (@value obj))) :
  deserialize JSON_parse fuel data = Some r -> (fuel <= fuel')%nat ->
  deserialize JSON_parse fuel' data = Some r.
Proof. intros H Hf. eapply loop_fuel_mono; eassumption. Qed.

(** What [deserialize] returns from the bytes [serialize] wrote for a
    sequence of Number, String, Boolean, Null, Undefined and Binary values:
    the same values, the strings as UTF-8 gives them back. *)
Lemma deserialize_transported (v : list (@value obj)) bytes fuel :
  Forall plain v -> serialize JSON_stringify v = Ret bytes -> small bytes ->
  (length v < fuel)%nat ->
  deserialize JSON_parse fuel bytes = Some (Ret (map transported v)).
Proof.
  intros Hp Hser Hs Hf.
  destruct (Nat.lt_exists_pred _ _ Hf) as (k & -> & Hk).
  replace (S k) with (length v + S (k - length v))%nat by lia.
  unfold deserialize.
  pose proof (loop_serialize v bytes Hp Hser (S (k - length v)) [] [] []) as H.
  rewrite !app_nil_r in H. cbn [app] in H.
  change (len []) with 0 in H. rewrite H by assumption.
  apply loop_end.
Qed.

(** C2, as the code has it.  A sequence [v] of Number, String, Boolean,
    Null, Undefined and Binary values whose strings are well formed (every
    surrogate is half of a pair) survives the round trip: [serialize]
    accepts it, and [deserialize], given one turn of fuel per value and one
    to stop, returns exactly [v] from the bytes written. *)
Theorem deserialize_serialize (v : list (@value obj)) :
  Forall plain v -> Forall well_formed_value v ->
  (exists bytes, serialize JSON_stringify v = Ret bytes) /\
  forall bytes fuel,
    serialize JSON_stringify v = Ret bytes -> small bytes ->
    (length v < fuel)%nat ->
    deserialize JSON_parse fuel bytes = Some (Ret v).
Proof.
  intros Hp Hwf. split; [apply serialize_plain; assumption|].
  intros bytes fuel Hser Hs Hf.
  rewrite (deserialize_transported v bytes fuel Hp Hser Hs Hf).
  rewrite transported_well_formed by assumption. reflexivity.
Qed.

(** C1, as the code has it.  On every buffer shorter than 2^52 bytes whose
    length fields hold integers in [0, 2^52), [deserialize] ends, and with
    the result of [scan]: it throws exactly where [scan] fails, that is on a
    tag byte above 6, on a number, a length or a boolean cut short by the
    end of the buffer, and on text under tag 5 that does not parse; a
    declared length that runs past the end of the buffer is not an error,
    the content is cut at the end. *)
Theorem deserialize_scan (data : list byte) (r : res (list (@value obj))) (fuel : nat) :
  len data < 2 ^ 52 ->
  scan JSON_parse (length data) data = Some r ->
  (length data < fuel)%nat ->
  deserialize JSON_parse fuel data = Some r.
Proof.
  intros Hs Hsc Hf. unfold deserialize.
  pose proof (scan_loop (length data) data [] [] fuel r (le_n _) Hf Hs Hsc) as H.
  cbn [app] in H. change (len []) with 0 in H. rewrite H.
  destruct r; reflexivity.
Qed.

End CodecProofs.

(** C2 at [["hi", 42, true, null, undefined, <01 02>]]. *)
Lemma deserialize_serialize_witness :
  let v : list (@value unit) :=
    [VString (str "hi"); VNumber (of_int 42); VBoolean true; VNull; VUndefined;
     VBuffer [x01; x02]] in
  exists bytes, serialize toy_stringify v = Ret bytes /\
                deserialize toy_parse 7 bytes = Some (Ret v).
Proof.
  intros v.
  assert (Forall plain v) as Hp.
  { repeat constructor. vm_compute; intuition congruence. }
  assert (Forall well_formed_value v) as Hwf.
  { repeat constructor. }
  destruct (deserialize_serialize toy_stringify toy_parse v Hp Hwf) as [[bytes Hb] H].
  exists bytes. split; [exact Hb|].
  apply H; [exact Hb| |simpl; lia].
  vm_compute in Hb. injection Hb as <-. vm_compute. reflexivity.
Defined.

(** A string that is one surrogate without its partner, ["\ud800"], comes
    back as ["\ufffd"]: the claim as stated fails there. *)
Lemma deserialize_serialize_lone_surrogate :
  let v : list (@value unit) := [VString [Char16 xd8 x00]] in
  let bytes := [x01] ++ writeDoubleBE (of_int 3) ++ [xef; xbf; xbd] in
  Forall plain v /\
  serialize toy_stringify v = Ret bytes /\
  deserialize toy_parse 2 bytes = Some (Ret [VString [Char16 xff xfd]]) /\
  forall fuel, deserialize toy_parse fuel bytes <> Some (Ret v).
Proof.
  intros v bytes.
  split; [repeat constructor|].
  split; [vm_compute; reflexivity|].
  split; [vm_compute; reflexivity|].
  intros [|[|fuel]]; [discriminate|vm_compute; discriminate|].
  intros H.
  assert (deserialize toy_parse (S (S fuel)) bytes
          = Some (Ret [VString [Char16 xff xfd]])) as E.
  { apply (deserialize_fuel_mono toy_parse 2); [vm_compute; reflexivity|lia]. }
  rewrite E in H.
  apply (f_equal (fun r => match r with
                           | Some (Ret [VString [u]]) => Z_of_byte (hi u)
                           | _ => 0
                           end)) in H.
  vm_compute in H. discriminate H.
Qed.

(** C1 at the truncated buffer of the scenario: tag 1, a length field of
    100, five bytes. *)
Lemma deserialize_scan_witness :
  deserialize toy_parse 15
    (x01 :: writeDoubleBE (of_int 100) ++ Buffer_from (str "hello")) =
  Some (Ret [VString (str "hello")]).
Proof.
  apply deserialize_scan; [vm_compute; reflexivity|vm_compute; reflexivity|simpl; lia].
Defined.

(** The buffer of the scenario is decoded without an error: the claim as
    stated fails there. *)
Lemma deserialize_truncated_no_error :
  let data := x01 :: writeDoubleBE (of_int 100) ++ Buffer_from (str "hello") in
  to_num (of_int 100) = JInt 100 /\
  len (Buffer_from (str "hello")) = 5 /\
  deserialize toy_parse 2 data = Some (Ret [VString (str "hello")]) /\
  forall fuel e, deserialize toy_parse fuel data <> Some (Throw e).
Proof.
  intros data.
  split; [vm_compute; reflexivity|].
  split; [vm_compute; reflexivity|].
  split; [vm_compute; reflexivity|].
  intros [|[|fuel]] e; [discriminate|vm_compute; discriminate|].
  intros H. subst data.
  assert (deserialize toy_parse (S (S fuel))
            (x01 :: writeDoubleBE (of_int 100) ++ Buffer_from (str "hello"))
          = Some (Ret [VString (str "hello")])) as E.
  { apply (deserialize_fuel_mono toy_parse 2); [vm_compute; reflexivity|lia]. }
  congruence.
Qed.


(** ** The header codec *)

Lemma readDoubleBE_in data pre w rest p :
  data = pre ++ w ++ rest -> len pre = p -> length w = 8%nat ->
  readDoubleBE data (JInt p) = Ret (canon (be_decode w)).
Proof. intros -> <- Hw. apply readDoubleBE_at. assumption. Qed.

Lemma readUInt8_in data pre b rest p :
  data = pre ++ b :: rest -> len pre = p ->
  readUInt8 data (JInt p) = Ret (Z_of_byte b).
Proof. intros -> <-. apply readUInt8_at. Qed.

Lemma slice_in data pre content rest p q :
  data = pre ++ content ++ rest -> len pre = p -> q = p + len content ->
  slice data (JInt p) (JInt q) = content.
Proof.
  intros -> <- ->. rewrite slice_at by apply len_nonneg. apply take_len_app.
Qed.

Lemma slice_from_in data pre rest p :
  data = pre ++ rest -> len pre = p -> slice_from data (JInt p) = rest.
Proof.
  intros -> <-. unfold slice_from. rewrite len_app.
  rewrite slice_at by apply len_nonneg.
  unfold len. rewrite Nat2Z.id. apply firstn_all.
Qed.

Lemma Buffer_concat_exact (l : list (list byte)) n :
  n = len (concat l) -> Buffer_concat_to l n = concat l.
Proof.
  intros ->. unfold Buffer_concat_to, len. rewrite Nat2Z.id.
  apply take_app_length.
Qed.

Lemma flag_byte b : (Z_of_byte (byte_of_Z (flag b)) =? 1) = b.
Proof. destruct b; reflexivity. Qed.

Lemma _serializeHeader_bytes isInternal messageName needACK messageID :
  _serializeHeader isInternal messageName needACK messageID =
  writeDoubleBE (of_int (26 + len (Buffer_from messageName)))
  ++ byte_of_Z (flag isInternal)
  :: writeDoubleBE (of_int (len (Buffer_from messageName)))
  ++ Buffer_from messageName
  ++ byte_of_Z (flag needACK) :: writeDoubleBE messageID.
Proof.
  unfold _serializeHeader. cbv zeta. unfold writeUInt8. fold (flag isInternal) (flag needACK).
  rewrite !len_writeDoubleBE.
  change (len [byte_of_Z (flag isInternal)]) with 1.
  change (len [byte_of_Z (flag needACK)]) with 1.
  replace (8 + 1 + len (Buffer_from messageName) + 8 + 1 + 8)
    with (26 + len (Buffer_from messageName)) by lia.
  rewrite Buffer_concat_exact.
  - cbn [concat app]. rewrite app_nil_r. reflexivity.
  - cbn [concat]. autorewrite with len. lia.
Qed.

Lemma len_serializeHeader isInternal messageName needACK messageID :
  len (_serializeHeader isInternal messageName needACK messageID) =
  26 + len (Buffer_from messageName).
Proof. rewrite _serializeHeader_bytes. autorewrite with len. lia. Qed.

Ltac list_eq :=
  repeat (rewrite <- app_assoc || rewrite <- app_comm_cons); cbn [app]; reflexivity.

Lemma _deserializeHeader_serializeHeader isInternal messageName needACK messageID body :
  0 <= messageID < 2 ^ 64 -> canon messageID = messageID ->
  small (_serializeHeader isInternal messageName needACK messageID ++ body) ->
  _deserializeHeader (_serializeHeader isInternal messageName needACK messageID ++ body) =
  Ret {| isInternal := isInternal; messageName := toString (Buffer_from messageName);
         needACK := needACK; messageID := messageID;
         headerLength := of_int (26 + len (Buffer_from messageName)) |}.
Proof.
  intros Hid Hc Hs.
  pose proof (len_serializeHeader isInternal messageName needACK messageID) as Hl.
  unfold small in Hs. rewrite len_app, Hl in Hs. clear Hl.
  rewrite _serializeHeader_bytes.
  set (nb := Buffer_from messageName) in *.
  pose proof (len_nonneg nb) as Hn. pose proof (len_nonneg body) as Hb.
  assert (be_decode (writeDoubleBE (of_int (26 + len nb))) = of_int (26 + len nb)) as D1
    by (apply be_decode_writeDoubleBE, of_int_double; lia).
  assert (be_decode (writeDoubleBE (of_int (len nb))) = of_int (len nb)) as D2
    by (apply be_decode_writeDoubleBE, of_int_double; lia).
  pose proof (be_decode_writeDoubleBE messageID Hid) as D3.
  pose proof (length_writeDoubleBE (of_int (26 + len nb))) as L1.
  pose proof (length_writeDoubleBE (of_int (len nb))) as L2.
  pose proof (length_writeDoubleBE messageID) as L3.
  pose proof (flag_byte isInternal) as F1. pose proof (flag_byte needACK) as F2.
  set (w1 := writeDoubleBE (of_int (26 + len nb))) in *.
  set (w2 := writeDoubleBE (of_int (len nb))) in *.
  set (w3 := writeDoubleBE messageID) in *.
  set (b1 := byte_of_Z (flag isInternal)) in *.
  set (b2 := byte_of_Z (flag needACK)) in *.
  clearbody w1 w2 w3 b1 b2 nb.
  pose proof (len_8 _ L1) as L1'. pose proof (len_8 _ L2) as L2'.
  pose proof (len_8 _ L3) as L3'.
  set (data := (w1 ++ b1 :: w2 ++ nb ++ b2 :: w3) ++ body).
  unfold _deserializeHeader.
  rewrite (readDoubleBE_in data [] w1 (b1 :: w2 ++ nb ++ b2 :: w3 ++ body) 0);
    [|subst data; list_eq|reflexivity|assumption].
  cbn [bind].
  rewrite (readUInt8_in data w1 b1 (w2 ++ nb ++ b2 :: w3 ++ body) 8);
    [|subst data; list_eq|assumption].
  cbn [bind]. rewrite js_add_int by (cbn; lia). change (8 + 1) with 9.
  rewrite (readDoubleBE_in data (w1 ++ [b1]) w2 (nb ++ b2 :: w3 ++ body) 9);
    [|subst data; list_eq|autorewrite with len; lia|assumption].
  cbn [bind]. rewrite js_add_int by (cbn; lia). change (9 + 8) with 17.
  rewrite D2, canon_of_int, to_num_of_int by lia.
  rewrite js_add_int by lia.
  rewrite (slice_in data (w1 ++ b1 :: w2) nb (b2 :: w3 ++ body) 17 (17 + len nb));
    [|subst data; list_eq|autorewrite with len; lia|reflexivity].
  rewrite (readUInt8_in data (w1 ++ b1 :: w2 ++ nb) b2 (w3 ++ body) (17 + len nb));
    [|subst data; list_eq|autorewrite with len; lia].
  cbn [bind]. rewrite js_add_int by lia.
  rewrite (readDoubleBE_in data (w1 ++ b1 :: w2 ++ nb ++ [b2]) w3 body (17 + len nb + 1));
    [|subst data; list_eq|autorewrite with len; lia|assumption].
  cbn [bind].
  rewrite D1, D3, canon_of_int, Hc, F1, F2 by lia.
  reflexivity.
Qed.

Section CanonicalHeader.
Context {obj : Type}.
Variable o2b_serialize : list (@value obj) -> res (list byte).
Variable o2b_deserialize : list byte -> res (list (@value obj)).

Lemma canonical_header isInternal messageName needACK messageID hb body :
  o2b_serialize [VBoolean isInternal; VBoolean needACK; VNumber messageID; messageName]
    = Ret hb ->
  o2b_deserialize hb =
    Ret [VBoolean isInternal; VBoolean needACK; VNumber messageID; messageName] ->
  small ((writeDoubleBE (of_int (len hb)) ++ hb) ++ body) ->
  Canonical._serializeHeader o2b_serialize isInternal messageName needACK messageID =
    Ret (writeDoubleBE (of_int (len hb)) ++ hb) /\
  Canonical._deserializeHeader o2b_deserialize
    ((writeDoubleBE (of_int (len hb)) ++ hb) ++ body) =
    Ret {| Canonical.isInternal := VBoolean isInternal;
           Canonical.needACK := VBoolean needACK;
           Canonical.messageID := VNumber messageID;
           Canonical.messageName := messageName;
           Canonical.headerLength := JInt (8 + len hb) |}.
Proof.
  intros Hser Hdes Hs.
  split; [unfold Canonical._serializeHeader; rewrite Hser; reflexivity|].
  unfold small in Hs. rewrite !len_app, len_writeDoubleBE in Hs.
  pose proof (len_nonneg hb) as Hh. pose proof (len_nonneg body) as Hb.
  assert (be_decode (writeDoubleBE (of_int (len hb))) = of_int (len hb)) as D1
    by (apply be_decode_writeDoubleBE, of_int_double; lia).
  pose proof (length_writeDoubleBE (of_int (len hb))) as L1.
  set (w1 := writeDoubleBE (of_int (len hb))) in *. clearbody w1.
  pose proof (len_8 _ L1) as L1'.
  set (data := (w1 ++ hb) ++ body).
  unfold Canonical._deserializeHeader.
  rewrite (readDoubleBE_in data [] w1 (hb ++ body) 0);
    [|subst data; list_eq|reflexivity|assumption].
  cbn [bind]. rewrite D1, canon_of_int, to_num_of_int by lia.
  rewrite !js_add_int by lia.
  rewrite (slice_in data w1 hb body 8 (len hb + 8));
    [|subst data; list_eq|assumption|lia].
  rewrite Hdes. reflexivity.
Qed.
End CanonicalHeader.

(** ** The payload limit *)

Section Payload.
Context {obj : Type}.
Variable JSON_stringify : obj -> res (option jsstring).

Lemma _send_array isInternal prior messageName needACK data body (s : @socket obj) :
  serialize JSON_stringify data = Ret body ->
  let id := _messageID s in
  let frame := _serializeHeader isInternal messageName needACK (of_int id) ++ body in
  _send JSON_stringify isInternal prior messageName needACK (DArray data) s =
  (id, match _maxPayload s with
       | Some maxPayload =>
           if maxPayload <? len frame
           then settle id (Rejected PayloadTooLarge) (promised s)
           else enqueue id frame needACK prior (promised s)
       | None => enqueue id frame needACK prior (promised s)
       end).
Proof.
  intros Hser id frame. unfold _send. cbv zeta. rewrite Hser. cbn [bind].
  cbn [_maxPayload set_promises set_messageID].
  fold id. fold frame.
  destruct (_maxPayload s) as [m|]; [destruct (m <? len frame)|];
    try reflexivity;
    unfold enqueue, promised; cbv zeta; destruct (_ || _); reflexivity.
Qed.

Variable o2b_serialize : list (@value obj) -> res (list byte).

Lemma canonical_send_array isInternal prior messageName needACK data header body
    (s : @socket obj) :
  Canonical._serializeHeader o2b_serialize isInternal messageName needACK
    (of_int (_messageID s)) = Ret header ->
  o2b_serialize data = Ret body ->
  let id := _messageID s in
  let frame := header ++ body in
  Canonical._send o2b_serialize isInternal prior messageName needACK (DArray data) s =
  (id, match _maxPayload s with
       | Some maxPayload =>
           if maxPayload <=? len frame
           then settle id (Rejected PayloadTooLarge) (promised s)
           else enqueue id frame needACK prior (promised s)
       | None => enqueue id frame needACK prior (promised s)
       end).
Proof.
  intros Hh Hser id frame. unfold Canonical._send. cbv zeta. rewrite Hh, Hser. cbn [bind].
  cbn [_maxPayload set_promises set_messageID].
  fold id. fold frame.
  destruct (_maxPayload s) as [m|]; [destruct (m <=? len frame)|];
    try reflexivity;
    unfold enqueue, promised; cbv zeta; destruct (_ || _); reflexivity.
Qed.
End Payload.



(** ** The queue *)

Lemma mem_In k q : mem k q = true <-> In k q.
Proof.
  unfold mem. rewrite existsb_exists. split.
  - intros (x & Hx & E). apply Z.eqb_eq in E. subst. assumption.
  - intros H. exists k. split; [assumption|apply Z.eqb_refl].
Qed.

Lemma mem_false k q : mem k q = false <-> ~ In k q.
Proof.
  rewrite <- mem_In. destruct (mem k q); split; intros; congruence.
Qed.

Lemma queue_delete_In x k q : In x (queue_delete k q) <-> In x q /\ x <> k.
Proof.
  unfold queue_delete. rewrite filter_In.
  destruct (Z.eqb_spec x k); cbn; intuition congruence.
Qed.

Lemma queue_delete_NoDup k q : List.NoDup q -> List.NoDup (queue_delete k q).
Proof. unfold queue_delete. apply List.NoDup_filter. Qed.

Lemma queue_delete_notin k q : ~ In k q -> queue_delete k q = q.
Proof.
  induction q as [|x q IH]; cbn; intros H; [reflexivity|].
  destruct (Z.eqb_spec x k); cbn; [intuition|].
  f_equal. apply IH. intuition.
Qed.

Lemma queue_delete_head k q : List.NoDup (k :: q) -> queue_delete k (k :: q) = q.
Proof.
  intros H. inversion H; subst. cbn. rewrite Z.eqb_refl. cbn.
  apply queue_delete_notin. assumption.
Qed.

Lemma queue_delete_other x k q : x <> k -> queue_delete k (x :: q) = x :: queue_delete k q.
Proof. intros H. cbn. destruct (Z.eqb_spec x k); [contradiction|reflexivity]. Qed.

Lemma queue_delete_last k q : List.NoDup (q ++ [k]) -> queue_delete k (q ++ [k]) = q.
Proof.
  intros H. unfold queue_delete. rewrite List.filter_app. cbn.
  rewrite Z.eqb_refl. cbn. rewrite app_nil_r.
  apply queue_delete_notin.
  apply List.NoDup_remove_2 in H. rewrite app_nil_r in H. assumption.
Qed.

Lemma queue_set_fresh k q : ~ In k q -> queue_set k q = q ++ [k].
Proof. intros H. unfold queue_set. apply mem_false in H. rewrite H. reflexivity. Qed.

Section QueueProofs.
Context {obj : Type}.
Variable JSON_stringify : obj -> res (option jsstring).
Variable JSON_parse : jsstring -> option (@value obj).
Implicit Types s : @socket obj.

Ltac fields :=
  cbn [_messageID _queue _maxPayload _needDeserialize controls promises catching
       settled sendData writing emitted set_messageID set_queue set_controls
       set_promises set_catching set_settled set_sendData set_writing emit] in *.

(** *** [settle] *)

Lemma settle_frame id o s :
  _queue (settle id o s) = _queue s /\
  controls (settle id o s) = controls s /\
  _messageID (settle id o s) = _messageID s /\
  sendData (settle id o s) = sendData s /\
  writing (settle id o s) = writing s /\
  _maxPayload (settle id o s) = _maxPayload s /\
  catching (settle id o s) = catching s.
Proof.
  unfold settle. destruct (promises s !! id) as [[| |]|]; try (repeat split; reflexivity).
  destruct o; fields; try (repeat split; reflexivity).
  destruct (mem id (catching s)); repeat split; reflexivity.
Qed.

Lemma settle_pending id o s :
  promises s !! id = Some Pending ->
  promises (settle id o s) = <[id := o]> (promises s) /\
  settled (settle id o s) = settled s ++ [(id, o)].
Proof.
  intros H. unfold settle. rewrite H.
  destruct o; fields; try (split; reflexivity).
  destruct (mem id (catching s)); split; reflexivity.
Qed.

Lemma settle_noop id o s :
  promises s !! id <> Some Pending -> settle id o s = s.
Proof.
  intros H. unfold settle. destruct (promises s !! id) as [[| |]|]; congruence.
Qed.

Lemma pending_dec s id :
  promises s !! id = Some Pending \/ promises s !! id <> Some Pending.
Proof. destruct (promises s !! id) as [[| |]|]; auto. Qed.

Lemma settle_promises_ne id o s id' :
  id' <> id -> promises (settle id o s) !! id' = promises s !! id'.
Proof.
  intros Hne. destruct (pending_dec s id) as [H|H].
  - destruct (settle_pending id o s H) as [-> _]. apply lookup_insert_ne. congruence.
  - rewrite settle_noop by assumption. reflexivity.
Qed.

Lemma settle_promises_eq id o s :
  promises s !! id = Some Pending -> promises (settle id o s) !! id = Some o.
Proof.
  intros H. destruct (settle_pending id o s H) as [-> _]. apply lookup_insert_eq.
Qed.

(** *** [wf] is kept *)

Lemma wf_remove id o s :
  wf s -> o <> Pending ->
  wf (settle id o (set_queue (queue_delete id (_queue s)) s)).
Proof.
  intros [Hnd Hq Hf Hp Hpr] Ho.
  set (s1 := set_queue (queue_delete id (_queue s)) s).
  destruct (settle_frame id o s1) as (Eq & Ec & Em & _).
  constructor; rewrite ?Eq, ?Ec, ?Em; subst s1; fields.
  - apply queue_delete_NoDup. assumption.
  - intros id' Hin. apply queue_delete_In in Hin as [Hin Hne].
    rewrite settle_promises_ne by assumption. fields. apply Hq. assumption.
  - intros id' Hid. destruct (Hf id' Hid) as [Hc Hpn]. split; [assumption|].
    destruct (decide (id' = id)) as [->|Hne].
    + rewrite settle_noop; fields; [assumption|congruence].
    + rewrite settle_promises_ne by assumption. assumption.
  - intros id' Hc Hpn. apply queue_delete_In.
    destruct (decide (id' = id)) as [->|Hne].
    + exfalso.
      destruct (pending_dec s id) as [H|H].
      * rewrite settle_promises_eq in Hpn by (fields; assumption). congruence.
      * rewrite settle_noop in Hpn by (fields; assumption). fields. contradiction.
    + rewrite settle_promises_ne in Hpn by assumption. fields.
      split; [apply Hp; assumption|assumption].
  - intros id' Hc.
    destruct (decide (id' = id)) as [->|Hne].
    + destruct (pending_dec s id) as [H|H].
      * rewrite settle_promises_eq by (fields; assumption). eauto.
      * rewrite settle_noop by (fields; assumption). fields. apply Hpr. assumption.
    + rewrite settle_promises_ne by assumption. fields. apply Hpr. assumption.
Qed.

Lemma outcome_not_pending err : outcome err <> Pending.
Proof. destruct err; discriminate. Qed.

Lemma control_send_frame id s :
  _queue (control_send id s) = _queue s /\
  promises (control_send id s) = promises s /\
  _messageID (control_send id s) = _messageID s /\
  settled (control_send id s) = settled s /\
  _maxPayload (control_send id s) = _maxPayload s /\
  forall id', is_Some (controls (control_send id s) !! id') <-> is_Some (controls s !! id').
Proof.
  unfold control_send. destruct (controls s !! id) as [c|] eqn:E;
    [destruct (sent c)|]; fields; repeat split; try tauto.
  - destruct (decide (id = id')) as [->|Hne].
    + rewrite E. eauto.
    + rewrite lookup_insert_ne by assumption. tauto.
  - destruct (decide (id = id')) as [->|Hne].
    + rewrite lookup_insert_eq. eauto.
    + rewrite lookup_insert_ne by assumption. tauto.
Qed.

Lemma wf_control_send id s : wf s -> wf (control_send id s).
Proof.
  intros [Hnd Hq Hf Hp Hpr].
  destruct (control_send_frame id s) as (Eq & Ep & Em & _ & _ & Ec).
  constructor; rewrite ?Eq, ?Ep, ?Em.
  - assumption.
  - intros id' Hin. rewrite Ec. apply Hq. assumption.
  - intros id' Hid. destruct (Hf id' Hid) as [Hc Hpn]. split; [|assumption].
    apply eq_None_not_Some. rewrite Ec. rewrite Hc. apply is_Some_None.
  - intros id' Hc. apply Hp. apply Ec. assumption.
  - intros id' Hc. apply Hpr. apply Ec. assumption.
Qed.

Lemma wf_control_cancel id err s : wf s -> wf (snd (control_cancel id err s)).
Proof.
  intros H. unfold control_cancel.
  destruct (controls s !! id) as [c|]; [|assumption].
  destruct (sent c); [assumption|]. cbn [snd].
  apply wf_remove; [assumption|apply outcome_not_pending].
Qed.

Lemma wf_control_ack id err s : wf s -> wf (control_ack id err s).
Proof.
  intros H. unfold control_ack.
  pose proof (wf_remove id (outcome err) s H (outcome_not_pending err)) as H1.
  set (s1 := settle id (outcome err) (set_queue (queue_delete id (_queue s)) s)) in *.
  destruct (_ && _); [|assumption].
  destruct (_queue s1); [assumption|]. apply wf_control_send. assumption.
Qed.

(** *** [_send] *)

Lemma _send_cases isInternal prior messageName needACK data s :
  (exists e, _send JSON_stringify isInternal prior messageName needACK data s =
             (_messageID s, settle (_messageID s) (Rejected e) (promised s))) \/
  (exists d, _send JSON_stringify isInternal prior messageName needACK data s =
             (_messageID s, enqueue (_messageID s) d needACK prior (promised s))).
Proof.
  unfold _send. cbv zeta.
  match goal with |- context [match ?x with Ret _ => _ | Throw _ => _ end] =>
    destruct x as [d|e] end.
  - right. exists d. unfold enqueue, promised. cbv zeta.
    destruct (_ || _); reflexivity.
  - left. exists e. reflexivity.
Qed.

Lemma wf_promised_rejected e s :
  wf s -> wf (settle (_messageID s) (Rejected e) (promised s)).
Proof.
  intros [Hnd Hq Hf Hp Hpr].
  assert (promises (promised s) !! _messageID s = Some Pending) as Hpen
    by (unfold promised; fields; apply lookup_insert_eq).
  destruct (settle_frame (_messageID s) (Rejected e) (promised s)) as (Eq & Ec & Em & _).
  destruct (Hf (_messageID s) ltac:(lia)) as [Hc0 Hp0].
  assert (forall id', id' <> _messageID s ->
            promises (settle (_messageID s) (Rejected e) (promised s)) !! id' =
            promises s !! id') as Hother.
  { intros id' Hne. rewrite settle_promises_ne by assumption.
    unfold promised; fields. apply lookup_insert_ne. congruence. }
  assert (forall id', In id' (_queue s) -> id' <> _messageID s) as Hin.
  { intros id' Hi ->. destruct (Hq _ Hi) as [[c Hc] _]. congruence. }
  constructor; rewrite ?Eq, ?Ec, ?Em; unfold promised; fields.
  - assumption.
  - intros id' Hi. fold (promised s). rewrite Hother by auto. apply Hq. assumption.
  - intros id' Hid. fold (promised s). rewrite Hother by lia. apply Hf. lia.
  - intros id' Hc Hpn. fold (promised s) in Hpn.
    destruct (Z.eq_dec id' (_messageID s)) as [->|Hne].
    + rewrite Hc0 in Hc. destruct Hc; discriminate.
    + rewrite Hother in Hpn by assumption. apply Hp; assumption.
  - intros id' Hc. fold (promised s).
    destruct (Z.eq_dec id' (_messageID s)) as [->|Hne].
    + rewrite settle_promises_eq by assumption. eauto.
    + rewrite Hother by assumption. apply Hpr; assumption.
Qed.

Lemma wf_enqueue d needACK prior s :
  wf s -> wf (enqueue (_messageID s) d needACK prior (promised s)).
Proof.
  intros [Hnd Hq Hf Hp Hpr].
  destruct (Hf (_messageID s) ltac:(lia)) as [Hc0 Hp0].
  assert (~ In (_messageID s) (_queue s)) as Hfresh.
  { intros Hi. destruct (Hq _ Hi) as [[c Hc] _]. congruence. }
  unfold enqueue. cbv zeta.
  match goal with |- wf (if _ then control_send _ ?s2 else _) =>
    assert (wf s2) as H2 end.
  { unfold promised; fields. rewrite queue_set_fresh by assumption.
    constructor; fields.
    - apply List.NoDup_app; [assumption|repeat constructor; intros []|].
      intros x Hx [<-|[]]. contradiction.
    - intros id' Hi. apply in_app_or in Hi as [Hi|[<-|[]]].
      + assert (id' <> _messageID s) by (intros ->; contradiction).
        rewrite !lookup_insert_ne by congruence. apply Hq. assumption.
      + rewrite !lookup_insert_eq. eauto.
    - intros id' Hid. rewrite !lookup_insert_ne by lia. apply Hf. lia.
    - intros id' Hc Hpn. apply in_or_app.
      destruct (Z.eq_dec id' (_messageID s)) as [->|Hne]; [right; left; reflexivity|].
      rewrite lookup_insert_ne in Hc by congruence.
      rewrite lookup_insert_ne in Hpn by congruence. left. apply Hp; assumption.
    - intros id' Hc.
      destruct (Z.eq_dec id' (_messageID s)) as [->|Hne].
      + rewrite lookup_insert_eq. eauto.
      + rewrite lookup_insert_ne in Hc by congruence.
        rewrite lookup_insert_ne by congruence. apply Hpr; assumption. }
  destruct (_ || _); [apply wf_control_send|]; assumption.
Qed.

Lemma wf_send isInternal prior messageName needACK data s :
  wf s -> wf (snd (_send JSON_stringify isInternal prior messageName needACK data s)).
Proof.
  intros H.
  destruct (_send_cases isInternal prior messageName needACK data s) as [[e ->]|[d ->]];
    cbn [snd]; [apply wf_promised_rejected|apply wf_enqueue]; assumption.
Qed.

Lemma wf_ext s s' :
  _queue s' = _queue s -> controls s' = controls s ->
  promises s' = promises s -> _messageID s' = _messageID s ->
  wf s -> wf s'.
Proof.
  intros Eq Ec Ep Em [Hnd Hq Hf Hp Hpr].
  constructor; rewrite ?Eq, ?Ec, ?Ep, ?Em; assumption.
Qed.

Lemma wf_new_socket maxPayload needDeserialize :
  wf (@new_socket obj maxPayload needDeserialize).
Proof.
  constructor; cbn.
  - constructor.
  - intros id [].
  - intros id _. rewrite !lookup_empty. split; reflexivity.
  - intros id H. rewrite lookup_empty in H. destruct H; discriminate.
  - intros id H. rewrite lookup_empty in H. destruct H; discriminate.
Qed.

Lemma wf_written id err s : wf s -> wf (written id err s).
Proof.
  intros H. unfold written.
  set (s1 := set_writing _ s).
  assert (wf s1) as H1 by (apply (wf_ext s); auto).
  destruct (controls s1 !! id) as [c|]; [|assumption].
  destruct (ackWanted c); [destruct err|]; try assumption; apply wf_control_ack; assumption.
Qed.

Lemma wf_cancel messageID err s : wf s -> wf (snd (cancel messageID err s)).
Proof.
  intros H. unfold cancel. destruct (queue_get messageID s); [|assumption].
  apply wf_control_cancel. assumption.
Qed.

Lemma wf_close_item s item : wf s -> wf (close_item s item).
Proof.
  intros H. unfold close_item.
  pose proof (wf_control_cancel item (Some ConnectionAborted) s H) as H1.
  destruct (control_cancel item (Some ConnectionAborted) s) as [[|] s1]; cbn [snd] in H1;
    [assumption|apply wf_control_ack; assumption].
Qed.

Lemma wf_on_close s : wf s -> wf (on_close s).
Proof.
  unfold on_close. generalize (rev (_queue s)). intros l. revert s.
  induction l as [|item l IH]; intros s H; cbn [fold_left]; [assumption|].
  apply IH, wf_close_item. assumption.
Qed.

Lemma wf_receiveData fuel data s s' :
  wf s -> _receiveData JSON_stringify JSON_parse fuel data s = Some s' -> wf s'.
Proof.
  intros H. unfold _receiveData.
  destruct (_deserializeHeader data) as [h|e].
  2:{ intros [= <-]. apply (wf_ext s); auto. }
  cbv zeta.
  match goal with |- context [if needACK h then ?a else _] =>
    assert (wf (if needACK h then a else s)) as H1 end.
  { destruct (needACK h); [|assumption].
    unfold _sendInternal.
    match goal with |- context [_send ?j ?i ?p ?n ?k ?d ?s0] =>
      pose proof (wf_send i p n k d s0) as Hs;
      destruct (_send j i p n k d s0) as [id s1] end.
    cbn [snd] in Hs. apply Hs. apply (wf_ext s); auto. }
  match goal with H1 : wf ?x |- _ => set (s1 := x) in * end.
  destruct (isInternal h).
  - destruct (deserialize _ _ _) as [[body|e]|]; [| |discriminate].
    + destruct (jsstring_eqb _ _); [|intros [= <-]; assumption].
      destruct (ack_key body) as [k|]; [|intros [= <-]; assumption].
      destruct (queue_get k s1); intros [= <-]; [apply wf_control_ack|]; assumption.
    + intros [= <-]. apply (wf_ext s1); auto.
  - destruct (_needDeserialize s1).
    + destruct (deserialize _ _ _) as [[body|e]|]; [| |discriminate];
        intros [= <-]; apply (wf_ext s1); auto.
    + intros [= <-]. apply (wf_ext s1); auto.
Qed.

Lemma wf_step s a s' :
  wf s -> step JSON_stringify JSON_parse s a s' -> wf s'.
Proof.
  intros H Hs.
  destruct Hs as [s messageName data needACK prior|s mid err|s id err Hin|s data fuel s' Hr|s].
  - apply wf_send. assumption.
  - apply wf_cancel. assumption.
  - apply wf_written. assumption.
  - eapply wf_receiveData; eassumption.
  - apply wf_on_close. assumption.
Qed.

Lemma wf_reachable P init s :
  wf init -> reachable JSON_stringify JSON_parse P init s -> wf s.
Proof.
  intros Hi Hr. induction Hr as [|s a s' _ IH _ Hs]; [assumption|].
  eapply wf_step; eassumption.
Qed.

(** *** Only the head is sent *)

Lemma hd_queue_delete id x q :
  hd_error q = Some x -> x <> id -> hd_error (queue_delete id q) = Some x.
Proof.
  destruct q as [|y q]; cbn; [discriminate|]. intros [= ->] Hne.
  destruct (Z.eqb_spec x id); [contradiction|reflexivity].
Qed.

Lemma head_only_remove id o s :
  head_only s -> head_only (settle id o (set_queue (queue_delete id (_queue s)) s)).
Proof.
  intros H id' c.
  destruct (settle_frame id o (set_queue (queue_delete id (_queue s)) s)) as (-> & -> & _).
  fields. intros Hin Hc Hs. apply queue_delete_In in Hin as [Hin Hne].
  apply hd_queue_delete; [eapply H; eassumption|assumption].
Qed.

Lemma control_send_controls id s id' :
  id' <> id -> controls (control_send id s) !! id' = controls s !! id'.
Proof.
  intros Hne. unfold control_send.
  destruct (controls s !! id) as [c|]; [destruct (sent c)|]; fields; try reflexivity.
  apply lookup_insert_ne. congruence.
Qed.

Lemma head_only_control_send h s :
  head_only s -> hd_error (_queue s) = Some h -> head_only (control_send h s).
Proof.
  intros H Hh id c.
  destruct (control_send_frame h s) as (-> & _).
  destruct (Z.eq_dec id h) as [->|Hne]; [intros; assumption|].
  rewrite control_send_controls by assumption. apply H.
Qed.

Lemma head_only_control_cancel id err s :
  head_only s -> head_only (snd (control_cancel id err s)).
Proof.
  intros H. unfold control_cancel.
  destruct (controls s !! id) as [c|]; [|assumption].
  destruct (sent c); [assumption|]. cbn [snd]. apply head_only_remove. assumption.
Qed.

Lemma head_only_control_ack id err s :
  head_only s -> head_only (control_ack id err s).
Proof.
  intros H. unfold control_ack.
  pose proof (head_only_remove id (outcome err) s H) as H1.
  set (s1 := settle id (outcome err) (set_queue (queue_delete id (_queue s)) s)) in *.
  destruct (_ && _); [|assumption].
  destruct (_queue s1) as [|first q] eqn:E; [assumption|].
  apply head_only_control_send; [assumption|rewrite E; reflexivity].
Qed.

Lemma head_only_ext s s' :
  _queue s' = _queue s -> controls s' = controls s -> head_only s -> head_only s'.
Proof. intros Eq Ec H id c. rewrite Eq, Ec. apply H. Qed.

Lemma head_only_enqueue d needACK s :
  wf s -> head_only s ->
  head_only (enqueue (_messageID s) d needACK false (promised s)).
Proof.
  intros [Hnd Hq Hf Hp Hpr] H.
  destruct (Hf (_messageID s) ltac:(lia)) as [Hc0 Hp0].
  assert (~ In (_messageID s) (_queue s)) as Hfresh.
  { intros Hi. destruct (Hq _ Hi) as [[c Hc] _]. congruence. }
  unfold enqueue. cbv zeta. cbn [orb].
  match goal with |- head_only (if _ then control_send _ ?x else _) =>
    set (s2 := x) end.
  assert (_queue s2 = _queue s ++ [_messageID s]) as Eq
    by (subst s2; unfold promised; fields; apply queue_set_fresh; assumption).
  assert (forall id c, In id (_queue s2) -> controls s2 !! id = Some c ->
            sent c = true -> In id (_queue s) /\ controls s !! id = Some c) as Hold.
  { intros id c Hin Hc Hs. rewrite Eq in Hin. subst s2. unfold promised in Hc. fields.
    apply in_app_or in Hin as [Hin|[<-|[]]].
    - assert (id <> _messageID s) by (intros ->; contradiction).
      rewrite lookup_insert_ne in Hc by congruence. auto.
    - rewrite lookup_insert_eq in Hc. injection Hc as <-. discriminate. }
  assert (head_only s2) as H2.
  { intros id c Hin Hc Hs. destruct (Hold id c Hin Hc Hs) as [Hin' Hc'].
    rewrite Eq. specialize (H id c Hin' Hc' Hs).
    destruct (_queue s); [discriminate|assumption]. }
  unfold queue_size. rewrite Eq, length_app. cbn [length].
  destruct (_queue s) as [|h q] eqn:Eqs.
  - cbn. apply head_only_control_send; [assumption|rewrite Eq; reflexivity].
  - destruct (Z.eqb_spec (Z.of_nat (length (h :: q) + 1)) 1) as [E|E];
      [cbn [length] in E; lia|assumption].
Qed.

Lemma head_only_send_noprior messageName data needACK s :
  wf s -> head_only s ->
  head_only (snd (send JSON_stringify messageName data needACK false s)).
Proof.
  intros Hw H. unfold send.
  destruct (_send_cases false false messageName needACK data s) as [[e ->]|[d ->]];
    cbn [snd].
  - destruct (settle_frame (_messageID s) (Rejected e) (promised s)) as (Eq & Ec & _).
    apply (head_only_ext s); [rewrite Eq|rewrite Ec|]; auto.
  - apply head_only_enqueue; assumption.
Qed.

Lemma head_only_new_socket maxPayload needDeserialize :
  head_only (@new_socket obj maxPayload needDeserialize).
Proof. intros id c []. Qed.

Lemma head_only_written id err s : head_only s -> head_only (written id err s).
Proof.
  intros H. unfold written.
  set (s1 := set_writing _ s).
  assert (head_only s1) as H1 by (apply (head_only_ext s); auto).
  destruct (controls s1 !! id) as [c|]; [|assumption].
  destruct (ackWanted c); [destruct err|]; try assumption;
    apply head_only_control_ack; assumption.
Qed.

Lemma head_only_cancel messageID err s :
  head_only s -> head_only (snd (cancel messageID err s)).
Proof.
  intros H. unfold cancel. destruct (queue_get messageID s); [|assumption].
  apply head_only_control_cancel. assumption.
Qed.

Lemma head_only_close_item s item : head_only s -> head_only (close_item s item).
Proof.
  intros H. unfold close_item.
  pose proof (head_only_control_cancel item (Some ConnectionAborted) s H) as H1.
  destruct (control_cancel item (Some ConnectionAborted) s) as [[|] s1]; cbn [snd] in H1;
    [assumption|apply head_only_control_ack; assumption].
Qed.

Lemma head_only_on_close s : head_only s -> head_only (on_close s).
Proof.
  unfold on_close. generalize (rev (_queue s)). intros l. revert s.
  induction l as [|item l IH]; intros s H; cbn [fold_left]; [assumption|].
  apply IH, head_only_close_item. assumption.
Qed.

Lemma _receiveData_reply fuel data s :
  _receiveData JSON_stringify JSON_parse fuel data s =
  match _deserializeHeader data with
  | Throw e => Some (emit (EError e) s)
  | Ret header =>
      let s := reply JSON_stringify header s in
      let rest := slice_from data (to_num (headerLength header)) in
      if isInternal header then
        match deserialize JSON_parse fuel rest with
        | None => None
        | Some (Throw e) => Some (emit (EError e) s)
        | Some (Ret body) =>
            if jsstring_eqb (messageName header) (str "ack") then
              match ack_key body with
              | Some k =>
                  match queue_get k s with
                  | Some _ => Some (control_ack k None s)
                  | None => Some s
                  end
              | None => Some s
              end
            else Some s
        end
      else if _needDeserialize s then
        match deserialize JSON_parse fuel rest with
        | None => None
        | Some (Throw e) => Some (emit (EError e) s)
        | Some (Ret body) => Some (emit (EMessage (messageName header) body) s)
        end
      else Some (emit (EMessageRaw (messageName header) rest) s)
  end.
Proof.
  unfold _receiveData, reply. destruct (_deserializeHeader data) as [h|e]; [|reflexivity].
  destruct (needACK h); [|reflexivity].
  destruct (_sendInternal _ _ _ _ _ _) as [id s1]. reflexivity.
Qed.

Lemma head_only_receiveData fuel data s s' :
  (forall h, _deserializeHeader data = Ret h -> needACK h = false) ->
  head_only s ->
  _receiveData JSON_stringify JSON_parse fuel data s = Some s' -> head_only s'.
Proof.
  intros Hn H. rewrite _receiveData_reply.
  destruct (_deserializeHeader data) as [h|e].
  2:{ intros [= <-]. apply (head_only_ext s); auto. }
  cbv zeta. unfold reply. rewrite (Hn h eq_refl).
  destruct (isInternal h).
  - destruct (deserialize _ _ _) as [[body|e]|]; [| |discriminate].
    + destruct (jsstring_eqb _ _); [|intros [= <-]; assumption].
      destruct (ack_key body) as [k|]; [|intros [= <-]; assumption].
      destruct (queue_get k s); intros [= <-]; [apply head_only_control_ack|]; assumption.
    + intros [= <-]. apply (head_only_ext s); auto.
  - destruct (_needDeserialize s).
    + destruct (deserialize _ _ _) as [[body|e]|]; [| |discriminate];
        intros [= <-]; apply (head_only_ext s); auto.
    + intros [= <-]. apply (head_only_ext s); auto.
Qed.

Lemma head_only_step s a s' :
  no_prior a -> wf s -> head_only s ->
  step JSON_stringify JSON_parse s a s' -> head_only s'.
Proof.
  intros Hn Hw H Hs.
  destruct Hs as [s messageName data needACK prior|s mid err|s id err Hin|s data fuel s' Hr|s]; cbn in Hn.
  - subst prior. apply head_only_send_noprior; assumption.
  - apply head_only_cancel. assumption.
  - apply head_only_written. assumption.
  - eapply head_only_receiveData; eassumption.
  - apply head_only_on_close. assumption.
Qed.

Lemma reachable_invariants init s :
  wf init -> head_only init ->
  reachable JSON_stringify JSON_parse no_prior init s -> wf s /\ head_only s.
Proof.
  intros Hw Hh Hr. induction Hr as [|s a s' _ [IHw IHh] Hn Hs]; [split; assumption|].
  split; [eapply wf_step; eassumption|eapply head_only_step; eassumption].
Qed.

Lemma single_flight_of s : wf s -> head_only s -> single_flight s.
Proof.
  intros Hw Hh id (c & Hc & Hs & Hp).
  eapply Hh; [|eassumption|assumption].
  apply (wf_pending s Hw); [rewrite Hc; eauto|assumption].
Qed.

(** *** What [control.ack] does *)

Lemma set_queue_same s : set_queue (_queue s) s = s.
Proof. destruct s; reflexivity. Qed.

Lemma control_ack_unfold id err s :
  let s1 := settle id (outcome err) (set_queue (queue_delete id (_queue s)) s) in
  control_ack id err s = s1 \/
  exists h, hd_error (_queue s1) = Some h /\ control_ack id err s = control_send h s1.
Proof.
  unfold control_ack. cbv zeta. destruct (_ && _); [|left; reflexivity].
  match goal with |- context [match ?q with [] => _ | _ :: _ => _ end] =>
    destruct q as [|h q'] end; [left; reflexivity|].
  right. exists h. split; reflexivity.
Qed.

Lemma control_ack_queue id err s :
  _queue (control_ack id err s) = queue_delete id (_queue s).
Proof.
  destruct (settle_frame id (outcome err) (set_queue (queue_delete id (_queue s)) s))
    as (Eq & _). fields.
  destruct (control_ack_unfold id err s) as [->|(h & _ & ->)]; [exact Eq|].
  destruct (control_send_frame h (settle id (outcome err)
              (set_queue (queue_delete id (_queue s)) s))) as (-> & _).
  exact Eq.
Qed.

Lemma control_ack_promises id err s id' :
  promises (control_ack id err s) !! id' =
  promises (settle id (outcome err) s) !! id'.
Proof.
  assert (promises (settle id (outcome err) (set_queue (queue_delete id (_queue s)) s))
          = promises (settle id (outcome err) s)) as E.
  { unfold settle. fields. destruct (promises s !! id) as [[| |]|]; try reflexivity.
    destruct (outcome err); fields; try reflexivity.
    destruct (mem id (catching s)); reflexivity. }
  destruct (control_ack_unfold id err s) as [->|(h & _ & ->)]; [rewrite E; reflexivity|].
  destruct (control_send_frame h (settle id (outcome err)
              (set_queue (queue_delete id (_queue s)) s))) as (_ & -> & _).
  rewrite E. reflexivity.
Qed.

Lemma control_ack_settles id err s :
  wf s -> In id (_queue s) ->
  promises (control_ack id err s) !! id = Some (outcome err) /\
  forall id', id' <> id -> promises (control_ack id err s) !! id' = promises s !! id'.
Proof.
  intros Hw Hin. destruct (wf_queue s Hw id Hin) as [_ Hp]. split.
  - rewrite control_ack_promises. apply settle_promises_eq. assumption.
  - intros id' Hne. rewrite control_ack_promises. apply settle_promises_ne. assumption.
Qed.

(** A control that is no longer in the queue and whose promise is settled:
    a further [ack] changes nothing. *)
Lemma control_ack_again id err s :
  ~ In id (_queue s) -> promises s !! id <> Some Pending ->
  control_ack id err s = s.
Proof.
  intros Hin Hp. unfold control_ack.
  assert (match _queue s with first :: _ => first =? id | [] => false end = false) as ->.
  { destruct (_queue s) as [|first q]; [reflexivity|].
    apply Z.eqb_neq. intros ->. apply Hin. left. reflexivity. }
  cbn [andb]. rewrite queue_delete_notin by assumption.
  rewrite set_queue_same. apply settle_noop. assumption.
Qed.

Lemma control_ack_twice id err err' s :
  wf s -> In id (_queue s) ->
  control_ack id err' (control_ack id err s) = control_ack id err s.
Proof.
  intros Hw Hin. apply control_ack_again.
  - rewrite control_ack_queue. intros H. apply queue_delete_In in H as [_ H]. congruence.
  - destruct (control_ack_settles id err s Hw Hin) as [-> _].
    pose proof (outcome_not_pending err). congruence.
Qed.

Lemma control_send_unsent id s c :
  controls s !! id = Some c -> sent c = false ->
  controls (control_send id s) !! id =
    Some {| data := data c; msgID := msgID c; sent := true; ackWanted := ackWanted c |} /\
  sendData (control_send id s) = sendData s ++ [(id, data c)].
Proof.
  intros Hc Hs. unfold control_send. rewrite Hc, Hs. fields.
  rewrite lookup_insert_eq. split; reflexivity.
Qed.

(** The head is acknowledged and the queue is not empty afterwards: the new
    head is transmitted. *)
Lemma control_ack_head id h q err s :
  wf s -> _queue s = id :: h :: q ->
  forall c, controls s !! h = Some c -> sent c = false ->
  _queue (control_ack id err s) = h :: q /\
  controls (control_ack id err s) !! h =
    Some {| data := data c; msgID := msgID c; sent := true; ackWanted := ackWanted c |} /\
  sendData (control_ack id err s) = sendData s ++ [(h, data c)].
Proof.
  intros Hw Eq c Hc Hs.
  pose proof (wf_nodup s Hw) as Hnd. rewrite Eq in Hnd.
  split; [rewrite control_ack_queue, Eq; apply queue_delete_head; assumption|].
  unfold control_ack. rewrite Eq, Z.eqb_refl. cbn [andb].
  rewrite queue_delete_head by assumption.
  destruct (settle_frame id (outcome err) (set_queue (h :: q) s))
    as (Eq1 & Ec1 & _ & Ed1 & _).
  fields.
  unfold queue_size. rewrite Eq1. cbn [length].
  destruct (Z.ltb_spec 0 (Z.of_nat (S (length q)))); [|lia].
  rewrite <- Ec1 in Hc.
  destruct (control_send_unsent h _ c Hc Hs) as [-> ->]. rewrite Ed1.
  split; reflexivity.
Qed.

(** An entry that is not the head is acknowledged: nothing is transmitted. *)
Lemma control_ack_head_sent id h q err s :
  wf s -> _queue s = id :: h :: q ->
  forall c, controls s !! h = Some c -> sent c = true ->
  _queue (control_ack id err s) = h :: q /\
  controls (control_ack id err s) = controls s /\
  sendData (control_ack id err s) = sendData s.
Proof.
  intros Hw Eq c Hc Hs.
  pose proof (wf_nodup s Hw) as Hnd. rewrite Eq in Hnd.
  split; [rewrite control_ack_queue, Eq; apply queue_delete_head; assumption|].
  unfold control_ack. rewrite Eq, Z.eqb_refl. cbn [andb].
  rewrite queue_delete_head by assumption.
  destruct (settle_frame id (outcome err) (set_queue (h :: q) s))
    as (Eq1 & Ec1 & _ & Ed1 & _).
  fields.
  unfold queue_size. rewrite Eq1. cbn [length].
  destruct (Z.ltb_spec 0 (Z.of_nat (S (length q)))); [|lia].
  rewrite <- Ec1 in Hc. unfold control_send. rewrite Hc, Hs.
  split; assumption.
Qed.

Lemma control_ack_not_head id err s :
  hd_error (_queue s) <> Some id ->
  controls (control_ack id err s) = controls s /\
  sendData (control_ack id err s) = sendData s.
Proof.
  intros Hh. unfold control_ack.
  assert (match _queue s with first :: _ => first =? id | [] => false end = false) as ->.
  { destruct (_queue s) as [|first q]; [reflexivity|].
    apply Z.eqb_neq. intros ->. apply Hh. reflexivity. }
  cbn [andb].
  destruct (settle_frame id (outcome err) (set_queue (queue_delete id (_queue s)) s))
    as (_ & -> & _ & -> & _).
  split; reflexivity.
Qed.

(** The last entry is acknowledged while others are queued before it, or
    the only entry is acknowledged: nothing is transmitted either. *)
Lemma control_ack_last id q err s :
  wf s -> _queue s = q ++ [id] ->
  control_ack id err s = settle id (outcome err) (set_queue q s).
Proof.
  intros Hw Eq. pose proof (wf_nodup s Hw) as Hnd. rewrite Eq in Hnd.
  unfold control_ack. rewrite Eq, queue_delete_last by assumption.
  destruct (settle_frame id (outcome err) (set_queue q s)) as (Eq1 & _).
  fields. unfold queue_size. rewrite Eq1.
  destruct q as [|first q]; cbn [app length].
  - rewrite andb_false_r. reflexivity.
  - assert (first <> id) as Hne.
    { intros ->. cbn in Hnd. inversion Hnd as [|? ? Hn _]. apply Hn.
      apply in_or_app. right. left. reflexivity. }
    apply Z.eqb_neq in Hne. rewrite Hne. reflexivity.
Qed.

(** *** The close handler *)

Lemma close_item_last s q x :
  wf s -> _queue s = q ++ [x] ->
  close_item s x = settle x (Rejected ConnectionAborted) (set_queue q s) /\
  forall c, controls s !! x = Some c ->
    fst (control_cancel x (Some ConnectionAborted) s) = negb (sent c).
Proof.
  intros Hw Eq.
  destruct (wf_queue s Hw x) as [[c Hc] Hp];
    [rewrite Eq; apply in_or_app; right; left; reflexivity|].
  pose proof (wf_nodup s Hw) as Hnd. rewrite Eq in Hnd.
  unfold close_item, control_cancel. rewrite Hc.
  destruct (sent c) eqn:Hs.
  - split; [|intros c' [= <-]; rewrite Hs; reflexivity].
    apply (control_ack_last x q (Some ConnectionAborted) s Hw Eq).
  - split; [|intros c' [= <-]; rewrite Hs; reflexivity].
    rewrite Eq, queue_delete_last by assumption. reflexivity.
Qed.

Lemma on_close_spec q : forall s,
  wf s -> _queue s = q ->
  let s' := fold_left close_item (rev q) s in
  _queue s' = [] /\ controls s' = controls s /\ sendData s' = sendData s /\
  settled s' = settled s ++ map (fun id => (id, Rejected ConnectionAborted)) (rev q) /\
  (forall id, In id q -> promises s' !! id = Some (Rejected ConnectionAborted)) /\
  (forall id, ~ In id q -> promises s' !! id = promises s !! id).
Proof.
  induction q as [|x q IH] using rev_ind; intros s Hw Eq; cbv zeta.
  - cbn. rewrite app_nil_r. repeat split; auto. intros id [].
  - rewrite rev_app_distr. cbn [rev app fold_left].
    destruct (close_item_last s q x Hw Eq) as [-> _].
    pose proof (wf_nodup s Hw) as Hnd. rewrite Eq in Hnd.
    assert (~ In x q) as Hx.
    { apply List.NoDup_remove_2 in Hnd. rewrite app_nil_r in Hnd. assumption. }
    destruct (wf_queue s Hw x) as [_ Hp];
      [rewrite Eq; apply in_or_app; right; left; reflexivity|].
    set (s1 := settle x (Rejected ConnectionAborted) (set_queue q s)).
    assert (wf s1) as Hw1.
    { pose proof (wf_remove x (Rejected ConnectionAborted) s Hw ltac:(discriminate)) as H.
      rewrite Eq, queue_delete_last in H by assumption. exact H. }
    destruct (settle_frame x (Rejected ConnectionAborted) (set_queue q s))
      as (Eq1 & Ec1 & _ & Ed1 & _).
    destruct (settle_pending x (Rejected ConnectionAborted) (set_queue q s) Hp)
      as (Ep1 & Es1).
    fold s1 in Eq1, Ec1, Ed1, Ep1, Es1. fields.
    destruct (IH s1 Hw1 Eq1) as (Hq & Hc & Hd & Hs & Hin & Hout).
    cbv zeta in *. rewrite Hq, Hc, Hd, Hs, Ec1, Ed1, Es1.
    repeat split; auto.
    + rewrite <- app_assoc. reflexivity.
    + intros id Hi. apply in_app_or in Hi as [Hi|[<-|[]]]; [apply Hin; assumption|].
      rewrite Hout by assumption. rewrite Ep1. apply lookup_insert_eq.
    + intros id Hi.
      assert (~ In id q) by (intros H; apply Hi, in_or_app; left; assumption).
      assert (id <> x) by (intros ->; apply Hi, in_or_app; right; left; reflexivity).
      rewrite Hout by assumption. rewrite Ep1. apply lookup_insert_ne. congruence.
Qed.

(** *** [cancel] *)

Lemma queue_get_Some k s c :
  queue_get k s = Some c <-> In k (_queue s) /\ controls s !! k = Some c.
Proof.
  unfold queue_get. destruct (mem k (_queue s)) eqn:E.
  - apply mem_In in E. tauto.
  - apply mem_false in E. split; [discriminate|tauto].
Qed.

Lemma queue_get_None k s :
  wf s -> (queue_get k s = None <-> ~ In k (_queue s)).
Proof.
  intros Hw. unfold queue_get. destruct (mem k (_queue s)) eqn:E.
  - apply mem_In in E. destruct (wf_queue s Hw k E) as [[c ->] _].
    split; [discriminate|contradiction].
  - apply mem_false in E. tauto.
Qed.

Lemma cancel_unsent id err s c :
  wf s -> In id (_queue s) -> controls s !! id = Some c -> sent c = false ->
  let s' := settle id (outcome err) (set_queue (queue_delete id (_queue s)) s) in
  cancel id err s = (true, s') /\
  ~ In id (_queue s') /\
  promises s' !! id = Some (outcome err) /\
  (forall id', id' <> id -> promises s' !! id' = promises s !! id') /\
  sendData s' = sendData s /\ controls s' = controls s.
Proof.
  intros Hw Hin Hc Hs s'.
  destruct (wf_queue s Hw id Hin) as [_ Hp].
  destruct (settle_frame id (outcome err) (set_queue (queue_delete id (_queue s)) s))
    as (Eq & Ec & _ & Ed & _).
  fold s' in Eq, Ec, Ed. fields.
  split.
  { unfold cancel. rewrite (proj2 (queue_get_Some id s c)) by auto.
    unfold control_cancel. rewrite Hc, Hs. reflexivity. }
  split; [rewrite Eq; intros H; apply queue_delete_In in H as [_ H]; congruence|].
  split; [apply settle_promises_eq; assumption|].
  split; [intros id' Hne; subst s'; rewrite settle_promises_ne by assumption; reflexivity|].
  split; assumption.
Qed.

Lemma cancel_sent id err s c :
  In id (_queue s) -> controls s !! id = Some c -> sent c = true ->
  cancel id err s = (false, s).
Proof.
  intros Hin Hc Hs. unfold cancel.
  rewrite (proj2 (queue_get_Some id s c)) by auto.
  unfold control_cancel. rewrite Hc, Hs. reflexivity.
Qed.

Lemma cancel_absent id err s :
  wf s -> ~ In id (_queue s) -> cancel id err s = (false, s).
Proof.
  intros Hw Hin. unfold cancel.
  rewrite (proj2 (queue_get_None id s Hw)) by assumption. reflexivity.
Qed.

(** *** What [_send] does with its entry *)

Lemma rejected_frame e s :
  let s' := settle (_messageID s) (Rejected e) (promised s) in
  _queue s' = _queue s /\ controls s' = controls s /\ sendData s' = sendData s /\
  _messageID s' = _messageID s + 1 /\
  promises s' !! _messageID s = Some (Rejected e) /\
  forall id, id <> _messageID s -> promises s' !! id = promises s !! id.
Proof.
  cbv zeta.
  destruct (settle_frame (_messageID s) (Rejected e) (promised s))
    as (-> & -> & -> & -> & _).
  assert (promises (promised s) !! _messageID s = Some Pending) as Hpen
    by (unfold promised; fields; apply lookup_insert_eq).
  unfold promised at 1 2 3 4. fields. repeat split; auto.
  - apply settle_promises_eq. assumption.
  - intros id Hne. rewrite settle_promises_ne by assumption.
    unfold promised. fields. apply lookup_insert_ne. congruence.
Qed.

Lemma enqueue_spec d needACK prior s :
  wf s ->
  let id := _messageID s in
  let s' := enqueue id d needACK prior (promised s) in
  _queue s' = _queue s ++ [id] /\
  controls s' !! id =
    Some {| data := d; msgID := id; sent := prior || is_empty (_queue s);
            ackWanted := needACK |} /\
  sendData s' =
    (if prior || is_empty (_queue s) then sendData s ++ [(id, d)] else sendData s) /\
  (forall id', id' <> id -> controls s' !! id' = controls s !! id') /\
  promises s' = <[id := Pending]> (promises s).
Proof.
  intros Hw id s'.
  destruct (wf_fresh s Hw id ltac:(subst id; lia)) as [Hc0 Hp0].
  assert (~ In id (_queue s)) as Hfresh.
  { intros Hi. destruct (wf_queue s Hw _ Hi) as [[c Hc] _]. congruence. }
  subst s'. unfold enqueue. cbv zeta.
  match goal with |- context [if _ then control_send _ ?x else _] => set (s2 := x) end.
  assert (_queue s2 = _queue s ++ [id]) as Eq
    by (subst s2; unfold promised; fields; apply queue_set_fresh; assumption).
  assert (controls s2 !! id =
          Some {| data := d; msgID := id; sent := false; ackWanted := needACK |}) as Ec
    by (subst s2; unfold promised; fields; apply lookup_insert_eq).
  assert (forall id', id' <> id -> controls s2 !! id' = controls s !! id') as Eo
    by (intros id' Hne; subst s2; unfold promised; fields;
        apply lookup_insert_ne; congruence).
  assert (sendData s2 = sendData s) as Ed by reflexivity.
  assert (promises s2 = <[id := Pending]> (promises s)) as Ep by reflexivity.
  assert ((queue_size s2 =? 1) = is_empty (_queue s)) as ->.
  { unfold queue_size. rewrite Eq, length_app. cbn [length].
    destruct (_queue s); cbn [is_empty length]; [reflexivity|].
    apply Z.eqb_neq. lia. }
  destruct (prior || is_empty (_queue s)).
  - destruct (control_send_frame id s2) as (-> & -> & _).
    destruct (control_send_unsent id s2 _ Ec eq_refl) as [-> ->].
    rewrite Ed. repeat split; auto.
    intros id' Hne. rewrite control_send_controls by assumption. auto.
  - repeat split; auto.
Qed.

Lemma send_controls_old isInternal prior messageName needACK data s id c :
  wf s -> controls s !! id = Some c ->
  controls (snd (_send JSON_stringify isInternal prior messageName needACK data s)) !! id
    = Some c.
Proof.
  intros Hw Hc.
  assert (id <> _messageID s) as Hne.
  { intros ->. destruct (wf_fresh s Hw (_messageID s) ltac:(lia)) as [H _]. congruence. }
  destruct (_send_cases isInternal prior messageName needACK data s) as [[e ->]|[d ->]];
    cbn [snd].
  - destruct (rejected_frame e s) as (_ & -> & _). assumption.
  - destruct (enqueue_spec d needACK prior s Hw) as (_ & _ & _ & -> & _); assumption.
Qed.

(** *** An entry that waits is transmitted only as the head *)

Lemma only_head_sent_same s s' : controls s' = controls s -> only_head_sent s s'.
Proof. intros E id c c' Hc Hs Hc' Hs'. rewrite E in Hc'. congruence. Qed.

Lemma only_head_sent_ack id err s : only_head_sent s (control_ack id err s).
Proof.
  destruct (settle_frame id (outcome err) (set_queue (queue_delete id (_queue s)) s))
    as (Eq & Ec & _). fields.
  destruct (control_ack_unfold id err s) as [->|(h & Hh & ->)].
  - apply only_head_sent_same. exact Ec.
  - intros i c c' Hc Hs Hc' Hs'.
    destruct (control_send_frame h (settle id (outcome err)
                (set_queue (queue_delete id (_queue s)) s))) as (-> & _).
    destruct (Z.eq_dec i h) as [->|Hne]; [assumption|].
    rewrite control_send_controls, Ec in Hc' by assumption. congruence.
Qed.

Lemma control_cancel_controls id err s :
  controls (snd (control_cancel id err s)) = controls s.
Proof.
  unfold control_cancel. destruct (controls s !! id) as [c|]; [|reflexivity].
  destruct (sent c); [reflexivity|]. cbn [snd].
  destruct (settle_frame id (outcome err) (set_queue (queue_delete id (_queue s)) s))
    as (_ & -> & _). reflexivity.
Qed.

Lemma only_head_sent_receiveData fuel data s s' :
  wf s -> _receiveData JSON_stringify JSON_parse fuel data s = Some s' ->
  only_head_sent s s'.
Proof.
  intros Hw. rewrite _receiveData_reply.
  destruct (_deserializeHeader data) as [h|e];
    [|intros [= <-]; apply only_head_sent_same; reflexivity].
  cbv zeta.
  assert (forall s2, only_head_sent (reply JSON_stringify h s) s2 -> only_head_sent s s2)
    as Hvia.
  { intros s2 H id c c' Hc Hs. apply (H id c c'); [|assumption].
    unfold reply. destruct (needACK h); [|assumption].
    apply send_controls_old; [|assumption]. apply (wf_ext s); auto. }
  set (s1 := reply JSON_stringify h s) in *.
  destruct (isInternal h).
  - destruct (deserialize _ _ _) as [[body|e]|]; [| |discriminate].
    + destruct (jsstring_eqb _ _);
        [|intros [= <-]; apply Hvia, only_head_sent_same; reflexivity].
      destruct (ack_key body) as [k|];
        [|intros [= <-]; apply Hvia, only_head_sent_same; reflexivity].
      destruct (queue_get k s1); intros [= <-]; apply Hvia;
        [apply only_head_sent_ack|apply only_head_sent_same; reflexivity].
    + intros [= <-]. apply Hvia, only_head_sent_same. reflexivity.
  - destruct (_needDeserialize s1).
    + destruct (deserialize _ _ _) as [[body|e]|]; [| |discriminate];
        intros [= <-]; apply Hvia, only_head_sent_same; reflexivity.
    + intros [= <-]. apply Hvia, only_head_sent_same. reflexivity.
Qed.

Lemma only_head_sent_step s a s' :
  wf s -> step JSON_stringify JSON_parse s a s' -> only_head_sent s s'.
Proof.
  intros Hw Hs.
  destruct Hs as [s messageName data needACK prior|s mid err|s id err Hin|s data fuel s' Hr|s].
  - intros id c c' Hc Hsn Hc' Hs'. unfold send in Hc'.
    rewrite (send_controls_old _ _ _ _ _ _ _ _ Hw Hc) in Hc'. congruence.
  - apply only_head_sent_same. unfold cancel.
    destruct (queue_get mid s); [apply control_cancel_controls|reflexivity].
  - unfold written. set (s1 := set_writing _ s).
    destruct (controls s1 !! id) as [c|];
      [|apply only_head_sent_same; reflexivity].
    destruct (ackWanted c); [destruct err|];
      try (apply only_head_sent_same; reflexivity);
      apply (only_head_sent_ack id _ s1).
  - eapply only_head_sent_receiveData; eassumption.
  - apply only_head_sent_same.
    destruct (on_close_spec (_queue s) s Hw eq_refl) as (_ & H & _). exact H.
Qed.

(** *** An acknowledgement frame *)

Lemma wf_reply h s : wf s -> wf (reply JSON_stringify h s).
Proof.
  intros Hw. unfold reply. destruct (needACK h); [|assumption].
  apply wf_send. apply (wf_ext s); auto.
Qed.

Lemma receive_ack fuel data s h n rest m :
  _deserializeHeader data = Ret h ->
  isInternal h = true -> messageName h = (str "ack") ->
  deserialize JSON_parse fuel (slice_from data (to_num (headerLength h))) =
    Some (Ret (VNumber n :: rest)) ->
  to_num n = JInt m ->
  let s1 := reply JSON_stringify h s in
  _receiveData JSON_stringify JSON_parse fuel data s =
    Some (match queue_get m s1 with
          | Some _ => control_ack m None s1
          | None => s1
          end).
Proof.
  intros Hh Hi Hn Hd Hm s1. rewrite _receiveData_reply, Hh. cbv zeta.
  rewrite Hi, Hd, Hn, jsstring_eqb_refl.
  unfold ack_key. rewrite Hm. fold s1.
  destruct (queue_get m s1); reflexivity.
Qed.
(** *** The claims about the queue *)

Lemma wf_live s : live JSON_stringify JSON_parse s -> wf s.
Proof.
  intros (mp & nd & Hr). eapply wf_reachable; [apply wf_new_socket|eassumption].
Qed.

Lemma settle_resolved_emitted id s : emitted (settle id Resolved s) = emitted s.
Proof. unfold settle. destruct (promises s !! id) as [[| |]|]; reflexivity. Qed.

Lemma control_send_emitted id s : emitted (control_send id s) = emitted s.
Proof.
  unfold control_send. destruct (controls s !! id) as [c|]; [destruct (sent c)|];
    reflexivity.
Qed.

Lemma control_ack_resolved_emitted id s : emitted (control_ack id None s) = emitted s.
Proof.
  destruct (control_ack_unfold id None s) as [->|(h & _ & ->)];
    rewrite ?control_send_emitted; cbn [outcome];
    rewrite settle_resolved_emitted; reflexivity.
Qed.

(** C3.  When the transport closes, the handler goes through the pending
    sends from the last queued to the first and settles every one of them,
    once, as rejected with the connection-aborted error: [settled] grows by
    one entry per queued id, in reverse insertion order; each promise was
    pending and is rejected; the queue ends empty and nothing is
    transmitted.  Each entry [x], when its turn comes (it is then the last
    of the queue), is cancelled if it was not sent, and otherwise, [cancel]
    returning false, is settled through [ack]. *)
Theorem close_settles_all s :
  live JSON_stringify JSON_parse s ->
  let s' := on_close s in
  _queue s' = [] /\
  settled s' =
    settled s ++ map (fun id => (id, Rejected ConnectionAborted)) (rev (_queue s)) /\
  (forall id, In id (_queue s) ->
     promises s !! id = Some Pending /\
     promises s' !! id = Some (Rejected ConnectionAborted)) /\
  (forall id, ~ In id (_queue s) -> promises s' !! id = promises s !! id) /\
  sendData s' = sendData s /\
  forall (t : @socket obj) q x c,
    wf t -> _queue t = q ++ [x] -> controls t !! x = Some c ->
    close_item t x = settle x (Rejected ConnectionAborted) (set_queue q t) /\
    (sent c = false ->
       control_cancel x (Some ConnectionAborted) t = (true, close_item t x)) /\
    (sent c = true ->
       control_cancel x (Some ConnectionAborted) t = (false, t) /\
       close_item t x = control_ack x (Some ConnectionAborted) t).
Proof.
  intros Hl. apply wf_live in Hl as Hw. cbv zeta.
  destruct (on_close_spec (_queue s) s Hw eq_refl) as (Hq & _ & Hd & Hs & Hin & Hout).
  fold (on_close s) in *.
  split; [assumption|]. split; [assumption|].
  split; [intros id Hi; split; [apply (wf_queue s Hw id Hi)|apply Hin; assumption]|].
  split; [assumption|]. split; [assumption|].
  intros t q x c Ht Eq Hc.
  destruct (close_item_last t q x Ht Eq) as [E _].
  split; [assumption|].
  unfold close_item, control_cancel. rewrite Hc.
  split; intros Hsent; rewrite Hsent; [reflexivity|split; reflexivity].
Qed.

(** C4.  A frame whose header is internal and named "ack" and whose body is
    the number [m] resolves the pending send of id [m] and settles no other:
    if [m] is a key of the queue when the body is looked up (after the
    reply, if the frame itself asked for an acknowledgement), its promise
    becomes Resolved, it leaves the queue, every other promise is as it was
    and no 'error' is emitted; if [m] is no key, the frame changes nothing
    beyond that reply. *)
Theorem ack_resolves_exactly s fuel data h n m :
  live JSON_stringify JSON_parse s ->
  _deserializeHeader data = Ret h ->
  isInternal h = true -> messageName h = (str "ack") ->
  deserialize JSON_parse fuel (slice_from data (to_num (headerLength h))) =
    Some (Ret [VNumber n]) ->
  to_num n = JInt m ->
  let s1 := reply JSON_stringify h s in
  (needACK h = false -> s1 = s) /\
  (In m (_queue s1) ->
     exists s', _receiveData JSON_stringify JSON_parse fuel data s = Some s' /\
       promises s1 !! m = Some Pending /\
       promises s' !! m = Some Resolved /\
       (forall id, id <> m -> promises s' !! id = promises s1 !! id) /\
       ~ In m (_queue s') /\
       emitted s' = emitted s1) /\
  (~ In m (_queue s1) ->
     _receiveData JSON_stringify JSON_parse fuel data s = Some s1).
Proof.
  intros Hl Hh Hi Hn Hd Hm s1. apply wf_live in Hl as Hw.
  pose proof (wf_reply h s Hw) as Hw1. fold s1 in Hw1.
  pose proof (receive_ack fuel data s h n [] m Hh Hi Hn Hd Hm) as Hr.
  cbv zeta in Hr. fold s1 in Hr.
  split; [intros Ha; subst s1; unfold reply; rewrite Ha; reflexivity|].
  split.
  - intros Hin. destruct (wf_queue s1 Hw1 m Hin) as [[c Hc] Hp].
    rewrite (proj2 (queue_get_Some m s1 c)) in Hr by auto.
    exists (control_ack m None s1). split; [assumption|].
    destruct (control_ack_settles m None s1 Hw1 Hin) as [Hres Hoth].
    split; [assumption|]. split; [assumption|]. split; [assumption|].
    split; [|apply control_ack_resolved_emitted].
    rewrite control_ack_queue. intros H. apply queue_delete_In in H as [_ H]. congruence.
  - intros Hin. rewrite (proj2 (queue_get_None m s1 Hw1)) in Hr by assumption.
    assumption.
Qed.

(** C5, as the code has it.  In every state reached without a [prior]
    send, be it a [send] of the application or the acknowledgement that
    [_receiveData] sends, with [prior], in reply to a frame that asks for
    one, a control that was sent and is still unsettled is the head of the
    queue, so there is at most one, and the entry behind the head is unsent.
    And in every state the socket can reach, [ack] on a queued entry takes
    it out of the queue and settles its promise with the outcome given,
    touching no other promise; a second [ack] on it changes nothing; if the
    entry was the head and another follows, [send] is called on that one:
    it is transmitted ([sent] set, [_sendData] called with its data) unless
    a [prior] send had transmitted it already; if the entry was not the
    head, nothing is transmitted. *)
Theorem single_flight_settle maxPayload needDeserialize s :
  (reachable JSON_stringify JSON_parse no_prior
     (new_socket maxPayload needDeserialize) s ->
   single_flight s /\
   (forall id1 id2, in_flight s id1 -> in_flight s id2 -> id1 = id2) /\
   (forall id h q c, _queue s = id :: h :: q -> controls s !! h = Some c ->
      sent c = false)) /\
  (reachable JSON_stringify JSON_parse any
     (new_socket maxPayload needDeserialize) s ->
   forall id err, In id (_queue s) ->
    let s' := control_ack id err s in
    ~ In id (_queue s') /\
    promises s' !! id = Some (outcome err) /\
    (forall id', id' <> id -> promises s' !! id' = promises s !! id') /\
    (forall err', control_ack id err' s' = s') /\
    (forall h q, _queue s = id :: h :: q ->
       _queue s' = h :: q /\
       exists c, controls s !! h = Some c /\
         controls s' !! h =
           Some {| data := data c; msgID := msgID c; sent := true;
                   ackWanted := ackWanted c |} /\
         sendData s' =
           if sent c then sendData s else sendData s ++ [(h, data c)]) /\
    (hd_error (_queue s) <> Some id ->
       controls s' = controls s /\ sendData s' = sendData s)).
Proof.
  split.
  - intros Hr.
    destruct (reachable_invariants _ s (wf_new_socket _ _) (head_only_new_socket _ _) Hr)
      as [Hw Hh].
    pose proof (single_flight_of s Hw Hh) as Hsf.
    split; [assumption|].
    split.
    { intros id1 id2 H1 H2. apply Hsf in H1, H2. congruence. }
    intros id h q c Eq Hc.
    assert (In h (_queue s)) as Hhin by (rewrite Eq; right; left; reflexivity).
    destruct (sent c) eqn:E; [|reflexivity].
    pose proof (Hh h c Hhin Hc E) as H. rewrite Eq in H. injection H as ->.
    pose proof (wf_nodup s Hw) as Hnd. rewrite Eq in Hnd.
    inversion Hnd as [|? ? Hn _]. exfalso. apply Hn. left. reflexivity.
  - intros Hr id err Hin. cbv zeta.
    pose proof (wf_reachable any _ s (wf_new_socket _ _) Hr) as Hw.
    destruct (control_ack_settles id err s Hw Hin) as [Hres Hoth].
    split.
    { rewrite control_ack_queue. intros H. apply queue_delete_In in H as [_ H].
      congruence. }
    split; [assumption|]. split; [assumption|].
    split; [intros err'; apply control_ack_twice; assumption|].
    split; [|apply control_ack_not_head].
    intros h q Eq.
    assert (In h (_queue s)) as Hhin by (rewrite Eq; right; left; reflexivity).
    destruct (wf_queue s Hw h Hhin) as [[c Hc] _].
    destruct (sent c) eqn:Hs.
    + destruct (control_ack_head_sent id h q err s Hw Eq c Hc Hs) as (Hq' & Hc' & Hd').
      split; [assumption|]. exists c. rewrite Hs, Hc', Hd', Hc.
      split; [reflexivity|]. split; [|reflexivity].
      destruct c; cbn in *; subst; reflexivity.
    + destruct (control_ack_head id h q err s Hw Eq c Hc Hs) as (Hq' & Hc' & Hd').
      split; [assumption|]. exists c. rewrite Hs. auto.
Qed.

(** C6.  A call of [send] either is rejected at once (nothing is queued or
    transmitted) or queues its entry, and then the entry is transmitted in
    the call exactly when [prior] is set or it is the only entry of the
    queue; when transmitted, [_sendData] is called with its data, otherwise
    not.  An entry that waits is never transmitted by a later action unless
    it has become the head of the queue. *)
Theorem send_transmits_iff_prior_or_alone s messageName (body : payload) needACK prior :
  live JSON_stringify JSON_parse s ->
  let id := fst (send JSON_stringify messageName body needACK prior s) in
  let s' := snd (send JSON_stringify messageName body needACK prior s) in
  id = _messageID s /\
  ((exists e, promises s' !! id = Some (Rejected e)) /\
   _queue s' = _queue s /\ controls s' !! id = None /\ sendData s' = sendData s
   \/
   _queue s' = _queue s ++ [id] /\ promises s' !! id = Some Pending /\
   exists c, controls s' !! id = Some c /\
     (sent c = true <-> prior = true \/ _queue s' = [id]) /\
     (sent c = true -> sendData s' = sendData s ++ [(id, data c)]) /\
     (sent c = false -> sendData s' = sendData s)) /\
  forall a s2, step JSON_stringify JSON_parse s a s2 ->
    forall w c c', controls s !! w = Some c -> sent c = false ->
      controls s2 !! w = Some c' -> sent c' = true ->
      hd_error (_queue s2) = Some w.
Proof.
  intros Hl. apply wf_live in Hl as Hw. cbv zeta. unfold send.
  split; [destruct (_send_cases false prior messageName needACK body s)
            as [[e ->]|[d ->]]; reflexivity|].
  split; [|intros a s2 Hs; apply (only_head_sent_step s a s2 Hw Hs)].
  destruct (_send_cases false prior messageName needACK body s) as [[e ->]|[d ->]];
    cbn [fst snd].
  - left. destruct (rejected_frame e s) as (Eq & Ec & Ed & _ & Hp & _).
    split; [eauto|]. split; [assumption|]. split; [|assumption].
    rewrite Ec. apply (wf_fresh s Hw). lia.
  - right. destruct (enqueue_spec d needACK prior s Hw) as (Eq & Ec & Ed & _ & Ep).
    split; [assumption|]. split; [rewrite Ep; apply lookup_insert_eq|].
    eexists. split; [eassumption|]. cbn [sent data]. rewrite Eq, Ed.
    destruct prior; cbn [orb].
    + split; [tauto|]. split; [reflexivity|discriminate].
    + destruct (_queue s) as [|first q]; cbn [is_empty app].
      * split; [tauto|]. split; [reflexivity|discriminate].
      * split; [|split; [discriminate|reflexivity]].
        split; [discriminate|]. intros [H|H]; [discriminate|].
        destruct q; discriminate.
Qed.

(** C7.  [cancel(messageID, err)] with an error returns true exactly when
    the queue has an entry of that id which was not sent; it then removes
    the entry and rejects its promise with [err], leaving every other promise
    alone and transmitting nothing.  For an entry already sent, and for an id
    the queue does not have, it returns false and changes nothing. *)
Theorem cancel_iff_unsent s messageID e :
  live JSON_stringify JSON_parse s ->
  (fst (cancel messageID (Some e) s) = true <->
   exists c, In messageID (_queue s) /\ controls s !! messageID = Some c /\
             sent c = false) /\
  (forall c, In messageID (_queue s) -> controls s !! messageID = Some c ->
     sent c = false ->
     let s' := snd (cancel messageID (Some e) s) in
     ~ In messageID (_queue s') /\
     promises s' !! messageID = Some (Rejected e) /\
     (forall id, id <> messageID -> promises s' !! id = promises s !! id) /\
     sendData s' = sendData s) /\
  (forall c, In messageID (_queue s) -> controls s !! messageID = Some c ->
     sent c = true -> cancel messageID (Some e) s = (false, s)) /\
  (~ In messageID (_queue s) -> cancel messageID (Some e) s = (false, s)).
Proof.
  intros Hl. apply wf_live in Hl as Hw.
  assert (forall c, In messageID (_queue s) -> controls s !! messageID = Some c ->
            sent c = false ->
            let s' := snd (cancel messageID (Some e) s) in
            fst (cancel messageID (Some e) s) = true /\
            ~ In messageID (_queue s') /\
            promises s' !! messageID = Some (Rejected e) /\
            (forall id, id <> messageID -> promises s' !! id = promises s !! id) /\
            sendData s' = sendData s) as Hun.
  { intros c Hin Hc Hs.
    destruct (cancel_unsent messageID (Some e) s c Hw Hin Hc Hs)
      as (-> & Hq & Hp & Ho & Hd & _).
    cbn [fst snd outcome] in *. auto. }
  split.
  { split.
    - intros Ht. destruct (in_dec Z.eq_dec messageID (_queue s)) as [Hin|Hin].
      + destruct (wf_queue s Hw messageID Hin) as [[c Hc] _].
        exists c. split; [assumption|]. split; [assumption|].
        destruct (sent c) eqn:E; [|reflexivity].
        rewrite (cancel_sent messageID (Some e) s c Hin Hc E) in Ht. discriminate.
      + rewrite (cancel_absent messageID (Some e) s Hw Hin) in Ht. discriminate.
    - intros (c & Hin & Hc & Hs). apply (Hun c Hin Hc Hs). }
  split; [intros c Hin Hc Hs; apply (Hun c Hin Hc Hs)|].
  split; [intros c; apply cancel_sent|apply cancel_absent; assumption].
Qed.

(** C10.  [cancel(messageID)] without the error, on an entry that was not
    sent, returns true, removes the entry and resolves its promise, though
    nothing was transmitted. *)
Theorem cancel_without_error_resolves s messageID c :
  live JSON_stringify JSON_parse s ->
  In messageID (_queue s) -> controls s !! messageID = Some c -> sent c = false ->
  let s' := snd (cancel messageID None s) in
  fst (cancel messageID None s) = true /\
  ~ In messageID (_queue s') /\
  promises s !! messageID = Some Pending /\
  promises s' !! messageID = Some Resolved /\
  sendData s' = sendData s /\
  (forall data, ~ In (messageID, data) (sendData s) ->
                ~ In (messageID, data) (sendData s')).
Proof.
  intros Hl Hin Hc Hs. apply wf_live in Hl as Hw.
  destruct (cancel_unsent messageID None s c Hw Hin Hc Hs)
    as (-> & Hq & Hp & Ho & Hd & _).
  cbn [fst snd outcome] in *.
  split; [reflexivity|]. split; [assumption|].
  split; [apply (wf_queue s Hw messageID Hin)|].
  split; [assumption|]. split; [assumption|].
  intros data H. rewrite Hd. assumption.
Qed.

End QueueProofs.

(** ** The claims about the two variants *)

Section TwoVariants.
Context {obj : Type}.
Variable JSON_stringify : obj -> res (option jsstring).
Variable JSON_parse : jsstring -> option (@value obj).

(** C8, as the code has it.  When [_maxPayload] is a number and the frame
    (header and body) is longer than it, the promise of [_send] is rejected
    at once with the size error, before any entry is made: the queue, the
    controls and the calls of [_sendData] are as before.  A frame within the
    limit is queued.  In the first variant an undefined [_maxPayload] means
    no limit; 0 is a limit like any other, and rejects every frame.  The
    second variant rejects a frame that is as long as the limit too, and its
    constructor turns an undefined [maxPayload] into 100 MiB. *)
Theorem payload_limit (s : @socket obj) isInternal prior messageName needACK items body
    (o2b_serialize : list (@value obj) -> res (list byte)) :
  serialize JSON_stringify items = Ret body ->
  let id := _messageID s in
  let frame := _serializeHeader isInternal messageName needACK (of_int id) ++ body in
  let r := _send JSON_stringify isInternal prior messageName needACK (DArray items) s in
  (forall maxPayload, _maxPayload s = Some maxPayload -> maxPayload < len frame ->
     fst r = id /\
     promises (snd r) !! id = Some (Rejected PayloadTooLarge) /\
     _queue (snd r) = _queue s /\ controls (snd r) = controls s /\
     sendData (snd r) = sendData s) /\
  (forall maxPayload, _maxPayload s = Some maxPayload -> len frame <= maxPayload ->
     r = (id, enqueue id frame needACK prior (promised s))) /\
  (_maxPayload s = None -> r = (id, enqueue id frame needACK prior (promised s))) /\
  (_maxPayload s = Some 0 ->
     promises (snd r) !! id = Some (Rejected PayloadTooLarge) /\
     _queue (snd r) = _queue s) /\
  (forall header body' maxPayload,
     Canonical._serializeHeader o2b_serialize isInternal (VString messageName) needACK
       (of_int id) = Ret header ->
     o2b_serialize items = Ret body' ->
     _maxPayload s = Some maxPayload ->
     let r' :=
       Canonical._send o2b_serialize isInternal prior (VString messageName) needACK
         (DArray items) s in
     (maxPayload <= len (header ++ body') ->
        fst r' = id /\
        promises (snd r') !! id = Some (Rejected PayloadTooLarge) /\
        _queue (snd r') = _queue s /\ controls (snd r') = controls s /\
        sendData (snd r') = sendData s) /\
     (len (header ++ body') < maxPayload ->
        r' = (id, enqueue id (header ++ body') needACK prior (promised s)))) /\
  (forall needDeserialize,
     _maxPayload (@Canonical.new_socket obj None needDeserialize)
     = Some (1024 * 1024 * 100)).
Proof.
  intros Hser id frame r.
  pose proof (_send_array JSON_stringify isInternal prior messageName needACK
                items body s Hser) as E.
  cbv zeta in E. fold id in E. fold frame in E. fold r in E.
  destruct (rejected_frame PayloadTooLarge s) as (Eq & Ec & Ed & _ & Ep & _).
  fold id in Ep.
  assert (forall maxPayload, _maxPayload s = Some maxPayload -> maxPayload < len frame ->
            fst r = id /\
            promises (snd r) !! id = Some (Rejected PayloadTooLarge) /\
            _queue (snd r) = _queue s /\ controls (snd r) = controls s /\
            sendData (snd r) = sendData s) as Hrej.
  { intros m Hm Hlt. rewrite E, Hm.
    destruct (Z.ltb_spec m (len frame)); [|lia]. cbn [fst snd]. auto. }
  split; [exact Hrej|].
  split.
  { intros m Hm Hle. rewrite E, Hm. destruct (Z.ltb_spec m (len frame)); [lia|reflexivity]. }
  split; [intros Hm; rewrite E, Hm; reflexivity|].
  split.
  { intros Hm.
    assert (0 < len frame) as Hpos.
    { subst frame. rewrite len_app, len_serializeHeader.
      pose proof (len_nonneg (Buffer_from messageName)). pose proof (len_nonneg body). lia. }
    destruct (Hrej 0 Hm Hpos) as (_ & H1 & H2 & _). auto. }
  split; [|reflexivity].
  intros header body' m Hh Hb' Hm r'.
  pose proof (canonical_send_array o2b_serialize isInternal prior (VString messageName)
                needACK items header body' s Hh Hb') as E'.
  cbv zeta in E'. fold id in E'. fold r' in E'. rewrite Hm in E'.
  split; intros Hc; rewrite E'.
  - destruct (Z.leb_spec m (len (header ++ body'))); [|lia]. cbn [fst snd]. auto.
  - destruct (Z.leb_spec m (len (header ++ body'))); [lia|reflexivity].
Qed.

(** C9, as the code has it.  For a message name that is a well-formed
    string, both header layouts round-trip, and the [headerLength] that
    [_deserializeHeader] returns is the offset at which the body begins.  In
    the first variant the length field at the front counts the whole header,
    itself included, and [headerLength] is its value; in the second it
    counts what follows it, and [headerLength] is its value plus 8.  The
    array of the second layout is written and read by object2buffer: there
    the round trip is that of its codec, and the value codec of the first
    variant is a codec that has it. *)
Theorem header_round_trip isInternal messageName needACK messageID (body : list byte) :
  0 <= messageID < 2 ^ 64 -> canon messageID = messageID ->
  well_formed messageName = true ->
  (let hdr := _serializeHeader isInternal messageName needACK messageID in
   small (hdr ++ body) ->
   exists headerLength,
     _deserializeHeader (hdr ++ body) =
       Ret {| isInternal := isInternal; messageName := messageName;
              needACK := needACK; messageID := messageID;
              headerLength := headerLength |} /\
     readDoubleBE (hdr ++ body) (JInt 0) = Ret headerLength /\
     to_num headerLength = JInt (len hdr) /\
     slice_from (hdr ++ body) (to_num headerLength) = body) /\
  (forall (o2b_serialize : list (@value obj) -> res (list byte))
          (o2b_deserialize : list byte -> res (list (@value obj))) hb,
   o2b_serialize [VBoolean isInternal; VBoolean needACK; VNumber messageID;
                  VString messageName] = Ret hb ->
   o2b_deserialize hb = Ret [VBoolean isInternal; VBoolean needACK; VNumber messageID;
                             VString messageName] ->
   exists hdr,
     Canonical._serializeHeader o2b_serialize isInternal (VString messageName) needACK
       messageID = Ret hdr /\
     (small (hdr ++ body) ->
      exists h prefix,
        Canonical._deserializeHeader o2b_deserialize (hdr ++ body) = Ret h /\
        Canonical.isInternal h = VBoolean isInternal /\
        Canonical.messageName h = VString messageName /\
        Canonical.needACK h = VBoolean needACK /\
        Canonical.messageID h = VNumber messageID /\
        readDoubleBE (hdr ++ body) (JInt 0) = Ret prefix /\
        Canonical.headerLength h = js_add (JInt 8) (to_num prefix) /\
        Canonical.headerLength h = JInt (len hdr) /\
        slice_from (hdr ++ body) (Canonical.headerLength h) = body)) /\
  (exists hb,
     serialize JSON_stringify [VBoolean isInternal; VBoolean needACK; VNumber messageID;
                               VString messageName] = Ret hb /\
     (small hb ->
      deserialize_whole JSON_parse hb =
        Ret [VBoolean isInternal; VBoolean needACK; VNumber messageID;
             VString messageName])).
Proof.
  intros Hid Hc Hwf. split; [|split].
  - intros hdr Hs. subst hdr.
    pose proof (len_serializeHeader isInternal messageName needACK messageID) as Hl.
    pose proof (_deserializeHeader_serializeHeader isInternal messageName needACK
                  messageID body Hid Hc Hs) as E.
    rewrite (toString_Buffer_from messageName Hwf) in E.
    unfold small in Hs. rewrite len_app, Hl in Hs.
    pose proof (len_nonneg (Buffer_from messageName)). pose proof (len_nonneg body).
    eexists. split; [exact E|].
    repeat split.
    + rewrite _serializeHeader_bytes.
      rewrite (readDoubleBE_in _ [] (writeDoubleBE (of_int (26 + len (Buffer_from messageName))))
                 (byte_of_Z (flag isInternal)
                  :: writeDoubleBE (of_int (len (Buffer_from messageName)))
                  ++ Buffer_from messageName
                  ++ byte_of_Z (flag needACK) :: writeDoubleBE messageID ++ body) 0);
        [|list_eq|reflexivity|apply length_writeDoubleBE].
      rewrite be_decode_writeDoubleBE by (apply of_int_double; lia).
      rewrite canon_of_int by lia. reflexivity.
    + rewrite to_num_of_int, Hl by lia. reflexivity.
    + rewrite to_num_of_int by lia.
      apply (slice_from_in _ (_serializeHeader isInternal messageName needACK messageID) body);
        [reflexivity|assumption].
  - intros o2b_serialize o2b_deserialize hb Hser Hdes.
    exists (writeDoubleBE (of_int (len hb)) ++ hb).
    split; [unfold Canonical._serializeHeader; rewrite Hser; reflexivity|].
    intros Hs.
    destruct (canonical_header o2b_serialize o2b_deserialize isInternal
                (VString messageName) needACK messageID hb body Hser Hdes Hs) as [_ E].
    unfold small in Hs. rewrite !len_app, len_writeDoubleBE in Hs.
    pose proof (len_nonneg hb). pose proof (len_nonneg body).
    eexists. exists (of_int (len hb)). split; [exact E|].
    cbn [Canonical.isInternal Canonical.messageName Canonical.needACK
         Canonical.messageID Canonical.headerLength].
    do 4 (split; [reflexivity|]).
    split.
    { rewrite (readDoubleBE_in _ [] (writeDoubleBE (of_int (len hb))) (hb ++ body) 0);
        [|list_eq|reflexivity|apply length_writeDoubleBE].
      rewrite be_decode_writeDoubleBE by (apply of_int_double; lia).
      rewrite canon_of_int by lia. reflexivity. }
    split; [rewrite to_num_of_int, js_add_int by lia; reflexivity|].
    split; [rewrite len_app, len_writeDoubleBE; reflexivity|].
    apply (slice_from_in _ (writeDoubleBE (of_int (len hb)) ++ hb) body);
      [reflexivity|rewrite len_app, len_writeDoubleBE; reflexivity].
  - set (v := [VBoolean isInternal; VBoolean needACK; VNumber messageID;
               @VString obj messageName]).
    assert (Forall plain v) as Hp.
    { subst v. repeat (apply List.Forall_cons; [cbn; auto|]). apply List.Forall_nil. }
    assert (Forall well_formed_value v) as Hw.
    { subst v. repeat (apply List.Forall_cons; [cbn; auto|]). apply List.Forall_nil. }
    destruct (serialize_plain JSON_stringify v Hp) as [hb Hser].
    exists hb. split; [assumption|]. intros Hs.
    assert (length v < S (length hb))%nat as Hf.
    { subst v. cbn in Hser. injection Hser as <-. cbn [length]. lia. }
    unfold deserialize_whole.
    rewrite (deserialize_transported JSON_stringify JSON_parse v hb _ Hp Hser Hs Hf).
    rewrite transported_well_formed by assumption. reflexivity.
Qed.

End TwoVariants.

(** ** The theorems at work on the run [run0] ... [run3] *)

Lemma run2_quiet :
  reachable toy_stringify toy_parse no_prior (new_socket None true) run2.
Proof.
  apply (reach_step _ _ _ _ run1 (Send (str "second") (DArray []) true false));
    [|reflexivity|apply step_send].
  apply (reach_step _ _ _ _ run0
           (Send (str "greet") (DArray [VString (str "hi"); VNumber (of_int 42); VBoolean true])
              true false));
    [|reflexivity|apply step_send].
  apply reach_init.
Defined.

Lemma run2_any :
  reachable toy_stringify toy_parse any (new_socket None true) run2.
Proof.
  apply (reach_step _ _ _ _ run1 (Send (str "second") (DArray []) true false));
    [|exact I|apply step_send].
  apply (reach_step _ _ _ _ run0
           (Send (str "greet") (DArray [VString (str "hi"); VNumber (of_int 42); VBoolean true])
              true false));
    [|exact I|apply step_send].
  apply reach_init.
Defined.

Lemma run1_live : live toy_stringify toy_parse run1.
Proof.
  exists None, true.
  apply (reach_step _ _ _ _ run0
           (Send (str "greet") (DArray [VString (str "hi"); VNumber (of_int 42); VBoolean true])
              true false));
    [|exact I|apply step_send].
  apply reach_init.
Defined.

Lemma run2_live : live toy_stringify toy_parse run2.
Proof.
  destruct run1_live as (mp & nd & H). exists mp, nd.
  apply (reach_step _ _ _ _ run1 (Send (str "second") (DArray []) true false));
    [exact H|exact I|apply step_send].
Defined.

Lemma run3_live : live toy_stringify toy_parse run3.
Proof.
  destruct run2_live as (mp & nd & H). exists mp, nd.
  apply (reach_step _ _ _ _ run2 (Send (str "third") (DArray []) true true));
    [exact H|exact I|apply step_send].
Defined.

(** C3 on [run3]: ids 0 and 2 were sent, 1 waits; all three are rejected,
    2 first and 0 last. *)
Lemma close_settles_all_witness :
  _queue run3 = [0; 1; 2] /\
  _queue (on_close run3) = [] /\
  settled (on_close run3) =
    [(2, Rejected ConnectionAborted); (1, Rejected ConnectionAborted);
     (0, Rejected ConnectionAborted)].
Proof.
  destruct (close_settles_all toy_stringify toy_parse run3 run3_live) as (Hq & Hs & _).
  split; [vm_compute; reflexivity|]. split; [exact Hq|].
  rewrite Hs. vm_compute. reflexivity.
Defined.

(** C4 on [run2]: the frame [ack [0]] resolves the send of id 0. *)
Lemma ack_resolves_exactly_witness :
  let data := _serializeHeader true (str "ack") false (of_int 7)
              ++ byte_of_Z 0 :: writeDoubleBE (of_int 0) in
  exists s', _receiveData toy_stringify toy_parse 2 data run2 = Some s' /\
             promises run2 !! 0 = Some Pending /\
             promises s' !! 0 = Some Resolved /\
             promises s' !! 1 = Some Pending.
Proof.
  intros data.
  destruct (ack_resolves_exactly toy_stringify toy_parse run2 2 data
              {| isInternal := true; messageName := (str "ack"); needACK := false;
                 messageID := of_int 7; headerLength := of_int 29 |}
              (of_int 0) 0 run2_live)
    as (Hsame & Hin & _);
    [vm_compute; reflexivity|reflexivity|reflexivity|vm_compute; reflexivity
    |vm_compute; reflexivity|].
  cbv zeta in *. rewrite (Hsame eq_refl) in Hin.
  destruct Hin as (s' & Hr & Hp & Hres & Hoth & _); [left; reflexivity|].
  exists s'. split; [exact Hr|]. split; [exact Hp|]. split; [exact Hres|].
  rewrite Hoth by discriminate. vm_compute. reflexivity.
Defined.

(** C5 on [run2]: id 0 is in flight, id 1 waits; acknowledging 0 transmits 1. *)
Lemma single_flight_settle_witness :
  single_flight run2 /\
  _queue (control_ack 0 None run2) = [1] /\
  promises (control_ack 0 None run2) !! 0 = Some Resolved /\
  control_ack 0 (Some ConnectionAborted) (control_ack 0 None run2) =
    control_ack 0 None run2.
Proof.
  destruct (single_flight_settle toy_stringify toy_parse None true run2) as (Hinv & Hack).
  destruct (Hinv run2_quiet) as (Hsf & _).
  split; [exact Hsf|].
  destruct (Hack run2_any 0 None) as (_ & Hres & _ & Htwice & Hhead & _);
    [left; reflexivity|].
  destruct (Hhead 1 []) as (Hq & _); [vm_compute; reflexivity|].
  split; [exact Hq|]. split; [exact Hres|]. apply Htwice.
Defined.

(** The acknowledgement the socket sends for a frame that asks for one is a
    [prior] send of its own: after [send("greet", ...)] and the arrival of
    the frame [ping0], with no [prior] send of the application, messages 0
    and 1 are both sent and unsettled.  The claim as stated fails there. *)
Lemma reply_breaks_single_flight :
  reachable toy_stringify toy_parse no_prior_send (new_socket None true) run1_asked /\
  in_flight run1_asked 0 /\ in_flight run1_asked 1 /\
  ~ single_flight run1_asked.
Proof.
  assert (in_flight run1_asked 1) as H1.
  { eexists. split; [vm_compute; reflexivity|]. split; vm_compute; reflexivity. }
  split.
  { apply (reach_step _ _ _ _ run1 (Receive ping0));
      [|exact I|apply (step_receive _ _ run1 ping0 1); vm_compute; reflexivity].
    apply (reach_step _ _ _ _ run0
             (Send (str "greet")
                (DArray [VString (str "hi"); VNumber (of_int 42); VBoolean true])
                true false));
      [apply reach_init|reflexivity|apply step_send]. }
  split.
  { eexists. split; [vm_compute; reflexivity|]. split; vm_compute; reflexivity. }
  split; [exact H1|].
  intros Hsf. specialize (Hsf 1 H1). vm_compute in Hsf. discriminate Hsf.
Qed.

(** C6 on [run1]: the second send finds the first in the queue and waits. *)
Lemma send_transmits_iff_prior_or_alone_witness :
  fst (send toy_stringify (str "second") (DArray []) true false run1) = 1 /\
  _queue run2 = [0; 1] /\
  (sent <$> controls run1 !! 0) = Some true /\
  (sent <$> controls run2 !! 1) = Some false.
Proof.
  destruct (send_transmits_iff_prior_or_alone toy_stringify toy_parse run1 (str "second")
              (DArray []) true false run1_live) as (Hid & _ & _).
  split; [exact Hid|]. repeat split; vm_compute; reflexivity.
Defined.

(** C7 on [run2]: id 1 waits and can be cancelled, id 0 cannot. *)
Lemma cancel_iff_unsent_witness :
  fst (cancel 1 (Some (Other "stop")) run2) = true /\
  promises (snd (cancel 1 (Some (Other "stop")) run2)) !! 1 =
    Some (Rejected (Other "stop")) /\
  cancel 0 (Some (Other "stop")) run2 = (false, run2).
Proof.
  destruct (cancel_iff_unsent toy_stringify toy_parse run2 1 (Other "stop") run2_live)
    as (Hiff & Hun & _).
  destruct (cancel_iff_unsent toy_stringify toy_parse run2 0 (Other "stop") run2_live)
    as (_ & _ & Hsent & _).
  split.
  { apply Hiff. eexists. split; [right; left; reflexivity|].
    split; [vm_compute; reflexivity|reflexivity]. }
  split.
  { eapply Hun; [right; left; reflexivity|vm_compute; reflexivity|reflexivity]. }
  eapply Hsent; [left; reflexivity|vm_compute; reflexivity|reflexivity].
Defined.

(** C10 on [run2]: cancelling id 1 without an error resolves its promise. *)
Lemma cancel_without_error_resolves_witness :
  fst (cancel 1 None run2) = true /\
  promises (snd (cancel 1 None run2)) !! 1 = Some Resolved /\
  sendData (snd (cancel 1 None run2)) = sendData run2.
Proof.
  destruct (cancel_without_error_resolves toy_stringify toy_parse run2 1
              {| data := _serializeHeader false (str "second") true (of_int 1);
                 msgID := 1; sent := false; ackWanted := true |} run2_live)
    as (Ht & _ & _ & Hres & Hd & _);
    [right; left; reflexivity|vm_compute; reflexivity|reflexivity|].
  auto.
Defined.

(** C8 at the scenario: a limit of 10 bytes and the frame of
    [send("x", ["a very long string"])]. *)
Lemma payload_limit_witness :
  let s : @socket unit := new_socket (Some 10) true in
  let r := _send toy_stringify false false (str "x") true
             (DArray [VString (str "a very long string")]) s in
  promises (snd r) !! 0 = Some (Rejected PayloadTooLarge) /\ _queue (snd r) = [].
Proof.
  intros s r.
  destruct (payload_limit toy_stringify s false false (str "x") true
              [VString (str "a very long string")]
              (byte_of_Z 1 :: writeDoubleBE (of_int 18)
               ++ Buffer_from (str "a very long string"))
              (serialize toy_stringify) eq_refl) as (Hrej & _).
  destruct (Hrej 10 eq_refl) as (_ & Hp & Hq & _); [vm_compute; reflexivity|].
  split; [exact Hp|exact Hq].
Defined.

(** With a limit of 0 the first variant rejects the smallest frame: the
    claim that 0 means no limit fails there. *)
Lemma zero_limit_rejects :
  let s : @socket unit := new_socket (Some 0) true in
  let r := send toy_stringify (str "x") (DArray []) true false s in
  _maxPayload s = Some 0 /\
  promises (snd r) !! 0 = Some (Rejected PayloadTooLarge) /\
  _queue (snd r) = [] /\ sendData (snd r) = [].
Proof. vm_compute. repeat split; reflexivity. Qed.

(** C9 at the header of an acknowledgement, in both layouts. *)
Lemma header_round_trip_witness :
  (exists headerLength,
     _deserializeHeader (_serializeHeader true (str "ack") false (of_int 7) ++ [x03]) =
       Ret {| isInternal := true; messageName := (str "ack"); needACK := false;
              messageID := of_int 7; headerLength := headerLength |} /\
     to_num headerLength = JInt 29) /\
  (exists hdr h,
     Canonical._serializeHeader toy_o2b_serialize true (VString (str "ack")) false (of_int 7)
       = Ret hdr /\
     Canonical._deserializeHeader toy_o2b_deserialize (hdr ++ [x03]) = Ret h /\
     Canonical.headerLength h = JInt (len hdr)).
Proof.
  destruct (header_round_trip toy_stringify toy_parse true (str "ack") false (of_int 7)
              [x03])
    as (Hold & Hcan & _); [vm_compute; split; congruence|reflexivity|reflexivity|].
  split.
  - destruct Hold as (hl & E & _ & Hl & _); [vm_compute; reflexivity|].
    exists hl. split; [exact E|]. rewrite Hl. vm_compute. reflexivity.
  - destruct (Hcan toy_o2b_serialize toy_o2b_deserialize
                (byte_of_Z 2 :: byte_of_Z 1 :: byte_of_Z 2 :: byte_of_Z 0
                 :: byte_of_Z 0 :: writeDoubleBE (of_int 7)
                 ++ byte_of_Z 1 :: writeDoubleBE (of_int 3) ++ Buffer_from (str "ack")))
      as (hdr & Hs & Hd); [vm_compute; reflexivity|vm_compute; reflexivity|].
    assert (small (hdr ++ [x03])) as Hsm.
    { vm_compute in Hs. injection Hs as <-. vm_compute. reflexivity. }
    destruct (Hd Hsm) as (h & prefix & E & _ & _ & _ & _ & _ & _ & Hl & _).
    exists hdr, h. auto.
Defined.

(** In the first layout the length field counts itself: the header of
    [("", 0)] is 26 bytes long, its length field holds 26, and
    [headerLength] is 26, not 26 + 8.  And a name that is one surrogate
    without its partner, ["\ud800"], is read back as ["\ufffd"]. *)
Lemma first_layout_prefix_counts_itself :
  let data := _serializeHeader false (str "") false 0 in
  (len data = 26 /\
   exists prefix h,
     readDoubleBE data (JInt 0) = Ret prefix /\ to_num prefix = JInt 26 /\
     _deserializeHeader data = Ret h /\
     to_num (headerLength h) = JInt 26 /\
     to_num (headerLength h) <> js_add (to_num prefix) (JInt 8)) /\
  exists h,
    _deserializeHeader (_serializeHeader false [Char16 xd8 x00] false 0) = Ret h /\
    messageName h = [Char16 xff xfd] /\
    code (Char16 xff xfd) <> code (Char16 xd8 x00).
Proof.
  split.
  - split; [vm_compute; reflexivity|].
    exists (of_int 26).
    exists {| isInternal := false; messageName := (str ""); needACK := false; messageID := 0;
              headerLength := of_int 26 |}.
    repeat split; try (vm_compute; reflexivity).
    vm_compute. discriminate.
  - eexists. split; [vm_compute; reflexivity|].
    split; [reflexivity|]. vm_compute. discriminate.
Qed.

(** * More of the code *)

Ltac fields :=
  cbn [_messageID _queue _maxPayload _needDeserialize controls promises catching
       settled sendData writing emitted set_messageID set_queue set_controls
       set_promises set_catching set_settled set_sendData set_writing emit] in *.

(** ** The value codec, further *)

Section CodecMore.
Context {obj : Type}.
Variable JSON_stringify : obj -> res (option jsstring).
Variable JSON_parse : jsstring -> option (@value obj).

Lemma serialize_app (a b : list (@value obj)) :
  serialize JSON_stringify (a ++ b) =
  do x <- serialize JSON_stringify a;
  do y <- serialize JSON_stringify b;
  Ret (x ++ y).
Proof.
  induction a as [|item a IH]; cbn [app serialize bind].
  - destruct (serialize _ b); reflexivity.
  - destruct (serialize_item _ item) as [b1|]; cbn [bind]; [|reflexivity].
    rewrite IH. destruct (serialize _ a) as [x|]; cbn [bind]; [|reflexivity].
    destruct (serialize _ b) as [y|]; cbn [bind]; [|reflexivity].
    rewrite app_assoc. reflexivity.
Qed.

Lemma deserialize_of_serialize (v : list (@value obj)) bytes fuel :
  Forall plain v -> Forall well_formed_value v ->
  serialize JSON_stringify v = Ret bytes -> small bytes ->
  (length v < fuel)%nat ->
  deserialize JSON_parse fuel bytes = Some (Ret v).
Proof.
  intros Hp Hwf Hser Hs Hf.
  rewrite (deserialize_transported JSON_stringify JSON_parse v bytes fuel Hp Hser Hs Hf).
  rewrite transported_well_formed by assumption. reflexivity.
Qed.

(** X1.  [serialize] goes item by item: the buffer of [a ++ b] is the buffer
    of [a] followed by the buffer of [b]; and when the items are of the six
    variants and their strings are well formed, [deserialize] reads the two
    buffers put end to end back as [a ++ b]. *)
Theorem serialize_concat (a b : list (@value obj)) x y fuel :
  serialize JSON_stringify a = Ret x -> serialize JSON_stringify b = Ret y ->
  serialize JSON_stringify (a ++ b) = Ret (x ++ y) /\
  (Forall plain a -> Forall plain b ->
   Forall well_formed_value a -> Forall well_formed_value b ->
   small (x ++ y) -> (length a + length b < fuel)%nat ->
   deserialize JSON_parse fuel (x ++ y) = Some (Ret (a ++ b))).
Proof.
  intros Ha Hb.
  assert (serialize JSON_stringify (a ++ b) = Ret (x ++ y)) as Hab
    by (rewrite serialize_app, Ha, Hb; reflexivity).
  split; [assumption|].
  intros Pa Pb Wa Wb Hs Hf.
  apply deserialize_of_serialize; try assumption.
  - apply Forall_app; split; assumption.
  - apply Forall_app; split; assumption.
  - rewrite length_app. assumption.
Qed.

(** X2.  An item whose [typeof] is neither number, string, boolean,
    undefined nor object (a function, a symbol) matches no case of the
    switch: [serialize] writes nothing for it and the buffer is that of the
    array without the item. *)
Theorem serialize_skips_functions (a b : list (@value obj)) :
  serialize JSON_stringify (a ++ VFunction :: b) = serialize JSON_stringify (a ++ b).
Proof.
  rewrite !serialize_app. cbn [serialize serialize_item bind].
  destruct (serialize _ a) as [x|]; cbn [bind]; [|reflexivity].
  destruct (serialize _ b) as [y|]; reflexivity.
Qed.

(** X3.  [serialize] throws only in its object branch: if it throws, the
    array holds an object on which [JSON.stringify] threw that very error,
    or returned [undefined], and then the error is the TypeError of
    [Buffer.from(undefined)]; if [JSON.stringify] returns a text for every
    object of the array, [serialize] returns a buffer. *)
Theorem serialize_throws (v : list (@value obj)) :
  (forall e, serialize JSON_stringify v = Throw e ->
     exists o, In (VObject o) v /\
       (JSON_stringify o = Throw e \/
        (JSON_stringify o = Ret None /\ e = TypeError))) /\
  ((forall o, In (VObject o) v -> exists text, JSON_stringify o = Ret (Some text)) ->
     exists bytes, serialize JSON_stringify v = Ret bytes).
Proof.
  induction v as [|item v [IH1 IH2]].
  - split; [discriminate|]. intros _. eexists. reflexivity.
  - split.
    + intros e. cbn [serialize].
      destruct (serialize_item _ item) as [b1|e1] eqn:E1; cbn [bind].
      * destruct (serialize _ v) as [b2|e2]; cbn [bind]; [discriminate|].
        intros [= <-]. destruct (IH1 e2 eq_refl) as (o & Hin & Ho).
        exists o. split; [right; assumption|assumption].
      * intros [= <-]. destruct item; cbn [serialize_item] in E1; try discriminate.
        exists o. split; [left; reflexivity|].
        destruct (JSON_stringify o) as [[text|]|e0]; cbn [bind] in E1;
          [discriminate|right|left]; injection E1 as <-; auto.
    + intros H. cbn [serialize].
      destruct IH2 as [b2 ->]; [intros o Ho; apply H; right; assumption|].
      destruct (serialize_item _ item) as [b1|e1] eqn:E1; cbn [bind]; [eauto|].
      destruct item; cbn [serialize_item] in E1; try discriminate.
      destruct (H o) as [text Ht]; [left; reflexivity|].
      rewrite Ht in E1. cbn [bind] in E1. discriminate.
Qed.

(** The errors of the loop. *)
Lemma loop_errors fuel : forall data previous (result : list (@value obj)) e,
  deserialize_loop JSON_parse fuel data previous result = Some (Throw e) ->
  e = RangeError \/ e = SyntaxError \/ exists t, e = TypeNotExist t /\ 6 < t < 256.
Proof.
  induction fuel as [|fuel IH]; intros data previous result e H; [discriminate|].
  rewrite deserialize_loop_S in H.
  destruct (js_lt previous (JInt (len data))); [|discriminate].
  destruct (readUInt8 data previous) as [type|e0] eqn:Er.
  2:{ injection H as <-. unfold readUInt8 in Er.
      destruct (valid_offset _ _ _); [discriminate|]. injection Er as <-. auto. }
  assert (0 <= type < 256) as Ht.
  { unfold readUInt8 in Er. destruct (valid_offset _ _ _); [|discriminate].
    injection Er as <-. apply Z_of_byte_range. }
  cbv zeta in H.
  set (p1 := js_add previous (JInt 1)) in *. clearbody p1.
  assert (forall p x e', readDoubleBE data p = @Throw Z e' -> x = e' -> x = RangeError) as Hd.
  { intros p x e' Hr ->. unfold readDoubleBE in Hr.
    destruct (valid_offset _ _ _); [discriminate|]. congruence. }
  assert (forall p x e', readUInt8 data p = @Throw Z e' -> x = e' -> x = RangeError) as Hu.
  { intros p x e' Hr ->. unfold readUInt8 in Hr.
    destruct (valid_offset _ _ _); [discriminate|]. congruence. }
  destruct (Z.eqb_spec type 0).
  { destruct (readDoubleBE data p1) eqn:E; [eapply IH; eassumption|].
    left. eapply Hd; [eassumption|congruence]. }
  destruct (Z.eqb_spec type 1).
  { destruct (readDoubleBE data p1) eqn:E; [eapply IH; eassumption|].
    left. eapply Hd; [eassumption|congruence]. }
  destruct (Z.eqb_spec type 2).
  { destruct (readUInt8 data p1) eqn:E; [eapply IH; eassumption|].
    left. eapply Hu; [eassumption|congruence]. }
  destruct (Z.eqb_spec type 4); [eapply IH; eassumption|].
  destruct (Z.eqb_spec type 3); [eapply IH; eassumption|].
  destruct (Z.eqb_spec type 6).
  { destruct (readDoubleBE data p1) eqn:E; [eapply IH; eassumption|].
    left. eapply Hd; [eassumption|congruence]. }
  destruct (Z.eqb_spec type 5).
  { destruct (readDoubleBE data p1) eqn:E.
    - destruct (JSON_parse _); [eapply IH; eassumption|].
      injection H as <-. auto.
    - left. eapply Hd; [eassumption|congruence]. }
  injection H as <-. right. right. exists type. split; [reflexivity|lia].
Qed.

(** X4.  Whatever the buffer, [deserialize] throws nothing but a
    RangeError (a read past the end), the SyntaxError of [JSON.parse], or
    its own "data type don`t exist" error, and that one only with a tag
    byte from 7 to 255. *)
Theorem deserialize_errors fuel data e :
  deserialize JSON_parse fuel data = Some (Throw e) ->
  e = RangeError \/ e = SyntaxError \/ exists t, e = TypeNotExist t /\ 6 < t < 256.
Proof. apply loop_errors. Qed.

End CodecMore.

(** ** From the parts of an action to every run *)

Section Kept.
Context {obj : Type}.
Variable JSON_stringify : obj -> res (option jsstring).
Variable JSON_parse : jsstring -> option (@value obj).
Implicit Types s : @socket obj.

(** A property of the queue, the controls, the promises, the counter and the
    calls of [_sendData] that [control.ack], [control.cancel] and the sends
    the actions in [P] make keep, is kept by every action in [P]. *)
Variable P : @action obj -> Prop.
Variable I : @socket obj -> Prop.

Hypothesis I_ext : forall s s',
  _queue s' = _queue s -> controls s' = controls s -> promises s' = promises s ->
  _messageID s' = _messageID s -> sendData s' = sendData s -> I s -> I s'.
Hypothesis I_ack : forall id err s, wf s -> I s -> I (control_ack id err s).
Hypothesis I_cancel : forall id err s, wf s -> I s -> I (snd (control_cancel id err s)).
Hypothesis I_send : forall messageName data needACK prior s,
  P (Send messageName data needACK prior) -> wf s -> I s ->
  I (snd (send JSON_stringify messageName data needACK prior s)).
Hypothesis I_reply : forall data h s,
  P (Receive data) -> _deserializeHeader data = Ret h -> wf s -> I s ->
  I (reply JSON_stringify h s).

Lemma kept_written id err s : wf s -> I s -> I (written id err s).
Proof.
  intros Hw Hi. unfold written.
  set (s1 := set_writing _ s).
  assert (wf s1) as Hw1 by (apply (wf_ext s); auto).
  assert (I s1) as Hi1 by (apply (I_ext s); auto).
  destruct (controls s1 !! id) as [c|]; [|assumption].
  destruct (ackWanted c); [destruct err|]; try assumption; apply I_ack; assumption.
Qed.

Lemma kept_cancel messageID err s : wf s -> I s -> I (snd (cancel messageID err s)).
Proof.
  intros Hw Hi. unfold cancel. destruct (queue_get messageID s); [|assumption].
  apply I_cancel; assumption.
Qed.

Lemma kept_close_item s item : wf s -> I s -> I (close_item s item).
Proof.
  intros Hw Hi. unfold close_item.
  pose proof (I_cancel item (Some ConnectionAborted) s Hw Hi) as H1.
  pose proof (wf_control_cancel item (Some ConnectionAborted) s Hw) as W1.
  destruct (control_cancel item (Some ConnectionAborted) s) as [[|] s1];
    cbn [snd] in H1, W1; [assumption|apply I_ack; assumption].
Qed.

Lemma kept_on_close s : wf s -> I s -> I (on_close s).
Proof.
  unfold on_close. generalize (rev (_queue s)). intros l. revert s.
  induction l as [|item l IH]; intros s Hw Hi; cbn [fold_left]; [assumption|].
  apply IH; [apply wf_close_item|apply kept_close_item]; assumption.
Qed.

Lemma kept_receiveData fuel data s s' :
  P (Receive data) -> wf s -> I s ->
  _receiveData JSON_stringify JSON_parse fuel data s = Some s' -> I s'.
Proof.
  intros Hp Hw Hi. rewrite _receiveData_reply.
  destruct (_deserializeHeader data) as [h|e] eqn:Eh.
  2:{ intros [= <-]. apply (I_ext s); auto. }
  cbv zeta.
  pose proof (I_reply data h s Hp Eh Hw Hi) as Hi1.
  pose proof (wf_reply JSON_stringify h s Hw) as Hw1.
  set (s1 := reply JSON_stringify h s) in *. clearbody s1.
  destruct (isInternal h).
  - destruct (deserialize _ _ _) as [[body|e]|]; [| |discriminate].
    + destruct (jsstring_eqb _ _); [|intros [= <-]; assumption].
      destruct (ack_key body) as [k|]; [|intros [= <-]; assumption].
      destruct (queue_get k s1); intros [= <-]; [apply I_ack|]; assumption.
    + intros [= <-]. apply (I_ext s1); auto.
  - destruct (_needDeserialize s1).
    + destruct (deserialize _ _ _) as [[body|e]|]; [| |discriminate];
        intros [= <-]; apply (I_ext s1); auto.
    + intros [= <-]. apply (I_ext s1); auto.
Qed.

Lemma kept_step s a s' :
  P a -> wf s -> I s -> step JSON_stringify JSON_parse s a s' -> I s'.
Proof.
  intros Hp Hw Hi Hs.
  destruct Hs as [s messageName body needACK prior|s mid err|s id err Hin|s frame fuel s' Hr|s].
  - apply I_send; assumption.
  - apply kept_cancel; assumption.
  - apply kept_written; assumption.
  - eapply kept_receiveData; eassumption.
  - apply kept_on_close; assumption.
Qed.

Lemma kept_reachable init s :
  wf init -> I init -> reachable JSON_stringify JSON_parse P init s -> I s.
Proof.
  intros Hw Hi Hr. induction Hr as [|s a s' Hr IH Hp Hs]; [assumption|].
  eapply kept_step; [eassumption| |exact IH|eassumption].
  eapply wf_reachable; eassumption.
Qed.

End Kept.

(** ** What the queue keeps *)

Section Invariants.
Context {obj : Type}.
Variable JSON_stringify : obj -> res (option jsstring).
Variable JSON_parse : jsstring -> option (@value obj).
Implicit Types s : @socket obj.

(** *** What the parts of an action leave alone *)

Lemma control_send_cases id s :
  control_send id s = s /\
    (controls s !! id = None \/ exists c, controls s !! id = Some c /\ sent c = true)
  \/
  exists c, controls s !! id = Some c /\ sent c = false /\
    controls (control_send id s) =
      <[id := {| data := data c; msgID := msgID c; sent := true;
                 ackWanted := ackWanted c |}]> (controls s) /\
    sendData (control_send id s) = sendData s ++ [(id, data c)].
Proof.
  unfold control_send. destruct (controls s !! id) as [c|] eqn:E; [|left; auto].
  destruct (sent c) eqn:Es; [left; eauto|]. right. exists c. fields. auto.
Qed.

Lemma removed_frame id o s :
  let s1 := settle id o (set_queue (queue_delete id (_queue s)) s) in
  _queue s1 = queue_delete id (_queue s) /\ controls s1 = controls s /\
  _messageID s1 = _messageID s /\ sendData s1 = sendData s.
Proof.
  cbv zeta.
  destruct (settle_frame id o (set_queue (queue_delete id (_queue s)) s))
    as (Eq & Ec & Em & Ed & _).
  fields. auto.
Qed.

Lemma settle_pending_inv id o s id' :
  o <> Pending -> promises (settle id o s) !! id' = Some Pending ->
  promises s !! id' = Some Pending.
Proof.
  intros Ho. destruct (pending_dec s id) as [Hp|Hp].
  - destruct (settle_pending id o s Hp) as [-> _].
    destruct (decide (id' = id)) as [->|Hne].
    + rewrite lookup_insert_eq. congruence.
    + rewrite lookup_insert_ne by congruence. auto.
  - rewrite settle_noop by assumption. auto.
Qed.

Lemma control_ack_frame id err s :
  _messageID (control_ack id err s) = _messageID s /\
  forall id', is_Some (controls (control_ack id err s) !! id') <->
              is_Some (controls s !! id').
Proof.
  destruct (removed_frame id (outcome err) s) as (_ & Ec & Em & _).
  destruct (control_ack_unfold id err s) as [->|(h & _ & ->)].
  - rewrite Ec, Em. split; [reflexivity|tauto].
  - destruct (control_send_frame h
                (settle id (outcome err) (set_queue (queue_delete id (_queue s)) s)))
      as (_ & _ & Em' & _ & _ & Ec').
    rewrite Em', Em. split; [reflexivity|]. intros id'. rewrite Ec', Ec. tauto.
Qed.

Lemma control_cancel_cases id err s :
  control_cancel id err s = (false, s) \/
  exists c, controls s !! id = Some c /\ sent c = false /\
    control_cancel id err s =
      (true, settle id (outcome err) (set_queue (queue_delete id (_queue s)) s)).
Proof.
  unfold control_cancel. destruct (controls s !! id) as [c|]; [|left; reflexivity].
  destruct (sent c) eqn:Es; [left; reflexivity|right; eauto].
Qed.

Lemma queued_below s id : wf s -> In id (_queue s) -> id < _messageID s.
Proof.
  intros Hw Hin. destruct (Z.lt_ge_cases id (_messageID s)) as [|Hge]; [assumption|].
  destruct (wf_queue s Hw id Hin) as [[c Hc] _].
  destruct (wf_fresh s Hw id Hge) as [Hn _]. congruence.
Qed.

Lemma control_below s id c : wf s -> controls s !! id = Some c -> id < _messageID s.
Proof.
  intros Hw Hc. destruct (Z.lt_ge_cases id (_messageID s)) as [|Hge]; [assumption|].
  destruct (wf_fresh s Hw id Hge) as [Hn _]. congruence.
Qed.

Lemma enqueue_messageID id d needACK prior s :
  _messageID (enqueue id d needACK prior (promised s)) = _messageID s + 1.
Proof.
  unfold enqueue. cbv zeta.
  destruct (_ || _).
  - match goal with |- context [control_send ?i ?t] =>
      destruct (control_send_frame i t) as (_ & _ & -> & _) end.
    reflexivity.
  - reflexivity.
Qed.

Lemma _send_messageID isInternal prior messageName needACK body s :
  fst (_send JSON_stringify isInternal prior messageName needACK body s) = _messageID s /\
  _messageID (snd (_send JSON_stringify isInternal prior messageName needACK body s)) =
    _messageID s + 1.
Proof.
  destruct (_send_cases JSON_stringify isInternal prior messageName needACK body s)
    as [[e ->]|[d ->]]; cbn [fst snd]; (split; [reflexivity|]).
  - destruct (rejected_frame e s) as (_ & _ & _ & H & _). exact H.
  - apply enqueue_messageID.
Qed.

(** *** The head of the queue is always sent *)

Lemma head_sent_ext s s' :
  _queue s' = _queue s -> controls s' = controls s -> head_sent s -> head_sent s'.
Proof. unfold head_sent. intros -> ->. auto. Qed.

Lemma head_sent_control_ack id err s :
  wf s -> head_sent s -> head_sent (control_ack id err s).
Proof.
  intros Hw Hh. unfold control_ack.
  destruct (removed_frame id (outcome err) s) as (Eq & Ec & _).
  set (s1 := settle id (outcome err) (set_queue (queue_delete id (_queue s)) s)) in *.
  cbv zeta.
  destruct (_queue s) as [|first q] eqn:Hq.
  - cbn [andb]. intros h. rewrite Eq. discriminate.
  - destruct (Z.eqb_spec first id) as [->|Hne]; cbn [andb].
    + assert (queue_delete id (id :: q) = q) as Hd
        by (apply queue_delete_head; rewrite <- Hq; apply Hw).
      rewrite Hd in Eq. unfold queue_size. rewrite Eq.
      destruct q as [|h q'].
      { change (0 <? Z.of_nat (length [])) with false.
        intros h. rewrite Eq. discriminate. }
      cbn [length]. destruct (Z.ltb_spec 0 (Z.of_nat (S (length q')))); [|lia].
      change (head_sent (control_send h s1)).
      intros h0.
      destruct (control_send_frame h s1) as (Eq' & _).
      rewrite Eq', Eq. intros [= <-].
      assert (In h (_queue s)) as Hin by (rewrite Hq; right; left; reflexivity).
      destruct (wf_queue s Hw h Hin) as [[c Hc] _].
      destruct (control_send_cases h s1) as [[-> [Hn|(c' & Hc' & Hs')]]|(c' & Hc' & Hs' & Ecs & _)].
      * rewrite Ec in Hn. congruence.
      * eauto.
      * rewrite Ecs, lookup_insert_eq. eexists. split; [reflexivity|reflexivity].
    + intros h. rewrite Eq, queue_delete_other by assumption. intros [= <-].
      rewrite Ec. apply Hh. rewrite Hq. reflexivity.
Qed.

Lemma head_sent_remove_unsent id o s c :
  head_sent s -> controls s !! id = Some c -> sent c = false ->
  head_sent (settle id o (set_queue (queue_delete id (_queue s)) s)).
Proof.
  intros Hh Hc Hs.
  destruct (removed_frame id o s) as (Eq & Ec & _).
  intros h. rewrite Eq, Ec.
  destruct (_queue s) as [|first q] eqn:Hq; [discriminate|].
  destruct (Hh first) as (c1 & Hc1 & Hs1); [rewrite Hq; reflexivity|].
  assert (first <> id) as Hne by (intros ->; congruence).
  rewrite queue_delete_other by assumption. intros [= <-]. eauto.
Qed.

Lemma head_sent_control_cancel id err s :
  wf s -> head_sent s -> head_sent (snd (control_cancel id err s)).
Proof.
  intros _ Hh. destruct (control_cancel_cases id err s) as [->|(c & Hc & Hs & ->)];
    cbn [snd]; [assumption|].
  eapply head_sent_remove_unsent; eassumption.
Qed.

Lemma head_sent_send isInternal prior messageName needACK body s :
  wf s -> head_sent s ->
  head_sent (snd (_send JSON_stringify isInternal prior messageName needACK body s)).
Proof.
  intros Hw Hh.
  destruct (_send_cases JSON_stringify isInternal prior messageName needACK body s)
    as [[e ->]|[d ->]]; cbn [snd].
  - destruct (rejected_frame e s) as (Eq & Ec & _).
    eapply head_sent_ext; eassumption.
  - destruct (enqueue_spec d needACK prior s Hw) as (Eq & Ec & _ & Eo & _).
    intros h. rewrite Eq.
    destruct (_queue s) as [|first q] eqn:Hq; cbn [app hd_error].
    + intros [= <-]. rewrite Ec. cbn [is_empty]. rewrite orb_true_r.
      eexists. split; reflexivity.
    + intros [= <-].
      assert (In first (_queue s)) as Hin by (rewrite Hq; left; reflexivity).
      pose proof (queued_below s first Hw Hin).
      rewrite Eo by lia. apply Hh. rewrite Hq. reflexivity.
Qed.

(** *** A pending promise has its control *)

Lemma owned_control_ack id err s : wf s -> owned s -> owned (control_ack id err s).
Proof.
  intros _ Ho id' Hp. rewrite control_ack_promises in Hp.
  apply settle_pending_inv in Hp; [|apply outcome_not_pending].
  apply (proj2 (control_ack_frame id err s)). apply Ho. assumption.
Qed.

Lemma owned_control_cancel id err s :
  wf s -> owned s -> owned (snd (control_cancel id err s)).
Proof.
  intros _ Ho. destruct (control_cancel_cases id err s) as [->|(c & Hc & Hs & ->)];
    cbn [snd]; [assumption|].
  destruct (removed_frame id (outcome err) s) as (_ & Ec & _).
  intros id' Hp. rewrite Ec.
  apply settle_pending_inv in Hp; [|apply outcome_not_pending].
  apply Ho. exact Hp.
Qed.

Lemma owned_send isInternal prior messageName needACK body s :
  wf s -> owned s ->
  owned (snd (_send JSON_stringify isInternal prior messageName needACK body s)).
Proof.
  intros Hw Ho.
  destruct (_send_cases JSON_stringify isInternal prior messageName needACK body s)
    as [[e ->]|[d ->]]; cbn [snd].
  - destruct (rejected_frame e s) as (_ & Ec & _ & _ & Hp & Hother).
    intros id Hid. rewrite Ec.
    destruct (decide (id = _messageID s)) as [->|Hne]; [congruence|].
    apply Ho. rewrite <- Hother by assumption. assumption.
  - destruct (enqueue_spec d needACK prior s Hw) as (_ & Ec & _ & Eo & Ep).
    intros id Hid.
    destruct (decide (id = _messageID s)) as [->|Hne]; [rewrite Ec; eauto|].
    rewrite Eo by assumption. apply Ho.
    rewrite Ep, lookup_insert_ne in Hid by congruence. assumption.
Qed.

(** *** The calls of [_sendData] *)

Lemma logged_ext s s' :
  controls s' = controls s -> sendData s' = sendData s -> logged s -> logged s'.
Proof. intros Ec Ed [H1 H2 H3]. constructor; rewrite ?Ec, ?Ed; assumption. Qed.

Lemma logged_control_send id s : logged s -> logged (control_send id s).
Proof.
  intros [H1 H2 H3].
  destruct (control_send_cases id s) as [[-> _]|(c & Hc & Hs & Ec & Ed)];
    [constructor; assumption|].
  constructor; rewrite ?Ec, ?Ed.
  - intros i d Hin. apply in_app_or in Hin as [Hin|[[= <- <-]|[]]].
    + destruct (H1 i d Hin) as (c0 & Hc0 & Hs0 & Hd0).
      assert (i <> id) as Hne by (intros ->; congruence).
      rewrite lookup_insert_ne by congruence. eauto.
    + rewrite lookup_insert_eq. eexists. repeat split.
  - intros i c0 Hc0 Hs0. apply in_or_app.
    destruct (decide (i = id)) as [->|Hne].
    + rewrite lookup_insert_eq in Hc0. injection Hc0 as <-. right. left. reflexivity.
    + rewrite lookup_insert_ne in Hc0 by congruence. left. eauto.
  - rewrite map_app. cbn [map fst]. apply List.NoDup_app. repeat split.
    + assumption.
    + constructor; [intros []|constructor].
    + intros x Hx [Heq|[]]. subst x. apply in_map_iff in Hx as ([i d] & Hi & Hin).
      cbn [fst] in Hi. subst i. destruct (H1 id d Hin) as (c0 & Hc0 & Hs0 & _). congruence.
Qed.

Lemma logged_control_ack id err s : wf s -> logged s -> logged (control_ack id err s).
Proof.
  intros _ Hl.
  destruct (removed_frame id (outcome err) s) as (_ & Ec & _ & Ed).
  assert (logged (settle id (outcome err) (set_queue (queue_delete id (_queue s)) s)))
    as H1 by (eapply logged_ext; eassumption).
  destruct (control_ack_unfold id err s) as [->|(h & _ & ->)];
    [|apply logged_control_send]; assumption.
Qed.

Lemma logged_control_cancel id err s :
  wf s -> logged s -> logged (snd (control_cancel id err s)).
Proof.
  intros _ Hl. destruct (control_cancel_cases id err s) as [->|(c & Hc & Hs & ->)];
    cbn [snd]; [assumption|].
  destruct (removed_frame id (outcome err) s) as (_ & Ec & _ & Ed).
  eapply logged_ext; eassumption.
Qed.

Lemma logged_send isInternal prior messageName needACK body s :
  wf s -> logged s ->
  logged (snd (_send JSON_stringify isInternal prior messageName needACK body s)).
Proof.
  intros Hw Hl.
  destruct (_send_cases JSON_stringify isInternal prior messageName needACK body s)
    as [[e ->]|[d ->]]; cbn [snd].
  - destruct (rejected_frame e s) as (_ & Ec & Ed & _).
    eapply logged_ext; eassumption.
  - destruct (wf_fresh s Hw (_messageID s) (Z.le_refl _)) as [Hn _].
    unfold enqueue. cbv zeta.
    match goal with |- context [control_send ?i ?t] => set (s1 := t) end.
    assert (logged s1) as H1.
    { destruct Hl as [H1 H2 H3]. subst s1. unfold promised. constructor; fields.
      - intros i x Hin. destruct (H1 i x Hin) as (c0 & Hc0 & Hs0 & Hd0).
        assert (i <> _messageID s) as Hne by (intros ->; congruence).
        rewrite lookup_insert_ne by congruence. eauto.
      - intros i c0 Hc0 Hs0.
        destruct (decide (i = _messageID s)) as [->|Hne].
        + rewrite lookup_insert_eq in Hc0. injection Hc0 as <-. discriminate.
        + rewrite lookup_insert_ne in Hc0 by congruence. eauto.
      - assumption. }
    destruct (_ || _); [apply logged_control_send|]; assumption.
Qed.

(** *** The order of the calls of [_sendData] *)

Lemma sorted_delete k q :
  StronglySorted Z.lt q -> StronglySorted Z.lt (queue_delete k q).
Proof.
  induction 1 as [|x q Hs IH Hx]; [constructor|].
  unfold queue_delete. cbn [List.filter]. fold (queue_delete k q).
  destruct (negb (x =? k)); [|assumption].
  constructor; [assumption|].
  apply List.Forall_forall. intros y Hy. apply queue_delete_In in Hy as [Hy _].
  rewrite List.Forall_forall in Hx. auto.
Qed.

Lemma sorted_snoc (q : list Z) x :
  StronglySorted Z.lt q -> (forall y, In y q -> y < x) -> StronglySorted Z.lt (q ++ [x]).
Proof.
  induction 1 as [|a q Hs IH Ha]; intros Hx; cbn [app].
  - constructor; constructor.
  - constructor.
    + apply IH. intros y Hy. apply Hx. right. assumption.
    + apply List.Forall_forall. intros y Hy. apply in_app_or in Hy as [Hy|[<-|[]]].
      * rewrite List.Forall_forall in Ha. auto.
      * apply Hx. left. reflexivity.
Qed.

Lemma fifo_ext s s' :
  _queue s' = _queue s -> sendData s' = sendData s -> fifo s -> fifo s'.
Proof. intros Eq Ed [H1 H2 H3]. constructor; rewrite ?Eq, ?Ed; assumption. Qed.

Lemma fifo_remove_unsent id o s c :
  head_sent s -> fifo s -> controls s !! id = Some c -> sent c = false ->
  fifo (settle id o (set_queue (queue_delete id (_queue s)) s)).
Proof.
  intros Hh [H1 H2 H3] Hc Hs.
  destruct (removed_frame id o s) as (Eq & _ & _ & Ed).
  constructor; rewrite ?Eq, ?Ed.
  - apply sorted_delete. assumption.
  - assumption.
  - intros i h Hi. destruct (_queue s) as [|first q] eqn:Hq; [discriminate|].
    destruct (Hh first) as (c1 & Hc1 & Hs1); [rewrite Hq; reflexivity|].
    assert (first <> id) as Hne by (intros ->; congruence).
    rewrite queue_delete_other by assumption. intros [= <-].
    apply H3; [assumption|reflexivity].
Qed.

Lemma fifo_control_ack id err s :
  wf s -> fifo s -> fifo (control_ack id err s).
Proof.
  intros Hw [H1 H2 H3].
  destruct (_queue s) as [|first q] eqn:Hq.
  - destruct (control_ack_not_head id err s) as [_ Ed]; [rewrite Hq; discriminate|].
    constructor; rewrite ?control_ack_queue, ?Ed, ?Hq; [constructor|assumption|].
    intros i h _. discriminate.
  - destruct (Z.eq_dec first id) as [->|Hne].
    + assert (queue_delete id (id :: q) = q) as Hd
        by (apply queue_delete_head; rewrite <- Hq; apply Hw).
      inversion H1 as [|? ? Hsq Hall]; subst.
      destruct q as [|h q'].
      * rewrite (control_ack_last id [] err s Hw Hq).
        destruct (settle_frame id (outcome err) (set_queue [] s)) as (Eq & _ & _ & Ed & _).
        constructor; rewrite ?Eq, ?Ed; fields; [constructor|assumption|].
        intros i h _. discriminate.
      * assert (In h (_queue s)) as Hin by (rewrite Hq; right; left; reflexivity).
        destruct (wf_queue s Hw h Hin) as [[c Hc] _].
        assert (id < h) as Hlt
          by (rewrite List.Forall_forall in Hall; apply Hall; left; reflexivity).
        assert (forall i, In i (map fst (sendData s)) -> i <= id) as Hle
          by (intros i Hi; apply (H3 i id Hi); reflexivity).
        destruct (sent c) eqn:Es.
        -- pose proof (control_ack_queue id err s) as Eq. rewrite Hq, Hd in Eq.
           assert (sendData (control_ack id err s) = sendData s) as Ed.
           { destruct (removed_frame id (outcome err) s) as (Eq1 & Ec1 & _ & Ed1).
             destruct (control_ack_unfold id err s) as [->|(h0 & Hh0 & ->)];
               [assumption|].
             rewrite Eq1, Hq, Hd in Hh0. injection Hh0 as <-.
             match goal with |- context [control_send ?i ?t] =>
               destruct (control_send_cases i t)
                 as [[-> _]|(c' & Hc' & Hs' & _ & _)] end; [assumption|].
             rewrite Ec1 in Hc'. congruence. }
           constructor; rewrite ?Eq, ?Ed; [assumption|assumption|].
           intros i h0 Hi [= <-]. specialize (Hle i Hi). lia.
        -- destruct (control_ack_head id h q' err s Hw Hq c Hc Es) as (Eq & _ & Ed).
           constructor; rewrite ?Eq, ?Ed, ?map_app; cbn [map fst].
           ++ assumption.
           ++ apply sorted_snoc; [assumption|]. intros y Hy. specialize (Hle y Hy). lia.
           ++ intros i h0 Hi [= <-]. apply in_app_or in Hi as [Hi|[<-|[]]]; [|lia].
              specialize (Hle i Hi). lia.
    + destruct (control_ack_not_head id err s) as [_ Ed];
        [rewrite Hq; cbn; congruence|].
      constructor; rewrite ?control_ack_queue, ?Ed, ?Hq.
      * apply sorted_delete. assumption.
      * assumption.
      * rewrite queue_delete_other by assumption. intros i h Hi [= <-].
        apply H3; [assumption|reflexivity].
Qed.

Lemma fifo_send isInternal messageName needACK body s :
  wf s -> logged s -> fifo s ->
  fifo (snd (_send JSON_stringify isInternal false messageName needACK body s)).
Proof.
  intros Hw Hl [H1 H2 H3].
  destruct (_send_cases JSON_stringify isInternal false messageName needACK body s)
    as [[e ->]|[d ->]]; cbn [snd].
  - destruct (rejected_frame e s) as (Eq & _ & Ed & _).
    constructor; rewrite ?Eq, ?Ed; assumption.
  - destruct (enqueue_spec d needACK false s Hw) as (Eq & _ & Ed & _).
    cbn [orb] in Ed.
    assert (forall i, In i (map fst (sendData s)) -> i < _messageID s) as Hb.
    { intros i Hi. apply in_map_iff in Hi as ([i' x] & Hi' & Hin). cbn [fst] in Hi'.
      subst i'. destruct (lg_sound s Hl i x Hin) as (c & Hc & _).
      eapply control_below; eassumption. }
    constructor; rewrite ?Eq, ?Ed.
    + apply sorted_snoc; [assumption|]. intros y Hy. apply queued_below; assumption.
    + destruct (_queue s); cbn [is_empty]; [|assumption].
      rewrite map_app. cbn [map fst]. apply sorted_snoc; assumption.
    + destruct (_queue s) as [|first q] eqn:Hq; cbn [is_empty app hd_error].
      * intros i h Hi [= <-]. rewrite map_app in Hi. cbn [map fst] in Hi.
        apply in_app_or in Hi as [Hi|[<-|[]]]; [|lia]. specialize (Hb i Hi). lia.
      * intros i h Hi [= <-]. apply H3; [assumption|reflexivity].
Qed.

End Invariants.

(** ** The queue over every run *)

Section QueueMore.
Context {obj : Type}.
Variable JSON_stringify : obj -> res (option jsstring).
Variable JSON_parse : jsstring -> option (@value obj).
Implicit Types s : @socket obj.

Lemma steady_ext s s' :
  _queue s' = _queue s -> controls s' = controls s -> promises s' = promises s ->
  _messageID s' = _messageID s -> sendData s' = sendData s -> steady s -> steady s'.
Proof.
  intros Eq Ec Ep Em Ed (Hh & Ho & Hl & Hn). split; [|split; [|split]].
  - eapply head_sent_ext; eassumption.
  - intros id. rewrite Ep, Ec. apply Ho.
  - eapply logged_ext; eassumption.
  - rewrite Em. assumption.
Qed.

Lemma steady_control_ack id err s : wf s -> steady s -> steady (control_ack id err s).
Proof.
  intros Hw (Hh & Ho & Hl & Hn). split; [|split; [|split]].
  - apply head_sent_control_ack; assumption.
  - apply owned_control_ack; assumption.
  - apply logged_control_ack; assumption.
  - rewrite (proj1 (control_ack_frame id err s)). assumption.
Qed.

Lemma control_cancel_messageID id err s :
  _messageID (snd (control_cancel id err s)) = _messageID s.
Proof.
  destruct (control_cancel_cases id err s) as [->|(c & _ & _ & ->)]; cbn [snd];
    [reflexivity|].
  destruct (removed_frame id (outcome err) s) as (_ & _ & Em & _). exact Em.
Qed.

Lemma steady_control_cancel id err s :
  wf s -> steady s -> steady (snd (control_cancel id err s)).
Proof.
  intros Hw (Hh & Ho & Hl & Hn). split; [|split; [|split]].
  - apply head_sent_control_cancel; assumption.
  - apply owned_control_cancel; assumption.
  - apply logged_control_cancel; assumption.
  - rewrite control_cancel_messageID. assumption.
Qed.

Lemma steady_send isInternal prior messageName needACK body s :
  wf s -> steady s ->
  steady (snd (_send JSON_stringify isInternal prior messageName needACK body s)).
Proof.
  intros Hw (Hh & Ho & Hl & Hn). split; [|split; [|split]].
  - apply head_sent_send; assumption.
  - apply owned_send; assumption.
  - apply logged_send; assumption.
  - rewrite (proj2 (_send_messageID JSON_stringify isInternal prior messageName
                      needACK body s)). lia.
Qed.

Lemma steady_reply h s : wf s -> steady s -> steady (reply JSON_stringify h s).
Proof.
  intros Hw Hs. unfold reply. destruct (needACK h); [|assumption].
  apply steady_send; [apply (wf_ext s); auto|apply (steady_ext s); auto].
Qed.

Lemma steady_new_socket maxPayload needDeserialize :
  steady (@new_socket obj maxPayload needDeserialize).
Proof.
  split; [|split; [|split; [constructor|]]]; unfold head_sent, owned; cbn.
  - intros h. discriminate.
  - intros id. rewrite lookup_empty. discriminate.
  - intros id d [].
  - intros id c. rewrite lookup_empty. discriminate.
  - constructor.
  - lia.
Qed.

Lemma steady_reachable init s :
  wf init -> steady init ->
  reachable JSON_stringify JSON_parse any init s -> steady s.
Proof.
  apply (kept_reachable JSON_stringify JSON_parse any steady).
  - apply steady_ext.
  - apply steady_control_ack.
  - apply steady_control_cancel.
  - intros messageName body needACK prior s0 _. apply steady_send.
  - intros frame h s0 _ _. apply steady_reply.
Qed.

Lemma steady_live s : live JSON_stringify JSON_parse s -> steady s.
Proof.
  intros (mp & nd & Hr).
  eapply steady_reachable; [apply wf_new_socket|apply steady_new_socket|eassumption].
Qed.

Lemma pending_queued s id :
  wf s -> owned s -> (promises s !! id = Some Pending <-> In id (_queue s)).
Proof.
  intros Hw Ho. split.
  - intros Hp. apply (wf_pending s Hw); [apply Ho|]; assumption.
  - intros Hin. apply (wf_queue s Hw id Hin).
Qed.

(** In order *)
Lemma in_order_ext s s' :
  _queue s' = _queue s -> controls s' = controls s -> promises s' = promises s ->
  _messageID s' = _messageID s -> sendData s' = sendData s -> in_order s -> in_order s'.
Proof.
  intros Eq Ec Ep Em Ed (Hh & Hl & Hf). split; [|split].
  - eapply head_sent_ext; eassumption.
  - eapply logged_ext; eassumption.
  - eapply fifo_ext; eassumption.
Qed.

Lemma in_order_control_ack id err s :
  wf s -> in_order s -> in_order (control_ack id err s).
Proof.
  intros Hw (Hh & Hl & Hf). split; [|split].
  - apply head_sent_control_ack; assumption.
  - apply logged_control_ack; assumption.
  - apply fifo_control_ack; assumption.
Qed.

Lemma in_order_control_cancel id err s :
  wf s -> in_order s -> in_order (snd (control_cancel id err s)).
Proof.
  intros Hw (Hh & Hl & Hf). split; [|split].
  - apply head_sent_control_cancel; assumption.
  - apply logged_control_cancel; assumption.
  - destruct (control_cancel_cases id err s) as [->|(c & Hc & Hs & ->)]; cbn [snd];
      [assumption|].
    eapply fifo_remove_unsent; eassumption.
Qed.

Lemma in_order_send messageName body needACK s :
  wf s -> in_order s ->
  in_order (snd (send JSON_stringify messageName body needACK false s)).
Proof.
  intros Hw (Hh & Hl & Hf). unfold send. split; [|split].
  - apply head_sent_send; assumption.
  - apply logged_send; assumption.
  - apply fifo_send; assumption.
Qed.

Lemma in_order_new_socket maxPayload needDeserialize :
  in_order (@new_socket obj maxPayload needDeserialize).
Proof.
  split; [|split; constructor]; unfold head_sent; cbn.
  - intros h. discriminate.
  - intros id d [].
  - intros id c. rewrite lookup_empty. discriminate.
  - constructor.
  - constructor.
  - constructor.
  - intros id h [].
Qed.

Lemma in_order_reachable init s :
  wf init -> in_order init ->
  reachable JSON_stringify JSON_parse (no_prior) init s -> in_order s.
Proof.
  apply (kept_reachable JSON_stringify JSON_parse no_prior in_order).
  - apply in_order_ext.
  - apply in_order_control_ack.
  - apply in_order_control_cancel.
  - intros messageName body needACK prior s0 Hp. cbn in Hp. subst prior.
    apply in_order_send.
  - intros frame h s0 Hp Hh _ Hi. cbn in Hp. unfold reply. rewrite (Hp h Hh). assumption.
Qed.

(** X5.  The queue never stalls: in every state a socket can reach, with
    or without [prior] sends, the first entry of the queue has been sent,
    that is [control.send] has handed its [sendingData] to [_sendData]. *)
Theorem head_of_queue_is_sent s h :
  live JSON_stringify JSON_parse s -> hd_error (_queue s) = Some h ->
  exists c, controls s !! h = Some c /\ sent c = true /\ In (h, data c) (sendData s).
Proof.
  intros Hl Hh. destruct (steady_live s Hl) as (Hhs & _ & Hlg & _).
  destruct (Hhs h Hh) as (c & Hc & Hs). exists c. repeat split; try assumption.
  apply (lg_complete s Hlg); assumption.
Qed.

(** X6.  [_sendData] is called at most once per message: over every run
    the calls are for distinct message ids, each call carries the
    [sendingData] of its control, and the controls with [sent] set are
    exactly those [_sendData] was called for. *)
Theorem transmitted_once s :
  live JSON_stringify JSON_parse s ->
  List.NoDup (map fst (sendData s)) /\
  (forall id d, In (id, d) (sendData s) ->
     exists c, controls s !! id = Some c /\ sent c = true /\ data c = d) /\
  (forall id c, controls s !! id = Some c -> sent c = true -> In (id, data c) (sendData s)).
Proof.
  intros Hl. destruct (steady_live s Hl) as (_ & _ & [H1 H2 H3] & _). auto.
Qed.

(** X7.  In every state a socket can reach, the promise returned by a
    send is pending exactly while its entry is in [_queue]. *)
Theorem pending_iff_queued s id :
  live JSON_stringify JSON_parse s ->
  (promises s !! id = Some Pending <-> In id (_queue s)).
Proof.
  intros Hl. destruct (steady_live s Hl) as (_ & Ho & _).
  apply pending_queued; [apply (wf_live JSON_stringify JSON_parse)|]; assumption.
Qed.

(** X8.  Once the handler of ['close'] has run, no promise of the socket
    is pending: those that were pending are rejected with the
    connection-aborted error, the others are as they were. *)
Theorem close_leaves_none_pending s id :
  live JSON_stringify JSON_parse s ->
  promises (on_close s) !! id <> Some Pending /\
  (promises s !! id = Some Pending ->
   promises (on_close s) !! id = Some (Rejected ConnectionAborted)) /\
  (promises s !! id <> Some Pending -> promises (on_close s) !! id = promises s !! id).
Proof.
  intros Hl. pose proof (wf_live JSON_stringify JSON_parse s Hl) as Hw.
  destruct (steady_live s Hl) as (_ & Ho & _).
  pose proof (pending_queued s id Hw Ho) as Hpq.
  destruct (on_close_spec (_queue s) s Hw eq_refl) as (_ & _ & _ & _ & Hin & Hout).
  fold (on_close s) in Hin, Hout.
  destruct (in_dec Z.eq_dec id (_queue s)) as [Hq|Hq].
  - rewrite (Hin id Hq). split; [discriminate|]. split; [reflexivity|].
    intros Hn. exfalso. apply Hn, Hpq, Hq.
  - rewrite (Hout id Hq). split; [rewrite Hpq; assumption|].
    split; [|reflexivity]. intros Hp. exfalso. apply Hq, Hpq, Hp.
Qed.

(** X9.  Message ids are not reused while the counter is below 2^53, where
    [++] on a JavaScript number is exact: the id a call of [send] returns is
    not negative and strictly below the id returned by any [send] made
    later with the counter still below 2^53, whatever happened in between
    (rejected sends and acknowledgements consume an id too). *)
Theorem message_ids_increase s name1 body ack1 prior s2
    name2 body2 ack2 prior2 :
  live JSON_stringify JSON_parse s ->
  reachable JSON_stringify JSON_parse any
    (snd (send JSON_stringify name1 body ack1 prior s)) s2 ->
  _messageID s2 < 2 ^ 53 ->
  0 <= fst (send JSON_stringify name1 body ack1 prior s) /\
  fst (send JSON_stringify name1 body ack1 prior s) <
  fst (send JSON_stringify name2 body2 ack2 prior2 s2).
Proof.
  intros Hl Hr _. pose proof (wf_live JSON_stringify JSON_parse s Hl) as Hw.
  destruct (steady_live s Hl) as (_ & _ & _ & Hn).
  unfold send in *.
  destruct (_send_messageID JSON_stringify false prior name1 ack1 body s)
    as [E1 E2].
  destruct (_send_messageID JSON_stringify false prior2 name2 ack2 body2 s2)
    as [E3 _].
  rewrite E1, E3. split; [assumption|].
  set (s1 := snd (_send JSON_stringify false prior name1 ack1 body s)) in *.
  assert (_messageID s1 <= _messageID s2) as Hle; [|lia].
  refine (kept_reachable JSON_stringify JSON_parse any
            (fun t => _messageID s1 <= _messageID t) _ _ _ _ _ s1 s2 _ _ Hr).
  - intros t t' _ _ _ -> _ H. exact H.
  - intros id err t _ H. rewrite (proj1 (control_ack_frame id err t)). exact H.
  - intros id err t _ H. rewrite control_cancel_messageID. exact H.
  - intros n b k p t _ _ H. unfold send.
    rewrite (proj2 (_send_messageID JSON_stringify false p n k b t)). lia.
  - intros frame h t _ _ _ H. unfold reply. destruct (needACK h); [|exact H].
    unfold _sendInternal.
    match goal with |- context [_send ?j ?i ?p ?n ?k ?b ?t0] =>
      rewrite (proj2 (_send_messageID j i p n k b t0)) end.
    fields. lia.
  - apply wf_send. assumption.
  - lia.
Qed.

(** X10.  As long as nothing is sent with [prior] (and no frame asks for
    an acknowledgement, which is answered with [prior]), the frames reach
    [_sendData] in the order of the [send] calls: the ids of the calls of
    [_sendData] increase strictly, and so do the keys of the queue. *)
Theorem transmitted_in_order maxPayload needDeserialize s :
  reachable JSON_stringify JSON_parse no_prior
    (new_socket maxPayload needDeserialize) s ->
  StronglySorted Z.lt (map fst (sendData s)) /\ StronglySorted Z.lt (_queue s).
Proof.
  intros Hr.
  destruct (in_order_reachable _ s (wf_new_socket maxPayload needDeserialize)
              (in_order_new_socket maxPayload needDeserialize) Hr)
    as (_ & _ & [H1 H2 _]).
  auto.
Qed.

End QueueMore.

(** ** A frame from one socket to another *)

Section ReceiveMore.
Context {obj : Type}.
Variable JSON_stringify : obj -> res (option jsstring).
Variable JSON_parse : jsstring -> option (@value obj).
Implicit Types s r : @socket obj.

Lemma frame_parts isInt name ack id body :
  0 <= id < 2 ^ 53 ->
  small (_serializeHeader isInt name ack (of_int id) ++ body) ->
  _deserializeHeader (_serializeHeader isInt name ack (of_int id) ++ body) =
    Ret (header_of isInt name ack id) /\
  slice_from (_serializeHeader isInt name ack (of_int id) ++ body)
    (to_num (headerLength (header_of isInt name ack id))) = body.
Proof.
  intros Hid Hs. split.
  - apply _deserializeHeader_serializeHeader;
      [apply of_int_double|apply canon_of_int|]; assumption.
  - cbn [headerLength header_of].
    pose proof (len_serializeHeader isInt name ack (of_int id)) as Hl.
    assert (0 <= 26 + len (Buffer_from name) < 2 ^ 53) as Hb.
    { unfold small in Hs. rewrite len_app in Hs.
      pose proof (len_nonneg (Buffer_from name)). pose proof (len_nonneg body). lia. }
    rewrite to_num_of_int by assumption.
    eapply slice_from_in; [reflexivity|assumption].
Qed.

Lemma receive_frame fuel isInt name ack id body s :
  0 <= id < 2 ^ 53 ->
  small (_serializeHeader isInt name ack (of_int id) ++ body) ->
  _receiveData JSON_stringify JSON_parse fuel
    (_serializeHeader isInt name ack (of_int id) ++ body) s =
  let s1 := reply JSON_stringify (header_of isInt name ack id) s in
  let name := toString (Buffer_from name) in
  if isInt then
    match deserialize JSON_parse fuel body with
    | None => None
    | Some (Throw e) => Some (emit (EError e) s1)
    | Some (Ret items) =>
        if jsstring_eqb name (str "ack") then
          match ack_key items with
          | Some k =>
              match queue_get k s1 with
              | Some _ => Some (control_ack k None s1)
              | None => Some s1
              end
          | None => Some s1
          end
        else Some s1
    end
  else if _needDeserialize s1 then
    match deserialize JSON_parse fuel body with
    | None => None
    | Some (Throw e) => Some (emit (EError e) s1)
    | Some (Ret items) => Some (emit (EMessage name items) s1)
    end
  else Some (emit (EMessageRaw name body) s1).
Proof.
  intros Hid Hs. destruct (frame_parts isInt name ack id body Hid Hs) as [Hh Hr].
  rewrite _receiveData_reply, Hh. cbv zeta. rewrite Hr. reflexivity.
Qed.

Lemma settle_needDeserialize id o s :
  _needDeserialize (settle id o s) = _needDeserialize s.
Proof.
  unfold settle. destruct (promises s !! id) as [[| |]|]; try reflexivity.
  destruct o; try reflexivity. fields. destruct (mem id (catching s)); reflexivity.
Qed.

Lemma control_send_needDeserialize id s :
  _needDeserialize (control_send id s) = _needDeserialize s.
Proof.
  unfold control_send. destruct (controls s !! id) as [c|]; [destruct (sent c)|];
    reflexivity.
Qed.

Lemma _send_needDeserialize isInternal prior messageName ack body s :
  _needDeserialize (snd (_send JSON_stringify isInternal prior messageName ack body s)) =
  _needDeserialize s.
Proof.
  destruct (_send_cases JSON_stringify isInternal prior messageName ack body s)
    as [[e ->]|[d ->]]; cbn [snd].
  - rewrite settle_needDeserialize. reflexivity.
  - unfold enqueue. cbv zeta. destruct (_ || _);
      rewrite ?control_send_needDeserialize; reflexivity.
Qed.

Lemma reply_needDeserialize h s :
  _needDeserialize (reply JSON_stringify h s) = _needDeserialize s.
Proof.
  unfold reply. destruct (needACK h); [|reflexivity].
  unfold _sendInternal. rewrite _send_needDeserialize. reflexivity.
Qed.

(** The frame of an accepted [send] of an array. *)
Lemma sent_frame s name v ack prior c :
  wf s ->
  controls (snd (send JSON_stringify name (DArray v) ack prior s)) !! _messageID s
    = Some c ->
  exists body, serialize JSON_stringify v = Ret body /\
    data c = _serializeHeader false name ack (of_int (_messageID s)) ++ body.
Proof.
  intros Hw Hc. unfold send in Hc.
  destruct (wf_fresh s Hw (_messageID s) (Z.le_refl _)) as [Hn _].
  destruct (serialize JSON_stringify v) as [body|e] eqn:Hser.
  - exists body. split; [reflexivity|].
    rewrite (_send_array JSON_stringify false prior name ack v body s Hser) in Hc.
    cbn [snd] in Hc.
    assert (controls (settle (_messageID s) (Rejected PayloadTooLarge) (promised s))
              !! _messageID s = None) as Hrej.
    { destruct (rejected_frame PayloadTooLarge s) as (_ & -> & _). assumption. }
    destruct (enqueue_spec
                (_serializeHeader false name ack (of_int (_messageID s)) ++ body)
                ack prior s Hw) as (_ & Ec & _).
    destruct (_maxPayload s) as [m|]; [destruct (m <? _)|];
      try congruence; rewrite Ec in Hc; injection Hc as <-; reflexivity.
  - exfalso. unfold _send in Hc. cbv zeta in Hc. rewrite Hser in Hc.
    cbn [bind snd] in Hc.
    match type of Hc with controls (settle ?i ?o ?t) !! _ = _ =>
      destruct (settle_frame i o t) as (_ & Ec & _) end.
    rewrite Ec in Hc. fields. congruence.
Qed.

(** X11.  What [send] transmits is what [_receiveData] delivers: when the
    name and the strings of [v] are well formed, the frame of an accepted
    [send(name, v)], handed to the [_receiveData] of any socket, makes it
    emit ['message'] with [name] and [v] (with the serialized body when the
    receiver has [needDeserialize] off), after the reply owed to a frame
    that asks for an acknowledgement. *)
Theorem sent_message_is_received s r name v ack prior c fuel :
  live JSON_stringify JSON_parse s -> Forall plain v -> _messageID s < 2 ^ 53 ->
  well_formed name = true -> Forall well_formed_value v ->
  controls (snd (send JSON_stringify name (DArray v) ack prior s)) !! _messageID s
    = Some c ->
  small (data c) -> (length v < fuel)%nat ->
  let r1 := reply JSON_stringify (header_of false name ack (_messageID s)) r in
  (ack = false -> r1 = r) /\
  (_needDeserialize r = true ->
     _receiveData JSON_stringify JSON_parse fuel (data c) r =
       Some (emit (EMessage name v) r1)) /\
  (_needDeserialize r = false ->
     exists body, serialize JSON_stringify v = Ret body /\
       _receiveData JSON_stringify JSON_parse fuel (data c) r =
         Some (emit (EMessageRaw name body) r1)).
Proof.
  intros Hl Hp Hm Hwn Hwv Hc Hs Hf r1.
  pose proof (wf_live JSON_stringify JSON_parse s Hl) as Hw.
  destruct (steady_live JSON_stringify JSON_parse s Hl) as (_ & _ & _ & Hn).
  destruct (sent_frame s name v ack prior c Hw Hc) as (body & Hser & Hd).
  rewrite Hd in *.
  assert (small body) as Hsb.
  { unfold small in *. rewrite len_app in Hs.
    pose proof (len_nonneg (_serializeHeader false name ack (of_int (_messageID s)))).
    lia. }
  pose proof (receive_frame fuel false name ack (_messageID s) body r
                (conj Hn Hm) Hs) as Hr.
  cbv zeta in Hr. fold r1 in Hr.
  rewrite (toString_Buffer_from name Hwn) in Hr.
  assert (_needDeserialize r1 = _needDeserialize r) as End
    by apply reply_needDeserialize.
  rewrite End in Hr.
  split; [intros ->; reflexivity|]. split.
  - intros Hnd. rewrite Hr, Hnd.
    rewrite (deserialize_of_serialize JSON_stringify JSON_parse v body fuel Hp Hwv Hser
               Hsb Hf).
    reflexivity.
  - intros Hnd. exists body. split; [assumption|]. rewrite Hr, Hnd. reflexivity.
Qed.

(** X12.  A frame shorter than 17 bytes cannot hold the fixed fields of a
    header: [_receiveData] catches the RangeError of the read, emits it as
    ['error'] and does nothing else. *)
Theorem runt_frame_is_an_error fuel frame s :
  len frame < 17 ->
  _receiveData JSON_stringify JSON_parse fuel frame s = Some (emit (EError RangeError) s).
Proof.
  intros Hlen.
  assert (_deserializeHeader frame = Throw RangeError) as Hh.
  { unfold _deserializeHeader.
    destruct (Z.lt_ge_cases (len frame) 8) as [H8|H8].
    { rewrite readDoubleBE_short by lia. reflexivity. }
    destruct (readDoubleBE frame (JInt 0)) as [hl|e] eqn:E0; cbn [bind].
    2:{ unfold readDoubleBE in E0. destruct (valid_offset _ _ _); [discriminate|].
        congruence. }
    destruct (Z.le_gt_cases (len frame) 8) as [H9|H9].
    { rewrite readUInt8_past by lia. reflexivity. }
    destruct (readUInt8 frame (JInt 8)) as [b|e] eqn:E1; cbn [bind].
    2:{ unfold readUInt8 in E1. destruct (valid_offset _ _ _); [discriminate|].
        congruence. }
    cbv zeta. rewrite js_add_int by (cbn; lia). cbn [Z.add Pos.add Pos.succ].
    rewrite readDoubleBE_short by lia. reflexivity. }
  unfold _receiveData. rewrite Hh. reflexivity.
Qed.

(** X13.  No frame makes a send fail: whatever bytes arrive, a promise made
    before is left as it was, or it was pending for a queued message and is
    now resolved. *)
Lemma _send_promises_old isInternal prior messageName ack body s id :
  wf s -> id <> _messageID s ->
  promises (snd (_send JSON_stringify isInternal prior messageName ack body s)) !! id =
  promises s !! id.
Proof.
  intros Hw Hne.
  destruct (_send_cases JSON_stringify isInternal prior messageName ack body s)
    as [[e ->]|[d ->]]; cbn [snd].
  - destruct (rejected_frame e s) as (_ & _ & _ & _ & _ & H). apply H. assumption.
  - destruct (enqueue_spec d ack prior s Hw) as (_ & _ & _ & _ & ->).
    apply lookup_insert_ne. congruence.
Qed.

Lemma reply_promises_old h s id :
  wf s -> id <> _messageID s ->
  promises (reply JSON_stringify h s) !! id = promises s !! id.
Proof.
  intros Hw Hne. unfold reply. destruct (needACK h); [|reflexivity].
  unfold _sendInternal. rewrite _send_promises_old; [reflexivity| |exact Hne].
  apply (wf_ext s); auto.
Qed.

Theorem frame_never_rejects fuel frame s s' id :
  live JSON_stringify JSON_parse s ->
  _receiveData JSON_stringify JSON_parse fuel frame s = Some s' ->
  id <> _messageID s ->
  promises s' !! id = promises s !! id \/
  (promises s !! id = Some Pending /\ promises s' !! id = Some Resolved /\
   In id (_queue s)).
Proof.
  intros Hl Hr Hne. pose proof (wf_live JSON_stringify JSON_parse s Hl) as Hw.
  rewrite _receiveData_reply in Hr.
  destruct (_deserializeHeader frame) as [h|e]; [|injection Hr as <-; left; reflexivity].
  cbv zeta in Hr.
  pose proof (reply_promises_old h s id Hw Hne) as Hp1.
  pose proof (wf_reply JSON_stringify h s Hw) as Hw1.
  assert (forall k, k <> _messageID s -> In k (_queue (reply JSON_stringify h s)) ->
                    In k (_queue s)) as Hq1.
  { intros k Hk. unfold reply. destruct (needACK h); [|auto].
    unfold _sendInternal.
    match goal with |- context [_send ?j ?i ?p ?n ?a ?b ?t] =>
      destruct (_send_cases j i p n a b t) as [[e ->]|[d ->]];
      [destruct (rejected_frame e t) as (Eq & _)
      |destruct (enqueue_spec d a p t) as (Eq & _); [apply (wf_ext s); auto|]] end;
      cbn [snd]; rewrite Eq; fields; [auto|].
    intros Hin. apply in_app_or in Hin as [Hin|[<-|[]]]; [assumption|congruence]. }
  set (s1 := reply JSON_stringify h s) in *. clearbody s1.
  assert (forall t : @socket obj, promises t = promises s1 ->
            promises t !! id = promises s !! id) as Hsame
    by (intros t ->; assumption).
  destruct (isInternal h).
  - destruct (deserialize _ _ _) as [[items|e]|]; [| |discriminate].
    + destruct (jsstring_eqb _ _); [|injection Hr as <-; left; assumption].
      destruct (ack_key items) as [k|]; [|injection Hr as <-; left; assumption].
      destruct (queue_get k s1) as [ck|] eqn:Eg; injection Hr as <-;
        [|left; assumption].
      apply queue_get_Some in Eg as [Hin _].
      rewrite control_ack_promises. cbn [outcome].
      destruct (decide (id = k)) as [->|Hk].
      * right. destruct (wf_queue s1 Hw1 k Hin) as [_ Hp].
        rewrite settle_promises_eq by assumption.
        split; [congruence|]. split; [reflexivity|]. apply Hq1; assumption.
      * left. rewrite settle_promises_ne by assumption. assumption.
    + injection Hr as <-. left. apply Hsame. reflexivity.
  - destruct (_needDeserialize s1).
    + destruct (deserialize _ _ _) as [[items|e]|]; [| |discriminate];
        injection Hr as <-; left; apply Hsame; reflexivity.
    + injection Hr as <-. left. apply Hsame. reflexivity.
Qed.

Lemma _send_marked isInternal prior name ack (b : list byte) s :
  let id := _messageID s in
  let frame := _serializeHeader isInternal name ack (of_int id) ++ b in
  _send JSON_stringify isInternal prior name ack (DBuffer b true) s =
  (id, match _maxPayload s with
       | Some maxPayload =>
           if maxPayload <? len frame
           then settle id (Rejected PayloadTooLarge) (promised s)
           else enqueue id frame ack prior (promised s)
       | None => enqueue id frame ack prior (promised s)
       end).
Proof.
  intros id frame. unfold _send. cbv zeta. cbn [bind].
  cbn [_maxPayload set_promises set_messageID].
  fold id. fold frame.
  destruct (_maxPayload s) as [m|]; [destruct (m <? len frame)|];
    try reflexivity;
    unfold enqueue, promised; cbv zeta; destruct (_ || _); reflexivity.
Qed.

(** X14.  A Buffer goes through as it is: the frame of an accepted [send]
    of a Buffer marked as serialized, whatever its bytes, handed to the
    [_receiveData] of a socket with [needDeserialize] off, makes it emit
    ['message'] with exactly those bytes, under the name as UTF-8 gives it
    back, which is the name itself when it is a well-formed string. *)
Theorem marked_buffer_passes_through s r name (b : list byte) ack prior c fuel :
  live JSON_stringify JSON_parse s -> _messageID s < 2 ^ 53 ->
  controls (snd (send JSON_stringify name (DBuffer b true) ack prior s)) !! _messageID s
    = Some c ->
  small (data c) -> _needDeserialize r = false ->
  data c = _serializeHeader false name ack (of_int (_messageID s)) ++ b /\
  _receiveData JSON_stringify JSON_parse fuel (data c) r =
    Some (emit (EMessageRaw (toString (Buffer_from name)) b)
            (reply JSON_stringify (header_of false name ack (_messageID s)) r)) /\
  (well_formed name = true -> toString (Buffer_from name) = name).
Proof.
  intros Hl Hm Hc Hs Hnd.
  pose proof (wf_live JSON_stringify JSON_parse s Hl) as Hw.
  destruct (steady_live JSON_stringify JSON_parse s Hl) as (_ & _ & _ & Hn).
  assert (data c = _serializeHeader false name ack (of_int (_messageID s)) ++ b) as Hd.
  { unfold send in Hc. rewrite _send_marked in Hc. cbn [snd] in Hc.
    destruct (wf_fresh s Hw (_messageID s) (Z.le_refl _)) as [Hnone _].
    assert (controls (settle (_messageID s) (Rejected PayloadTooLarge) (promised s))
              !! _messageID s = None) as Hrej.
    { destruct (rejected_frame PayloadTooLarge s) as (_ & -> & _). assumption. }
    destruct (enqueue_spec
                (_serializeHeader false name ack (of_int (_messageID s)) ++ b)
                ack prior s Hw) as (_ & Ec & _).
    destruct (_maxPayload s) as [m|]; [destruct (m <? _)|];
      try congruence; rewrite Ec in Hc; injection Hc as <-; reflexivity. }
  split; [assumption|]. split; [|apply toString_Buffer_from]. rewrite Hd in *.
  rewrite (receive_frame fuel false name ack (_messageID s) b r (conj Hn Hm) Hs).
  cbv zeta. rewrite reply_needDeserialize, Hnd. reflexivity.
Qed.

End ReceiveMore.

(** ** Two loops: a length that goes backwards, and the acknowledgement *)

Section Loops.
Context {obj : Type}.
Variable JSON_stringify : obj -> res (option jsstring).
Variable JSON_parse : jsstring -> option (@value obj).
Implicit Types s r : @socket obj.

(** *** A length that sends the loop backwards *)

Lemma minus_nine :
  canon (be_decode (writeDoubleBE (of_int (-9)))) = of_int (-9) /\
  to_num (of_int (-9)) = JInt (-9).
Proof. split; vm_compute; reflexivity. Qed.

Lemma loop_backwards fuel : forall t rest (result : list (@value obj)),
  Z_of_byte t = 1 \/ Z_of_byte t = 6 ->
  deserialize_loop JSON_parse fuel (t :: writeDoubleBE (of_int (-9)) ++ rest)
    (JInt 0) result = None.
Proof.
  induction fuel as [|fuel IH]; intros t rest result Ht; [reflexivity|].
  rewrite deserialize_loop_S.
  pose proof (length_writeDoubleBE (of_int (-9))) as Lw.
  destruct minus_nine as [Hc Hn].
  set (w := writeDoubleBE (of_int (-9))) in *.
  assert (js_lt (JInt 0) (JInt (len (t :: w ++ rest))) = true) as ->.
  { rewrite js_lt_int. apply Z.ltb_lt. rewrite len_cons. pose proof (len_nonneg (w ++ rest)). lia. }
  rewrite (readUInt8_at [] t (w ++ rest) : readUInt8 (t :: w ++ rest) (JInt 0) = _).
  cbv zeta.
  rewrite (js_add_int 0 1) by (cbn; lia). change (0 + 1) with 1.
  rewrite (readDoubleBE_at [t] w rest Lw : readDoubleBE (t :: w ++ rest) (JInt 1) = _).
  rewrite Hc, Hn.
  rewrite (js_add_int 1 8) by (cbn; lia). change (1 + 8) with 9.
  rewrite (js_add_int 9 (-9)) by (cbn; lia). change (9 + -9) with 0.
  destruct Ht as [Ht|Ht]; rewrite Ht; cbn [Z.eqb Pos.eqb]; apply IH; auto.
Qed.

(** X15.  A length field of -9 under tag 1 (string) or tag 6 (Buffer) sends
    [previous] back to the tag byte: [deserialize] never returns on such a
    buffer, whatever follows, and neither does the [_receiveData] of a socket
    that deserializes, on a frame with such a body. *)
Theorem negative_length_never_returns fuel rest :
  to_num (of_int (-9)) = JInt (-9) /\
  deserialize JSON_parse fuel (writeUInt8 1 ++ writeDoubleBE (of_int (-9)) ++ rest) = None /\
  deserialize JSON_parse fuel (writeUInt8 6 ++ writeDoubleBE (of_int (-9)) ++ rest) = None /\
  forall name ack id s,
    0 <= id < 2 ^ 53 ->
    small (_serializeHeader false name ack (of_int id)
             ++ writeUInt8 1 ++ writeDoubleBE (of_int (-9)) ++ rest) ->
    _needDeserialize s = true ->
    _receiveData JSON_stringify JSON_parse fuel
      (_serializeHeader false name ack (of_int id)
         ++ writeUInt8 1 ++ writeDoubleBE (of_int (-9)) ++ rest) s = None.
Proof.
  split; [apply minus_nine|].
  assert (forall k, k = 1 \/ k = 6 ->
    deserialize JSON_parse fuel (writeUInt8 k ++ writeDoubleBE (of_int (-9)) ++ rest)
      = None) as H.
  { intros k Hk. unfold deserialize, writeUInt8. cbn [app].
    apply loop_backwards. rewrite tag_byte by lia. assumption. }
  split; [apply H; auto|]. split; [apply H; auto|].
  intros name ack id s Hid Hs Hnd.
  rewrite (receive_frame JSON_stringify JSON_parse fuel false name ack id _ s Hid Hs).
  cbv zeta. rewrite reply_needDeserialize, Hnd, H by auto. reflexivity.
Qed.

(** *** The acknowledgement of a frame *)

Lemma serialize_number n :
  serialize JSON_stringify [VNumber n] = Ret (writeUInt8 0 ++ writeDoubleBE n).
Proof. cbn [serialize serialize_item bind]. rewrite app_nil_r. reflexivity. Qed.

Lemma len_ack_frame id m :
  len (_serializeHeader true (str "ack") false (of_int id)
         ++ writeUInt8 0 ++ writeDoubleBE (of_int m)) = 38.
Proof.
  rewrite len_app, len_serializeHeader, len_app, len_writeDoubleBE. reflexivity.
Qed.

(** The frame the receiver of [h] sends back, and the control made for it. *)
Lemma reply_frame h r :
  wf r -> needACK h = true ->
  (_maxPayload r = None \/ exists limit, _maxPayload r = Some limit /\ 38 <= limit) ->
  let frame := _serializeHeader true (str "ack") false (of_int (_messageID r))
                 ++ writeUInt8 0 ++ writeDoubleBE (messageID h) in
  let r1 := reply JSON_stringify h r in
  controls r1 !! _messageID r =
    Some {| data := frame; msgID := _messageID r; sent := true; ackWanted := false |} /\
  sendData r1 = sendData r ++ [(_messageID r, frame)] /\
  _queue r1 = _queue r ++ [_messageID r].
Proof.
  intros Hw Hack Hlim frame r1. subst r1. unfold reply. rewrite Hack.
  unfold _sendInternal.
  set (r0 := set_catching (_messageID r :: catching r) r).
  assert (wf r0) as Hw0 by (apply (wf_ext r); auto).
  rewrite (_send_array JSON_stringify true true (str "ack") false [VNumber (messageID h)]
             (writeUInt8 0 ++ writeDoubleBE (messageID h)) r0 (serialize_number _)).
  cbn [snd]. change (_messageID r0) with (_messageID r).
  change (_maxPayload r0) with (_maxPayload r). fold frame.
  assert (len frame = 38) as Hlen.
  { subst frame. rewrite len_app, len_serializeHeader, len_app.
    unfold writeDoubleBE at 1. unfold len at 3. rewrite be_encode_length. reflexivity. }
  destruct (enqueue_spec frame false true r0 Hw0) as (Eq & Ec & Ed & _).
  change (_messageID r0) with (_messageID r) in *.
  cbn [orb] in *.
  assert (match _maxPayload r with
          | Some maxPayload =>
              if maxPayload <? len frame
              then settle (_messageID r) (Rejected PayloadTooLarge) (promised r0)
              else enqueue (_messageID r) frame false true (promised r0)
          | None => enqueue (_messageID r) frame false true (promised r0)
          end = enqueue (_messageID r) frame false true (promised r0)) as ->.
  { destruct Hlim as [->|(limit & -> & Hl)]; [reflexivity|].
    rewrite Hlen. destruct (Z.ltb_spec limit 38); [lia|reflexivity]. }
  auto.
Qed.

(** X16.  The acknowledgement loop closes.  When the frame of an accepted
    [send] with [needACK] reaches a socket whose [maxPayload] leaves room
    for the 38 bytes of the answer, that socket transmits at once an
    internal ['ack'] frame; and that frame, delivered to the sender while
    the message is still queued, resolves the promise of the send and takes
    the message out of the queue. *)
Theorem acknowledgement_resolves s r name v prior c fuel :
  live JSON_stringify JSON_parse s -> live JSON_stringify JSON_parse r ->
  Forall plain v -> _messageID s < 2 ^ 53 -> _messageID r < 2 ^ 53 ->
  (_maxPayload r = None \/ exists limit, _maxPayload r = Some limit /\ 38 <= limit) ->
  controls (snd (send JSON_stringify name (DArray v) true prior s)) !! _messageID s
    = Some c ->
  small (data c) -> (length v < fuel)%nat ->
  exists r' a,
    _receiveData JSON_stringify JSON_parse fuel (data c) r = Some r' /\
    controls r' !! _messageID r = Some a /\ sent a = true /\
    In (_messageID r, data a) (sendData r') /\
    forall s2, live JSON_stringify JSON_parse s2 -> In (_messageID s) (_queue s2) ->
      exists s3,
        _receiveData JSON_stringify JSON_parse 2 (data a) s2 = Some s3 /\
        promises s2 !! _messageID s = Some Pending /\
        promises s3 !! _messageID s = Some Resolved /\
        ~ In (_messageID s) (_queue s3).
Proof.
  intros Hl Hlr Hp Hm Hmr Hlim Hc Hs Hf.
  pose proof (wf_live JSON_stringify JSON_parse s Hl) as Hw.
  pose proof (wf_live JSON_stringify JSON_parse r Hlr) as Hwr.
  destruct (steady_live JSON_stringify JSON_parse s Hl) as (_ & _ & _ & Hn).
  destruct (steady_live JSON_stringify JSON_parse r Hlr) as (_ & _ & _ & Hnr).
  pose (m := _messageID s). fold m in Hm, Hn, Hc.
  set (h := header_of false name true m).
  destruct (reply_frame h r Hwr eq_refl Hlim) as (Ec & Ed & _).
  cbn [messageID h header_of] in Ec, Ed.
  set (frame := _serializeHeader true (str "ack") false (of_int (_messageID r))
                  ++ writeUInt8 0 ++ writeDoubleBE (of_int m)) in *.
  set (a := {| data := frame; msgID := _messageID r; sent := true;
               ackWanted := false |}) in *.
  assert (exists r', _receiveData JSON_stringify JSON_parse fuel (data c) r = Some r' /\
            controls r' = controls (reply JSON_stringify h r) /\
            sendData r' = sendData (reply JSON_stringify h r)) as (r' & Hr' & Ec' & Ed').
  { destruct (sent_frame JSON_stringify s name v true prior c Hw Hc) as (body & Hser & Hd).
    fold m in Hd. rewrite Hd in *.
    assert (small body) as Hsb.
    { unfold small in *. rewrite len_app in Hs.
      pose proof (len_nonneg (_serializeHeader false name true (of_int m))). lia. }
    rewrite (receive_frame JSON_stringify JSON_parse fuel false name true m body r
               (conj Hn Hm) Hs).
    cbv zeta. fold h.
    rewrite (deserialize_transported JSON_stringify JSON_parse v body fuel Hp Hser Hsb Hf).
    destruct (_needDeserialize _); eexists; (split; [reflexivity|split; reflexivity]). }
  exists r', a. split; [assumption|].
  rewrite Ec', Ed'. split; [assumption|]. split; [reflexivity|].
  split; [rewrite Ed; apply in_or_app; right; left; reflexivity|].
  intros s2 Hl2 Hin. fold m in Hin |- *. pose proof (wf_live JSON_stringify JSON_parse s2 Hl2) as Hw2.
  cbn [data a].
  assert (small frame) as Hsf
    by (unfold small; subst frame; rewrite len_ack_frame; lia).
  unfold frame.
  rewrite (receive_frame JSON_stringify JSON_parse 2 true (str "ack") false (_messageID r)
             _ s2 (conj Hnr Hmr) Hsf).
  cbv zeta. change (reply JSON_stringify (header_of true (str "ack") false (_messageID r)) s2)
    with s2.
  assert (plain (@VNumber obj (of_int m))) as Hpl.
  { cbn. split; [apply of_int_double|apply canon_of_int]; lia. }
  assert (deserialize JSON_parse 2 (writeUInt8 0 ++ writeDoubleBE (of_int m)) =
          Some (Ret [@VNumber obj (of_int m)])) as ->.
  { apply (deserialize_of_serialize JSON_stringify JSON_parse).
    - apply List.Forall_cons; [assumption|apply List.Forall_nil].
    - apply List.Forall_cons; [exact I|apply List.Forall_nil].
    - apply serialize_number.
    - unfold small, writeUInt8. rewrite len_app, len_cons, len_writeDoubleBE.
      change (len []) with 0. lia.
    - cbn. lia. }
  rewrite (toString_Buffer_from (str "ack") eq_refl), jsstring_eqb_refl.
  unfold ack_key.
  rewrite to_num_of_int by lia.
  destruct (wf_queue s2 Hw2 m Hin) as [[cm Hcm] Hpm].
  assert (queue_get m s2 = Some cm) as -> by (apply queue_get_Some; auto).
  eexists. split; [reflexivity|]. split; [assumption|].
  destruct (control_ack_settles m None s2 Hw2 Hin) as [Hres _].
  split; [exact Hres|].
  rewrite control_ack_queue. intros Hq. apply queue_delete_In in Hq as [_ Hq].
  congruence.
Qed.

End Loops.

(** ** [bufferedAmount], the end of a write, Buffers and ['close'] *)

Section Buffered.
Context {obj : Type}.
Variable JSON_stringify : obj -> res (option jsstring).
Variable JSON_parse : jsstring -> option (@value obj).
Implicit Types s r : @socket obj.

(** *** [bufferedAmount] *)

Lemma bufferedAmount_ext s s' :
  _queue s' = _queue s ->
  (forall k, In k (_queue s) -> data <$> controls s' !! k = data <$> controls s !! k) ->
  bufferedAmount s' = bufferedAmount s.
Proof.
  unfold bufferedAmount. intros ->. generalize (JInt 0).
  induction (_queue s) as [|k q IH]; intros acc H; [reflexivity|].
  cbn [fold_left].
  assert (data <$> controls s' !! k = data <$> controls s !! k) as Hk
    by (apply H; left; reflexivity).
  rewrite IH by (intros k' Hk'; apply H; right; assumption).
  f_equal.
  destruct (controls s' !! k) as [c'|], (controls s !! k) as [c|]; cbn in Hk;
    congruence.
Qed.

Lemma bufferedAmount_snoc s s' k c :
  _queue s' = _queue s ++ [k] ->
  (forall k', In k' (_queue s) -> data <$> controls s' !! k' = data <$> controls s !! k') ->
  controls s' !! k = Some c ->
  bufferedAmount s' = js_add (bufferedAmount s) (JInt (len (data c))).
Proof.
  unfold bufferedAmount. intros -> H Hc. rewrite fold_left_app. cbn [fold_left].
  rewrite Hc. f_equal.
  generalize (JInt 0). revert H.
  induction (_queue s) as [|k0 q IH]; intros H acc; [reflexivity|].
  cbn [fold_left].
  assert (data <$> controls s' !! k0 = data <$> controls s !! k0) as Hk
    by (apply H; left; reflexivity).
  rewrite IH by (intros k' Hk'; apply H; right; assumption).
  f_equal.
  destruct (controls s' !! k0) as [c'|], (controls s !! k0) as [c0|]; cbn in Hk;
    congruence.
Qed.

Lemma bufferedAmount_enqueue s frame ack prior n :
  wf s -> bufferedAmount s = JInt n -> 0 <= n -> n + len frame < 2 ^ 53 ->
  bufferedAmount (enqueue (_messageID s) frame ack prior (promised s)) =
  JInt (n + len frame).
Proof.
  intros Hw Hb Hn Hlt.
  destruct (enqueue_spec frame ack prior s Hw) as (Eq1 & Ec1 & _ & Eo1 & _).
  rewrite (bufferedAmount_snoc s _ _ _ Eq1) with (2 := Ec1).
  - rewrite Hb. cbn [data]. apply js_add_int. pose proof (len_nonneg frame). lia.
  - intros k Hk. rewrite Eo1; [reflexivity|].
    intros ->. pose proof (queued_below s _ Hw Hk). lia.
Qed.

(** X17.  [bufferedAmount] counts whole frames: an accepted [send] raises it
    by 26 bytes of header plus the bytes of the name and of the serialized
    body, a rejected one leaves it as it was, and after ['close'] it is 0. *)
Theorem bufferedAmount_send s name v ack prior body n :
  live JSON_stringify JSON_parse s ->
  serialize JSON_stringify v = Ret body ->
  bufferedAmount s = JInt n -> 0 <= n ->
  n + (26 + len (Buffer_from name) + len body) < 2 ^ 53 ->
  let s' := snd (send JSON_stringify name (DArray v) ack prior s) in
  (In (_messageID s) (_queue s') ->
     bufferedAmount s' = JInt (n + (26 + len (Buffer_from name) + len body))) /\
  (~ In (_messageID s) (_queue s') -> bufferedAmount s' = JInt n) /\
  bufferedAmount (on_close s') = JInt 0.
Proof.
  intros Hl Hser Hb Hn Hlt s'.
  pose proof (wf_live JSON_stringify JSON_parse s Hl) as Hw.
  assert (~ In (_messageID s) (_queue s)) as Hfresh.
  { intros Hin. pose proof (queued_below s _ Hw Hin). lia. }
  assert (wf s') as Hw' by (apply wf_send; assumption).
  assert (bufferedAmount (on_close s') = JInt 0) as Hclose.
  { unfold bufferedAmount.
    destruct (on_close_spec (_queue s') s' Hw' eq_refl) as (Eq & _).
    fold (on_close s') in Eq. rewrite Eq. reflexivity. }
  clear Hw'. subst s'. unfold send in *.
  rewrite (_send_array JSON_stringify false prior name ack v body s Hser) in *.
  cbn [snd] in *.
  set (frame := _serializeHeader false name ack (of_int (_messageID s)) ++ body) in *.
  assert (len frame = 26 + len (Buffer_from name) + len body) as Hlen
    by (subst frame; rewrite len_app, len_serializeHeader; reflexivity).
  rewrite <- Hlen in *.
  destruct (rejected_frame PayloadTooLarge s) as (Eq0 & Ec0 & _).
  destruct (enqueue_spec frame ack prior s Hw) as (Eq1 & _).
  pose proof (bufferedAmount_enqueue s frame ack prior n Hw Hb Hn Hlt) as Henq.
  assert (bufferedAmount (settle (_messageID s) (Rejected PayloadTooLarge) (promised s))
          = JInt n) as Hrej.
  { rewrite <- Hb. apply bufferedAmount_ext; [assumption|]. intros k _. rewrite Ec0.
    reflexivity. }
  assert (In (_messageID s) (_queue s ++ [_messageID s])) as Hlast
    by (apply in_or_app; right; left; reflexivity).
  split; [|split; [|assumption]].
  - destruct (_maxPayload s) as [limit|]; [destruct (limit <? len frame)|];
      intros Hin; try assumption.
    rewrite Eq0 in Hin. contradiction.
  - destruct (_maxPayload s) as [limit|]; [destruct (limit <? len frame)|];
      intros Hnin; try assumption; rewrite Eq1 in Hnin; contradiction.
Qed.

(** *** The write completes *)

(** X18.  When the transport reports on the write of a message.  While the
    message is queued: without error and with [needACK], nothing changes
    (the message stays queued, its promise pending, until the peer
    acknowledges); without error and without [needACK], the promise is
    resolved and the message leaves the queue; with an error, the promise is
    rejected with it and the message leaves the queue.  Once the message has
    left the queue (it was acknowledged first), the report changes
    nothing. *)
Theorem write_completion s id c :
  live JSON_stringify JSON_parse s ->
  In id (writing s) -> controls s !! id = Some c ->
  (In id (_queue s) ->
     (ackWanted c = true ->
        _queue (written id None s) = _queue s /\
        promises (written id None s) = promises s /\
        controls (written id None s) = controls s /\
        sendData (written id None s) = sendData s) /\
     (ackWanted c = false ->
        promises (written id None s) !! id = Some Resolved /\
        _queue (written id None s) = queue_delete id (_queue s)) /\
     (forall e,
        promises (written id (Some e) s) !! id = Some (Rejected e) /\
        _queue (written id (Some e) s) = queue_delete id (_queue s))) /\
  (~ In id (_queue s) ->
     forall err,
       _queue (written id err s) = _queue s /\
       promises (written id err s) = promises s /\
       controls (written id err s) = controls s /\
       sendData (written id err s) = sendData s).
Proof.
  intros Hl _ Hc. pose proof (wf_live JSON_stringify JSON_parse s Hl) as Hw.
  destruct (steady_live JSON_stringify JSON_parse s Hl) as (_ & Ho & _).
  unfold written. cbv zeta.
  set (s0 := set_writing (List.filter (fun x => negb (x =? id)) (writing s)) s).
  assert (wf s0) as Hw0 by (apply (wf_ext s); auto).
  change (controls s0 !! id) with (controls s !! id). rewrite Hc.
  split.
  - intros Hin.
    destruct (control_ack_settles id None s0 Hw0 Hin) as [Hres _].
    pose proof (control_ack_queue id None s0) as Hq.
    split; [|split].
    + intros ->. auto.
    + intros ->. auto.
    + intros e.
      destruct (control_ack_settles id (Some e) s0 Hw0 Hin) as [Hrej _].
      pose proof (control_ack_queue id (Some e) s0) as Hqe.
      destruct (ackWanted c); auto.
  - intros Hn err.
    assert (control_ack id err s0 = s0) as Hnoop.
    { apply control_ack_again; [assumption|].
      intros Hp. apply Hn. apply (pending_queued s id Hw Ho). assumption. }
    destruct (ackWanted c); [destruct err|]; rewrite ?Hnoop; auto.
Qed.

(** *** What [send] does with a Buffer *)

(** X19.  What [send] does with data that is no array: a Buffer marked as
    made by [serialize] is sent exactly as the array it was made from; a
    Buffer without the mark, and anything that is neither array nor Buffer,
    is rejected at once with its own error, nothing being queued or
    transmitted, and the call still consumes a message id. *)
Theorem send_buffer s name ack prior v b :
  (serialize JSON_stringify v = Ret b ->
     send JSON_stringify name (DBuffer b true) ack prior s =
     send JSON_stringify name (DArray v) ack prior s) /\
  (let r := send JSON_stringify name (DBuffer b false) ack prior s in
   fst r = _messageID s /\
   promises (snd r) !! _messageID s = Some (Rejected NotSerialized) /\
   _queue (snd r) = _queue s /\ controls (snd r) = controls s /\
   sendData (snd r) = sendData s /\ _messageID (snd r) = _messageID s + 1) /\
  (let r := send JSON_stringify name DOther ack prior s in
   fst r = _messageID s /\
   promises (snd r) !! _messageID s = Some (Rejected BadDataType) /\
   _queue (snd r) = _queue s /\ controls (snd r) = controls s /\
   sendData (snd r) = sendData s /\ _messageID (snd r) = _messageID s + 1).
Proof.
  split; [|split].
  - intros Hser. unfold send, _send. cbv zeta. rewrite Hser. reflexivity.
  - cbv zeta. unfold send, _send. cbv zeta. cbn [bind fst snd].
    destruct (rejected_frame NotSerialized s) as (Eq & Ec & Ed & Em & Hp & _).
    unfold promised in *. auto 7.
  - cbv zeta. unfold send, _send. cbv zeta. cbn [bind fst snd].
    destruct (rejected_frame BadDataType s) as (Eq & Ec & Ed & Em & Hp & _).
    unfold promised in *. auto 7.
Qed.

(** X20.  The handler of ['close'] is registered with [on], not [once]; a
    second ['close'] changes nothing. *)
Theorem on_close_idempotent s :
  live JSON_stringify JSON_parse s -> on_close (on_close s) = on_close s.
Proof.
  intros Hl. pose proof (wf_live JSON_stringify JSON_parse s Hl) as Hw.
  destruct (on_close_spec (_queue s) s Hw eq_refl) as (Eq & _).
  fold (on_close s) in Eq. unfold on_close at 1. rewrite Eq. reflexivity.
Qed.

End Buffered.

(** ** After [cancel] *)

Section Cancelled.
Context {obj : Type}.
Variable JSON_stringify : obj -> res (option jsstring).
Variable JSON_parse : jsstring -> option (@value obj).
Implicit Types s : @socket obj.

Lemma shelved_ext id s s' :
  _queue s' = _queue s -> controls s' = controls s -> _messageID s' = _messageID s ->
  shelved id s -> shelved id s'.
Proof. unfold shelved. intros -> -> ->. auto. Qed.

Lemma shelved_removed id k o s :
  shelved id s -> shelved id (settle k o (set_queue (queue_delete k (_queue s)) s)).
Proof.
  intros (Hq & Hm & Hc). destruct (removed_frame k o s) as (Eq & Ec & Em & _).
  unfold shelved. rewrite Eq, Ec, Em. split; [|auto].
  intros Hin. apply queue_delete_In in Hin as [Hin _]. auto.
Qed.

Lemma shelved_control_ack id k err s :
  wf s -> shelved id s -> shelved id (control_ack k err s).
Proof.
  intros _ Hs. pose proof (shelved_removed id k (outcome err) s Hs) as H1.
  destruct (control_ack_unfold k err s) as [->|(h & Hh & ->)]; [assumption|].
  set (s1 := settle k (outcome err) (set_queue (queue_delete k (_queue s)) s)) in *.
  destruct H1 as (Hq & Hm & Hc).
  destruct (control_send_frame h s1) as (Eq & _ & Em & _).
  unfold shelved. rewrite Eq, Em. split; [assumption|]. split; [assumption|].
  rewrite control_send_controls; [assumption|].
  intros ->. apply Hq. destruct (_queue s1); [discriminate|].
  injection Hh as ->. left. reflexivity.
Qed.

Lemma shelved_control_cancel id k err s :
  wf s -> shelved id s -> shelved id (snd (control_cancel k err s)).
Proof.
  intros _ Hs. destruct (control_cancel_cases k err s) as [->|(c & _ & _ & ->)];
    cbn [snd]; [assumption|].
  apply shelved_removed. assumption.
Qed.

Lemma shelved_send id isInternal prior name ack body s :
  wf s -> shelved id s ->
  shelved id (snd (_send JSON_stringify isInternal prior name ack body s)).
Proof.
  intros Hw (Hq & Hm & Hc).
  destruct (_send_cases JSON_stringify isInternal prior name ack body s)
    as [[e ->]|[d ->]]; cbn [snd].
  - destruct (rejected_frame e s) as (Eq & Ec & _ & Em & _).
    unfold shelved. rewrite Eq, Ec, Em. split; [assumption|]. split; [lia|assumption].
  - destruct (enqueue_spec d ack prior s Hw) as (Eq & _ & _ & Eo & _).
    unfold shelved. rewrite Eq, enqueue_messageID, Eo by lia.
    split; [|split; [lia|assumption]].
    intros Hin. apply in_app_or in Hin as [Hin|[Heq|[]]]; [auto|lia].
Qed.

Lemma shelved_reachable id init s :
  wf init -> shelved id init ->
  reachable JSON_stringify JSON_parse any init s -> shelved id s.
Proof.
  apply (kept_reachable JSON_stringify JSON_parse any (shelved id)).
  - intros t t' Eq Ec _ Em _. apply shelved_ext; assumption.
  - apply shelved_control_ack.
  - apply shelved_control_cancel.
  - intros name body ack prior t _. apply shelved_send.
  - intros frame h t _ _ Hw Hs. unfold reply. destruct (needACK h); [|assumption].
    apply shelved_send; [apply (wf_ext t); auto|].
    apply (shelved_ext id t); auto.
Qed.

(** X21.  A message whose [cancel] returned true is never transmitted:
    whatever the socket does afterwards, [_sendData] is not called for it,
    and its id does not come back into the queue. *)
Theorem cancelled_never_transmitted s id err s2 :
  live JSON_stringify JSON_parse s ->
  fst (cancel id err s) = true ->
  reachable JSON_stringify JSON_parse any (snd (cancel id err s)) s2 ->
  ~ In id (_queue s2) /\ forall d, ~ In (id, d) (sendData s2).
Proof.
  intros Hl Hc Hr. pose proof (wf_live JSON_stringify JSON_parse s Hl) as Hw.
  assert (exists c, In id (_queue s) /\ controls s !! id = Some c /\ sent c = false)
    as (c & Hin & Hcc & Hs).
  { destruct (in_dec Z.eq_dec id (_queue s)) as [Hin|Hn].
    - destruct (wf_queue s Hw id Hin) as [[c Hcc] _]. exists c.
      destruct (sent c) eqn:Es; [|auto].
      rewrite (cancel_sent id err s c Hin Hcc Es) in Hc. discriminate.
    - rewrite (cancel_absent id err s Hw Hn) in Hc. discriminate. }
  destruct (cancel_unsent id err s c Hw Hin Hcc Hs) as (Ec & Hnq & _ & _ & _ & Ectl).
  cbv zeta in *. rewrite Ec in Hr. cbn [snd] in Hr.
  set (s1 := settle id (outcome err) (set_queue (queue_delete id (_queue s)) s)) in *.
  assert (wf s1) as Hw1 by (apply wf_remove; [assumption|apply outcome_not_pending]).
  assert (shelved id s1) as Hs1.
  { split; [assumption|]. destruct (removed_frame id (outcome err) s) as (_ & _ & Em & _).
    fold s1 in Em. rewrite Em, Ectl.
    split; [eapply queued_below; eassumption|eauto]. }
  destruct (shelved_reachable id s1 s2 Hw1 Hs1 Hr) as (Hq2 & _ & c2 & Hc2 & Hu2).
  split; [assumption|]. intros d Hd.
  assert (live JSON_stringify JSON_parse s2) as Hl2.
  { destruct Hl as (mp & nd & Hreach). exists mp, nd.
    assert (reachable JSON_stringify JSON_parse any (new_socket mp nd) s1) as H1.
    { apply (reach_step _ _ _ _ s (Cancel id err)); [assumption|exact I|].
      pose proof (step_cancel JSON_stringify JSON_parse s id err) as Hst.
      rewrite Ec in Hst. exact Hst. }
    clear - H1 Hr. induction Hr as [|t a t' _ IH Hp Hst]; [assumption|].
    eapply reach_step; eassumption. }
  destruct (steady_live JSON_stringify JSON_parse s2 Hl2) as (_ & _ & Hlg & _).
  destruct (lg_sound s2 Hlg id d Hd) as (c3 & Hc3 & Hs3 & _). congruence.
Qed.

End Cancelled.

(** ** The events of a frame *)

Section Events.
Context {obj : Type}.
Variable JSON_stringify : obj -> res (option jsstring).
Variable JSON_parse : jsstring -> option (@value obj).
Implicit Types s r : @socket obj.

Lemma settle_emitted id o s :
  emitted (settle id o s) = emitted s \/
  exists e, o = Rejected e /\ emitted (settle id o s) = emitted s ++ [EError e].
Proof.
  unfold settle. destruct (promises s !! id) as [[| |]|]; auto.
  destruct o as [| |e]; auto. fields.
  destruct (mem id (catching s)); [right; eauto|auto].
Qed.

Lemma enqueue_emitted id d ack prior s :
  emitted (enqueue id d ack prior s) = emitted s.
Proof.
  unfold enqueue. cbv zeta. destruct (_ || _); rewrite ?control_send_emitted; reflexivity.
Qed.

Lemma reply_emitted h s :
  emitted (reply JSON_stringify h s) = emitted s \/
  exists e, emitted (reply JSON_stringify h s) = emitted s ++ [EError e].
Proof.
  unfold reply. destruct (needACK h); [|auto]. unfold _sendInternal.
  match goal with |- context [_send ?j ?i ?p ?n ?a ?b ?t] =>
    destruct (_send_cases j i p n a b t) as [[e ->]|[d ->]] end; cbn [snd].
  - match goal with |- context [settle ?i ?o ?t] =>
      destruct (settle_emitted i o t) as [->|(e' & _ & ->)] end; [auto|eauto].
  - rewrite enqueue_emitted. auto.
Qed.

(** X22.  A socket whose [maxPayload] is below 38 cannot acknowledge: the
    answer to a frame that asks for an acknowledgement is an internal frame
    of 38 bytes, so its send is rejected at once; the rejection is caught and
    emitted as ['error'], nothing is queued and nothing is transmitted. *)
Theorem small_limit_blocks_ack h r limit :
  needACK h = true -> _maxPayload r = Some limit -> limit < 38 ->
  let r1 := reply JSON_stringify h r in
  promises r1 !! _messageID r = Some (Rejected PayloadTooLarge) /\
  emitted r1 = emitted r ++ [EError PayloadTooLarge] /\
  _queue r1 = _queue r /\ controls r1 = controls r /\ sendData r1 = sendData r.
Proof.
  intros Hack Hmax Hlim r1. subst r1. unfold reply. rewrite Hack.
  unfold _sendInternal.
  set (r0 := set_catching (_messageID r :: catching r) r).
  rewrite (_send_array JSON_stringify true true (str "ack") false [VNumber (messageID h)]
             (writeUInt8 0 ++ writeDoubleBE (messageID h)) r0
             (serialize_number JSON_stringify _)).
  cbn [snd]. change (_messageID r0) with (_messageID r).
  change (_maxPayload r0) with (_maxPayload r). rewrite Hmax.
  set (frame := _serializeHeader true (str "ack") false (of_int (_messageID r))
                  ++ writeUInt8 0 ++ writeDoubleBE (messageID h)).
  assert (len frame = 38) as Hlen.
  { subst frame. rewrite len_app, len_serializeHeader, len_app.
    unfold writeDoubleBE at 1. unfold len at 3. rewrite be_encode_length. reflexivity. }
  rewrite Hlen. destruct (Z.ltb_spec limit 38); [|lia].
  destruct (rejected_frame PayloadTooLarge r0) as (Eq & Ec & Ed & _ & Hp & _).
  change (_messageID r0) with (_messageID r) in *.
  split; [assumption|]. split; [|auto].
  unfold settle, promised. fields. rewrite lookup_insert_eq. fields.
  subst r0. fields. unfold mem. cbn [existsb]. rewrite Z.eqb_refl. reflexivity.
Qed.

(** X23.  An internal frame never surfaces: whatever [_receiveData] does
    with a frame whose header says [isInternal], the events it emits are
    ['error'] events only, never a ['message']. *)
Theorem internal_frame_is_silent fuel frame h s s' ev :
  _deserializeHeader frame = Ret h -> isInternal h = true ->
  _receiveData JSON_stringify JSON_parse fuel frame s = Some s' ->
  In ev (emitted s') -> In ev (emitted s) \/ exists e, ev = EError e.
Proof.
  intros Hh Hi Hr Hev. rewrite _receiveData_reply, Hh in Hr. cbv zeta in Hr.
  rewrite Hi in Hr.
  assert (forall x, In x (emitted (reply JSON_stringify h s)) ->
                    In x (emitted s) \/ exists e, x = EError e) as H1.
  { intros x Hx. destruct (reply_emitted h s) as [E|(e & E)]; rewrite E in Hx; [auto|].
    apply in_app_or in Hx as [Hx|[<-|[]]]; eauto. }
  set (s1 := reply JSON_stringify h s) in *. clearbody s1.
  destruct (deserialize _ _ _) as [[items|e]|]; [| |discriminate].
  - destruct (jsstring_eqb _ _); [|injection Hr as <-; auto].
    destruct (ack_key items) as [k|]; [|injection Hr as <-; auto].
    destruct (queue_get k s1); injection Hr as <-; [|auto].
    rewrite control_ack_resolved_emitted in Hev. auto.
  - injection Hr as <-. fields. apply in_app_or in Hev as [Hev|[<-|[]]]; eauto.
Qed.

End Events.

(** ** The [BaseSocket] of server/Socket.ts *)

Lemma sorted_NoDup (q : list Z) : StronglySorted Z.lt q -> List.NoDup q.
Proof.
  induction 1 as [|x q Hs IH Hx]; constructor; [|assumption].
  intros Hin. rewrite List.Forall_forall in Hx. specialize (Hx x Hin). lia.
Qed.

Lemma sorted_head_least (h : Z) q x :
  StronglySorted Z.lt (h :: q) -> In x q -> h < x.
Proof.
  intros Hs Hin. inversion Hs as [|? ? _ Hall]; subst.
  rewrite List.Forall_forall in Hall. auto.
Qed.

Lemma readUInt32BE_at (w rest : list byte) :
  length w = 4%nat -> readUInt32BE (w ++ rest) (JInt 0) = Ret (be_decode w).
Proof.
  intros Hw. unfold readUInt32BE, valid_offset. rewrite len_app.
  assert (len w = 4) as -> by (unfold len; rewrite Hw; reflexivity).
  pose proof (len_nonneg rest).
  destruct (Z.leb_spec (0 + 4) (4 + len rest)); [|lia].
  change (0 <=? 0) with true. cbn [andb]. change (Z.to_nat 0) with 0%nat.
  rewrite drop_0, take_app_length' by (symmetry; assumption). reflexivity.
Qed.

Lemma readUInt32BE_short data : len data < 4 -> readUInt32BE data (JInt 0) = Throw RangeError.
Proof.
  intros H. unfold readUInt32BE, valid_offset.
  destruct (Z.leb_spec (0 + 4) (len data)); [lia|]. reflexivity.
Qed.

Section TitledProofs.
Import Titled.
Implicit Types s : socket.

Ltac tfields :=
  cbn [_messageID _sendingQueue maxPayload items promises sendData writing last_thens
       emitted set_messageID set_queue set_items set_promises set_sendData set_writing
       set_last_thens emit] in *.

Lemma t_settle_pending id o s :
  promises s !! id = Some Pending ->
  settle id o s = set_promises (<[id := o]> (promises s)) s.
Proof. unfold settle. intros ->. reflexivity. Qed.

Lemma t_queued_below s id : shape s -> In id (_sendingQueue s) -> id < _messageID s.
Proof.
  intros Hs Hin. destruct (Z.lt_ge_cases id (_messageID s)) as [|Hge]; [assumption|].
  destruct (sh_queue s Hs id Hin) as [[it Hit] _].
  destruct (sh_fresh s Hs id Hge) as [Hn _]. congruence.
Qed.

Lemma t_item_below s id it : shape s -> items s !! id = Some it -> id < _messageID s.
Proof.
  intros Hs Hit. destruct (Z.lt_ge_cases id (_messageID s)) as [|Hge]; [assumption|].
  destruct (sh_fresh s Hs id Hge) as [Hn _]. congruence.
Qed.

Lemma shape_ext s s' :
  _messageID s' = _messageID s -> _sendingQueue s' = _sendingQueue s ->
  items s' = items s -> promises s' = promises s -> sendData s' = sendData s ->
  writing s' = writing s -> shape s -> shape s'.
Proof.
  intros Em Eq Ei Ep Ed Ew [H1 H2 H3 H4 H5 H6 H7 H8 H9 H10].
  constructor; rewrite ?Em, ?Eq, ?Ei, ?Ep, ?Ed, ?Ew; assumption.
Qed.

Lemma moving_ext s s' :
  _sendingQueue s' = _sendingQueue s -> items s' = items s ->
  last_thens s' = last_thens s -> moving s -> moving s'.
Proof. unfold moving. intros -> -> ->. auto. Qed.

(** *** The closure [send()] on the first item of the queue *)

Lemma item_send_cases id err s :
  item_send id err s = s /\
    (items s !! id = None \/ exists it, items s !! id = Some it /\ sent it = true)
  \/
  exists it, items s !! id = Some it /\ sent it = false /\
    item_send id err s =
      let s1 := set_items (<[id := {| size := size it; sent := true;
                                      r_data := r_data it |}]> (items s)) s in
      match err with
      | Some e =>
          let s2 := settle id (Rejected e) s1 in
          set_queue (queue_delete id (_sendingQueue s2)) s2
      | None =>
          set_writing (writing s ++ [id]) (set_sendData (sendData s ++ [(id, r_data it)]) s1)
      end.
Proof.
  unfold item_send. destruct (items s !! id) as [it|] eqn:E; [|left; auto].
  destruct (sent it) eqn:Es; [left; eauto|]. right. exists it.
  split; [reflexivity|]. split; [assumption|]. destruct err; reflexivity.
Qed.

Lemma shape_send_head h s :
  shape s -> hd_error (_sendingQueue s) = Some h ->
  shape (item_send h None s) /\
  exists it, items (item_send h None s) !! h = Some it /\ sent it = true.
Proof.
  intros Hs Hh.
  assert (In h (_sendingQueue s)) as Hin
    by (destruct (_sendingQueue s); [discriminate|injection Hh as ->; left; reflexivity]).
  destruct (item_send_cases h None s) as [[-> [Hn|(it & Hit & Hsent)]]|(it & Hit & Hu & ->)].
  - destruct (sh_queue s Hs h Hin) as [[it Hit] _]. congruence.
  - split; [assumption|eauto].
  - cbv zeta. split; [|tfields; rewrite lookup_insert_eq; eauto].
    pose proof (t_queued_below s h Hs Hin) as Hb.
    destruct Hs as [H1 H2 H3 H4 H5 H6 H7 H8 H9 H10].
    assert (forall i, In i (map fst (sendData s)) -> i < h) as Hlt.
    { intros i Hi. pose proof (H10 i h Hi Hh) as Hle.
      apply in_map_iff in Hi as ([i' d] & Hi' & Hid). cbn [fst] in Hi'. subst i'.
      destruct (H8 i d Hid) as (it' & Hit' & Hs' & _).
      assert (i <> h) by (intros ->; congruence). lia. }
    constructor; tfields.
    + assumption.
    + intros id Hid. destruct (H2 id Hid) as [Hi Hp]. split; [|assumption].
      destruct (decide (id = h)) as [->|Hne];
        [rewrite lookup_insert_eq; eauto|rewrite lookup_insert_ne by congruence; assumption].
    + intros id Hid. destruct (H3 id Hid) as [Hi Hp]. split; [|assumption].
      rewrite lookup_insert_ne by lia. assumption.
    + assumption.
    + intros id it' Hit' Hs'. apply (H5 id it'); [|assumption].
      destruct (decide (id = h)) as [->|Hne].
      * rewrite lookup_insert_eq in Hit'. injection Hit' as <-. discriminate.
      * rewrite lookup_insert_ne in Hit' by congruence. assumption.
    + intros id it' Hid Hit' Hs'.
      destruct (decide (id = h)) as [->|Hne].
      * split; [assumption|]. apply in_or_app. right. left. reflexivity.
      * rewrite lookup_insert_ne in Hit' by congruence.
        destruct (H6 id it' Hid Hit' Hs') as [Hhd _]. congruence.
    + intros id Hid. apply in_app_or in Hid as [Hid|[<-|[]]].
      * destruct (H7 id Hid) as (Hq & it' & Hit' & Hs'). split; [assumption|].
        assert (id <> h) as Hne by (intros ->; congruence).
        rewrite lookup_insert_ne by congruence. eauto.
      * split; [assumption|]. rewrite lookup_insert_eq. eauto.
    + intros id d Hid. apply in_app_or in Hid as [Hid|[[= <- <-]|[]]].
      * destruct (H8 id d Hid) as (it' & Hit' & Hs' & Hd').
        assert (id <> h) as Hne by (intros ->; congruence).
        rewrite lookup_insert_ne by congruence. eauto.
      * rewrite lookup_insert_eq. eexists. repeat split.
    + rewrite map_app. cbn [map fst]. apply sorted_snoc; assumption.
    + intros id h' Hid Hh'. rewrite Hh in Hh'. injection Hh' as <-.
      rewrite map_app in Hid. cbn [map fst] in Hid.
      apply in_app_or in Hid as [Hid|[<-|[]]]; [|lia]. specialize (Hlt id Hid). lia.
Qed.

Lemma moving_send_head h s :
  shape s -> hd_error (_sendingQueue s) = Some h -> moving (item_send h None s).
Proof.
  intros Hs Hh. destruct (shape_send_head h s Hs Hh) as [_ (it & Hit & Hsent)].
  assert (_sendingQueue (item_send h None s) = _sendingQueue s) as Eq.
  { destruct (item_send_cases h None s) as [[-> _]|(it' & _ & _ & ->)]; reflexivity. }
  intros h' it' Hh' Hit' Hu. rewrite Eq, Hh in Hh'. injection Hh' as <-. congruence.
Qed.

(** *** [cancel] *)

Lemma cancel_cases k e s :
  shape s ->
  cancel k e s = s /\
    (~ In k (_sendingQueue s) \/
     exists it, In k (_sendingQueue s) /\ items s !! k = Some it /\ sent it = true)
  \/
  exists it, In k (_sendingQueue s) /\ items s !! k = Some it /\ sent it = false /\
    cancel k e s =
      set_queue (queue_delete k (_sendingQueue s))
        (set_promises (<[k := Rejected e]> (promises s))
           (set_items (<[k := {| size := size it; sent := true;
                                 r_data := r_data it |}]> (items s)) s)).
Proof.
  intros Hs. unfold cancel. destruct (mem k (_sendingQueue s)) eqn:Em.
  2:{ left. split; [reflexivity|]. left. apply mem_false. assumption. }
  apply mem_In in Em. destruct (sh_queue s Hs k Em) as [[it Hit] Hp].
  destruct (item_send_cases k (Some e) s) as [[-> [Hn|(it' & Hit' & Hs')]]|(it' & Hit' & Hu & ->)].
  - congruence.
  - left. split; [reflexivity|]. right. eauto.
  - right. exists it'. split; [assumption|]. split; [assumption|]. split; [assumption|].
    cbv zeta. rewrite t_settle_pending by (tfields; assumption). reflexivity.
Qed.

Lemma shape_cancel k e s : shape s -> shape (cancel k e s).
Proof.
  intros Hs.
  destruct (cancel_cases k e s Hs) as [[-> _]|(it & Hin & Hit & Hu & ->)]; [assumption|].
  pose proof (t_queued_below s k Hs Hin) as Hb.
  pose proof Hs as [H1 H2 H3 H4 H5 H6 H7 H8 H9 H10].
  constructor; tfields.
  - apply sorted_delete. assumption.
  - intros id Hid. apply queue_delete_In in Hid as [Hid Hne].
    rewrite !lookup_insert_ne by congruence. apply H2. assumption.
  - intros id Hid. rewrite !lookup_insert_ne by lia. apply H3. assumption.
  - intros id Hp. destruct (decide (id = k)) as [->|Hne].
    + rewrite lookup_insert_eq in Hp. discriminate.
    + rewrite lookup_insert_ne in Hp by congruence. apply queue_delete_In. auto.
  - intros id it' Hit' Hs'. destruct (decide (id = k)) as [->|Hne].
    + rewrite lookup_insert_eq in Hit'. injection Hit' as <-. discriminate.
    + rewrite lookup_insert_ne in Hit' by congruence. apply queue_delete_In. eauto.
  - intros id it' Hid Hit' Hs'. apply queue_delete_In in Hid as [Hid Hne].
    rewrite lookup_insert_ne in Hit' by congruence.
    destruct (H6 id it' Hid Hit' Hs') as [Hhd Hw]. split; [|assumption].
    apply hd_queue_delete; assumption.
  - intros id Hid. destruct (H7 id Hid) as (Hq & it' & Hit' & Hs').
    assert (id <> k) as Hne by (intros ->; congruence).
    split; [apply queue_delete_In; auto|].
    rewrite lookup_insert_ne by congruence. eauto.
  - intros id d Hid. destruct (H8 id d Hid) as (it' & Hit' & Hs' & Hd').
    assert (id <> k) as Hne by (intros ->; congruence).
    rewrite lookup_insert_ne by congruence. eauto.
  - assumption.
  - intros id h Hid Hh.
    destruct (_sendingQueue s) as [|h0 q] eqn:Hq; [discriminate|].
    pose proof (H10 id h0 Hid eq_refl) as Hle.
    destruct (Z.eq_dec h0 k) as [->|Hne].
    + rewrite queue_delete_head in Hh by (apply sorted_NoDup; assumption).
      assert (In h q) as Hhq by (destruct q; [discriminate|injection Hh as ->; left; reflexivity]).
      pose proof (sorted_head_least k q h H1 Hhq). lia.
    + rewrite queue_delete_other in Hh by assumption. injection Hh as <-. assumption.
Qed.

Lemma moving_cancel k e s : shape s -> moving s -> moving (cancel k e s).
Proof.
  intros Hs Hm.
  destruct (cancel_cases k e s Hs) as [[-> _]|(it & Hin & Hit & Hu & ->)]; [assumption|].
  intros h it' Hh Hit' Hu'. tfields.
  destruct (_sendingQueue s) as [|h0 q] eqn:Hq; [discriminate|].
  destruct (Z.eq_dec h0 k) as [->|Hne].
  - apply (Hm k it); [rewrite Hq; reflexivity|assumption|assumption].
  - rewrite queue_delete_other in Hh by assumption. injection Hh as <-.
    rewrite lookup_insert_ne in Hit' by congruence.
    apply (Hm h0 it'); [rewrite Hq; reflexivity|assumption|assumption].
Qed.

(** *** The transport is done with a frame *)

Lemma written_flight id s :
  shape s -> In id (writing s) ->
  exists q it, _sendingQueue s = id :: q /\ items s !! id = Some it /\ sent it = true /\
               promises s !! id = Some Pending.
Proof.
  intros Hs Hw. destruct (sh_writing s Hs id Hw) as (Hin & it & Hit & Hsent).
  destruct (sh_flight s Hs id it Hin Hit Hsent) as [Hhd _].
  destruct (sh_queue s Hs id Hin) as [_ Hp].
  destruct (_sendingQueue s) as [|h q]; [discriminate|]. injection Hhd as ->.
  exists q, it. auto.
Qed.

Lemma written_unfold id err s :
  shape s -> In id (writing s) ->
  exists q, _sendingQueue s = id :: q /\
    written id err s =
      set_last_thens (S (last_thens s))
        (set_promises (<[id := outcome err]> (promises s))
           (set_queue q
              (set_writing (List.filter (fun x => negb (x =? id)) (writing s)) s))).
Proof.
  intros Hs Hw. destruct (written_flight id s Hs Hw) as (q & it & Hq & Hit & Hsent & Hp).
  exists q. split; [assumption|]. unfold written. cbv zeta.
  rewrite t_settle_pending by (tfields; assumption). tfields.
  rewrite Hq, queue_delete_head; [reflexivity|].
  apply sorted_NoDup. rewrite <- Hq. apply Hs.
Qed.

Lemma shape_written id err s : shape s -> In id (writing s) -> shape (written id err s).
Proof.
  intros Hs Hw.
  destruct (written_flight id s Hs Hw) as (q0 & it & Hq0 & Hit & Hsent & Hp).
  destruct (written_unfold id err s Hs Hw) as (q & Hq & ->).
  pose proof Hs as [H1 H2 H3 H4 H5 H6 H7 H8 H9 H10].
  assert (In id (_sendingQueue s)) as Hin by (rewrite Hq; left; reflexivity).
  pose proof (t_queued_below s id Hs Hin) as Hb.
  assert (~ In id q) as Hnq.
  { pose proof (sorted_NoDup _ H1) as Hnd. rewrite Hq in Hnd.
    inversion Hnd; assumption. }
  assert (forall x, In x q -> In x (_sendingQueue s) /\ x <> id) as Hsub.
  { intros x Hx. split; [rewrite Hq; right; assumption|]. intros ->. contradiction. }
  assert (forall x it', In x (_sendingQueue s) -> items s !! x = Some it' ->
                        sent it' = true -> x = id) as Hone.
  { intros x it' Hx Hit' Hs'. destruct (H6 x it' Hx Hit' Hs') as [Hhd _].
    rewrite Hq in Hhd. injection Hhd as <-. reflexivity. }
  constructor; tfields.
  - rewrite Hq in H1. inversion H1; assumption.
  - intros x Hx. destruct (Hsub x Hx) as [Hx' Hne].
    rewrite lookup_insert_ne by congruence. apply H2. assumption.
  - intros x Hx. rewrite lookup_insert_ne by lia. apply H3. assumption.
  - intros x Hx. destruct (decide (x = id)) as [->|Hne].
    + rewrite lookup_insert_eq in Hx. injection Hx as Hx.
      exfalso. apply (outcome_not_pending err). assumption.
    + rewrite lookup_insert_ne in Hx by congruence.
      pose proof (H4 x Hx) as Hx'. rewrite Hq in Hx'. destruct Hx' as [->|]; [congruence|assumption].
  - intros x it' Hit' Hu. pose proof (H5 x it' Hit' Hu) as Hx'.
    rewrite Hq in Hx'. destruct Hx' as [<-|]; [congruence|assumption].
  - intros x it' Hx Hit' Hs'. destruct (Hsub x Hx) as [Hx' Hne].
    exfalso. apply Hne. eapply Hone; eassumption.
  - intros x Hx. apply List.filter_In in Hx as [Hx Hne].
    destruct (H7 x Hx) as (Hx' & it' & Hit' & Hs').
    exfalso. rewrite (Hone x it' Hx' Hit' Hs') in Hne.
    rewrite Z.eqb_refl in Hne. discriminate.
  - assumption.
  - assumption.
  - intros x h Hx Hh.
    assert (In h q) as Hhq by (destruct q; [discriminate|injection Hh as ->; left; reflexivity]).
    pose proof (H10 x id Hx) as Hle. rewrite Hq in Hle. specialize (Hle eq_refl).
    rewrite Hq in H1. pose proof (sorted_head_least id q h H1 Hhq). lia.
Qed.

Lemma moving_written id err s : shape s -> In id (writing s) -> moving (written id err s).
Proof.
  intros Hs Hw. destruct (written_unfold id err s Hs Hw) as (q & Hq & ->).
  intros h it _ _ _. tfields. lia.
Qed.

(** *** The last [.then] *)

Lemma shape_last_then s : shape s -> shape (last_then s).
Proof.
  intros Hs. unfold last_then. cbv zeta.
  set (s0 := set_last_thens (Nat.pred (last_thens s)) s).
  assert (shape s0) as Hs0 by (apply (shape_ext s); auto).
  change (_sendingQueue s0) with (_sendingQueue s).
  destruct (_sendingQueue s) as [|h q] eqn:Hq; [assumption|].
  apply shape_send_head; [assumption|]. change (_sendingQueue s0) with (_sendingQueue s).
  rewrite Hq. reflexivity.
Qed.

Lemma moving_last_then s : shape s -> moving (last_then s).
Proof.
  intros Hs. unfold last_then. cbv zeta.
  set (s0 := set_last_thens (Nat.pred (last_thens s)) s).
  assert (shape s0) as Hs0 by (apply (shape_ext s); auto).
  change (_sendingQueue s0) with (_sendingQueue s).
  destruct (_sendingQueue s) as [|h q] eqn:Hq.
  - intros h it Hh. change (_sendingQueue s0) with (_sendingQueue s) in Hh.
    rewrite Hq in Hh. discriminate.
  - apply moving_send_head; [assumption|]. change (_sendingQueue s0) with (_sendingQueue s).
    rewrite Hq. reflexivity.
Qed.

(** *** [send] *)

Lemma send_cases title data s :
  shape s ->
  (exists e, send title data s =
     (_messageID s,
      set_promises (<[_messageID s := Rejected e]> (promises s))
        (set_messageID (_messageID s + 1) s)))
  \/
  exists frame,
    (do b_title_length <- writeUInt32BE (len (Buffer_from title));
     Ret (b_title_length ++ Buffer_from title ++ data)) = Ret frame /\
    (maxPayload s = 0 \/ len frame <= maxPayload s) /\
    let s1 := set_queue (_sendingQueue s ++ [_messageID s])
                (set_items (<[_messageID s := {| size := len frame; sent := false;
                                                  r_data := frame |}]> (items s))
                   (set_promises (<[_messageID s := Pending]> (promises s))
                      (set_messageID (_messageID s + 1) s))) in
    send title data s =
      (_messageID s, if is_empty (_sendingQueue s) then item_send (_messageID s) None s1
                     else s1).
Proof.
  intros Hs.
  assert (~ In (_messageID s) (_sendingQueue s)) as Hfresh.
  { intros Hin. pose proof (t_queued_below s _ Hs Hin). lia. }
  assert (forall e,
    settle (_messageID s) (Rejected e)
      (set_promises (<[_messageID s := Pending]> (promises s))
         (set_messageID (_messageID s + 1) s)) =
    set_promises (<[_messageID s := Rejected e]> (promises s))
      (set_messageID (_messageID s + 1) s)) as Hrej.
  { intros e. rewrite t_settle_pending by (tfields; apply lookup_insert_eq).
    unfold set_promises, set_messageID. tfields. rewrite insert_insert_eq. reflexivity. }
  unfold send. cbv zeta. tfields.
  destruct (writeUInt32BE (len (Buffer_from title))) as [w|e]; cbn [bind];
    [|left; exists e; rewrite Hrej; reflexivity].
  set (frame := w ++ Buffer_from title ++ data).
  destruct (Z.eqb_spec (maxPayload s) 0) as [Hz|Hz]; cbn [negb andb].
  - right. exists frame. split; [reflexivity|]. split; [left; assumption|].
    cbv zeta. rewrite queue_set_fresh by assumption. rewrite length_app. cbn [length].
    destruct (_sendingQueue s) as [|h q]; cbn [length is_empty Nat.add]; [reflexivity|].
    destruct (Z.eqb_spec (Z.of_nat (S (length q + 1))) 1); [lia|reflexivity].
  - destruct (Z.ltb_spec (maxPayload s) (len frame)).
    + left. exists PayloadTooLarge. rewrite Hrej. reflexivity.
    + right. exists frame. split; [reflexivity|]. split; [right; assumption|].
      cbv zeta. rewrite queue_set_fresh by assumption. rewrite length_app. cbn [length].
      destruct (_sendingQueue s) as [|h q]; cbn [length is_empty Nat.add]; [reflexivity|].
      destruct (Z.eqb_spec (Z.of_nat (S (length q + 1))) 1); [lia|reflexivity].
Qed.

Lemma shape_rejected e s :
  shape s ->
  shape (set_promises (<[_messageID s := Rejected e]> (promises s))
           (set_messageID (_messageID s + 1) s)).
Proof.
  intros Hs. pose proof Hs as [H1 H2 H3 H4 H5 H6 H7 H8 H9 H10].
  constructor; tfields; try assumption.
  - intros id Hid. pose proof (t_queued_below s id Hs Hid).
    rewrite lookup_insert_ne by lia. apply H2. assumption.
  - intros id Hid. rewrite lookup_insert_ne by lia. apply H3. lia.
  - intros id Hp. destruct (decide (id = _messageID s)) as [->|Hne].
    + rewrite lookup_insert_eq in Hp. discriminate.
    + rewrite lookup_insert_ne in Hp by congruence. auto.
Qed.

Lemma shape_queued frame s :
  shape s ->
  shape (set_queue (_sendingQueue s ++ [_messageID s])
           (set_items (<[_messageID s := {| size := len frame; sent := false;
                                             r_data := frame |}]> (items s))
              (set_promises (<[_messageID s := Pending]> (promises s))
                 (set_messageID (_messageID s + 1) s)))).
Proof.
  intros Hs. pose proof Hs as [H1 H2 H3 H4 H5 H6 H7 H8 H9 H10].
  assert (forall id it, items s !! id = Some it -> id <> _messageID s) as Hold.
  { intros id it Hit ->. destruct (H3 (_messageID s) (Z.le_refl _)). congruence. }
  constructor; tfields.
  - apply sorted_snoc; [assumption|]. intros y Hy. apply t_queued_below; assumption.
  - intros id Hid. apply in_app_or in Hid as [Hid|[<-|[]]].
    + pose proof (t_queued_below s id Hs Hid).
      rewrite !lookup_insert_ne by lia. apply H2. assumption.
    + rewrite !lookup_insert_eq. eauto.
  - intros id Hid. rewrite !lookup_insert_ne by lia. apply H3. lia.
  - intros id Hp. apply in_or_app. destruct (decide (id = _messageID s)) as [->|Hne].
    + right. left. reflexivity.
    + rewrite lookup_insert_ne in Hp by congruence. left. auto.
  - intros id it Hit Hu. apply in_or_app. destruct (decide (id = _messageID s)) as [->|Hne].
    + right. left. reflexivity.
    + rewrite lookup_insert_ne in Hit by congruence. left. eauto.
  - intros id it Hid Hit Hsent. apply in_app_or in Hid as [Hid|[<-|[]]].
    + pose proof (t_queued_below s id Hs Hid).
      rewrite lookup_insert_ne in Hit by lia.
      destruct (H6 id it Hid Hit Hsent) as [Hhd Hw]. split; [|assumption].
      destruct (_sendingQueue s); [discriminate|]. exact Hhd.
    + rewrite lookup_insert_eq in Hit. injection Hit as <-. discriminate.
  - intros id Hid. destruct (H7 id Hid) as (Hq & it & Hit & Hsent).
    split; [apply in_or_app; left; assumption|].
    rewrite lookup_insert_ne by (symmetry; eapply Hold; eassumption). eauto.
  - intros id d Hid. destruct (H8 id d Hid) as (it & Hit & Hsent & Hd).
    rewrite lookup_insert_ne by (symmetry; eapply Hold; eassumption). eauto.
  - assumption.
  - intros id h Hid Hh. destruct (_sendingQueue s) as [|h0 q] eqn:Hq.
    + cbn in Hh. injection Hh as <-.
      apply in_map_iff in Hid as ([i d] & Hi & Hin). cbn [fst] in Hi. subst i.
      destruct (H8 id d Hin) as (it & Hit & _). pose proof (t_item_below s id it Hs Hit). lia.
    + cbn in Hh. injection Hh as <-. apply (H10 id h0); [assumption|reflexivity].
Qed.

Lemma t_wf_send title data s : wf s -> wf (snd (send title data s)).
Proof.
  intros [Hs Hm].
  destruct (send_cases title data s Hs) as [[e ->]|(frame & _ & _ & ->)]; cbn [snd].
  - split; [apply shape_rejected; assumption|].
    eapply moving_ext; [| | |exact Hm]; reflexivity.
  - pose proof (shape_queued frame s Hs) as Hs1.
    set (s1 := set_queue _ _) in *.
    destruct (_sendingQueue s) as [|h q] eqn:Hq; cbn [is_empty].
    + assert (hd_error (_sendingQueue s1) = Some (_messageID s)) as Hh
        by (subst s1; tfields; rewrite ?Hq; reflexivity).
      split; [apply shape_send_head|apply moving_send_head]; assumption.
    + split; [assumption|].
      intros h' it Hh' Hit Hu. subst s1. tfields. rewrite ?Hq in Hh'. cbn in Hh'.
      injection Hh' as <-.
      assert (In h (_sendingQueue s)) as Hin by (rewrite Hq; left; reflexivity).
      pose proof (t_queued_below s h Hs Hin).
      rewrite lookup_insert_ne in Hit by lia.
      apply (Hm h it); [rewrite Hq; reflexivity|assumption|assumption].
Qed.

Lemma t_wf_cancel k e s : wf s -> wf (cancel k e s).
Proof. intros [Hs Hm]. split; [apply shape_cancel|apply moving_cancel]; assumption. Qed.

Lemma t_wf_on_close s : wf s -> wf (on_close s).
Proof.
  unfold on_close. generalize (rev (_sendingQueue s)). intros l. revert s.
  induction l as [|k l IH]; intros s Hw; cbn [fold_left]; [assumption|].
  apply IH, t_wf_cancel. assumption.
Qed.

Lemma _receiveData_frame data s :
  exists ev, _receiveData data s = emit ev s.
Proof. unfold _receiveData. destruct (readUInt32BE data (JInt 0)); eauto. Qed.

Lemma t_wf_step s a s' : wf s -> step s a s' -> wf s'.
Proof.
  intros Hw Hst. destruct Hst as [s title body|s k e|s id err Hin|s Hn|s frame|s].
  - apply t_wf_send. assumption.
  - apply t_wf_cancel. assumption.
  - destruct Hw as [Hs Hm]. split; [apply shape_written|apply moving_written]; assumption.
  - destruct Hw as [Hs Hm]. split; [apply shape_last_then|apply moving_last_then]; assumption.
  - destruct (_receiveData_frame frame s) as [ev ->]. destruct Hw as [Hs Hm].
    split; [apply (shape_ext s); auto|apply (moving_ext s); auto].
  - apply t_wf_on_close. assumption.
Qed.

Lemma t_wf_new_socket configured : wf (new_socket configured).
Proof.
  split.
  - constructor; cbn.
    + constructor.
    + intros id [].
    + intros id _. rewrite !lookup_empty. auto.
    + intros id. rewrite lookup_empty. discriminate.
    + intros id it. rewrite lookup_empty. discriminate.
    + intros id it [].
    + intros id [].
    + intros id d [].
    + constructor.
    + intros id h [].
  - intros h it. cbn. discriminate.
Qed.

Lemma t_wf_live s : live s -> wf s.
Proof.
  intros [configured Hr]. induction Hr as [|s a s' _ IH Hst]; [apply t_wf_new_socket|].
  eapply t_wf_step; eassumption.
Qed.

(** *** The frame *)

Lemma writeUInt32BE_ok v :
  0 <= v <= 4294967295 -> writeUInt32BE v = Ret (be_encode 4 v).
Proof.
  intros H. unfold writeUInt32BE.
  destruct (Z.leb_spec 0 v); [|lia]. destruct (Z.leb_spec v 4294967295); [|lia].
  reflexivity.
Qed.

Lemma _receiveData_parts (w content rest : list byte) r :
  length w = 4%nat -> be_decode w = len content ->
  _receiveData (w ++ content ++ rest) r = emit (EMessage (toString content) rest) r.
Proof.
  intros Hw Hl. unfold _receiveData. rewrite readUInt32BE_at by assumption.
  cbv zeta. pose proof (len_nonneg content) as Hc.
  assert (len content < 2 ^ 52) as Hb.
  { rewrite <- Hl. (* four bytes *)
    destruct w as [|b0 [|b1 [|b2 [|b3 [|]]]]]; try discriminate.
    unfold be_decode. cbn [fold_left].
    pose proof (Z_of_byte_range b0). pose proof (Z_of_byte_range b1).
    pose proof (Z_of_byte_range b2). pose proof (Z_of_byte_range b3). lia. }
  rewrite (js_add_int 0 4) by (cbn; lia). change (0 + 4) with 4.
  rewrite Hl, js_add_int by lia.
  assert (len w = 4) as Hw4 by (unfold len; rewrite Hw; reflexivity).
  rewrite (slice_in (w ++ content ++ rest) w content rest 4 (4 + len content))
    by (reflexivity || assumption).
  rewrite (slice_from_in (w ++ content ++ rest) (w ++ content) rest (4 + len content));
    [reflexivity|rewrite <- app_assoc; reflexivity|rewrite len_app; lia].
Qed.

Lemma send_accepted title (body : list byte) s :
  shape s -> len (Buffer_from title) <= 4294967295 ->
  let frame := be_encode 4 (len (Buffer_from title)) ++ Buffer_from title ++ body in
  (maxPayload s = 0 \/ len frame <= maxPayload s) ->
  let s1 := set_queue (_sendingQueue s ++ [_messageID s])
              (set_items (<[_messageID s := {| size := len frame; sent := false;
                                                r_data := frame |}]> (items s))
                 (set_promises (<[_messageID s := Pending]> (promises s))
                    (set_messageID (_messageID s + 1) s))) in
  send title body s =
    (_messageID s, if is_empty (_sendingQueue s) then item_send (_messageID s) None s1
                   else s1).
Proof.
  intros Hs Ht frame Hmax s1.
  pose proof (len_nonneg (Buffer_from title)) as Hn.
  assert (~ In (_messageID s) (_sendingQueue s)) as Hfresh.
  { intros Hin. pose proof (t_queued_below s _ Hs Hin). lia. }
  unfold send. cbv zeta. tfields.
  rewrite writeUInt32BE_ok by lia. cbn [bind]. fold frame.
  assert (negb (maxPayload s =? 0) && (maxPayload s <? len frame) = false) as ->.
  { destruct Hmax as [->|Hle]; [reflexivity|].
    destruct (Z.ltb_spec (maxPayload s) (len frame)); [lia|apply andb_false_r]. }
  rewrite queue_set_fresh by assumption. fold s1. rewrite length_app. cbn [length].
  destruct (_sendingQueue s) as [|h q]; cbn [length is_empty Nat.add]; [reflexivity|].
  destruct (Z.eqb_spec (Z.of_nat (S (length q + 1))) 1); [lia|reflexivity].
Qed.

(** X24.  What [send] queues is what [_receiveData] reads: an accepted
    [send(title, data)] makes an item whose frame is the length of the title
    on 4 bytes, the title in UTF-8 and the data, and [_receiveData] on that
    frame emits ['message'] with exactly [data] and with the title as UTF-8
    gives it back: exactly [title] when it is a well-formed string. *)
Theorem titled_send_receive title (body : list byte) s r :
  live s -> len (Buffer_from title) <= 4294967295 ->
  let frame := be_encode 4 (len (Buffer_from title)) ++ Buffer_from title ++ body in
  (maxPayload s = 0 \/ len frame <= maxPayload s) ->
  (exists it, items (snd (send title body s)) !! _messageID s = Some it /\
              r_data it = frame /\ size it = len frame) /\
  _receiveData frame r = emit (EMessage (toString (Buffer_from title)) body) r /\
  (well_formed title = true -> _receiveData frame r = emit (EMessage title body) r).
Proof.
  intros Hl Ht frame Hmax.
  pose proof (t_wf_live s Hl) as [Hs _].
  pose proof (len_nonneg (Buffer_from title)) as Hn.
  split.
  - rewrite (send_accepted title body s Hs Ht Hmax). cbn [snd]. fold frame.
    match goal with |- context [item_send ?i None ?t] => set (s1 := t) end.
    assert (items s1 !! _messageID s =
              Some {| size := len frame; sent := false; r_data := frame |}) as H1
      by (subst s1; tfields; apply lookup_insert_eq).
    destruct (is_empty (_sendingQueue s)); [|eauto].
    destruct (item_send_cases (_messageID s) None s1)
      as [[-> _]|(it & Hit & _ & ->)]; [eauto|].
    cbv zeta. tfields. rewrite lookup_insert_eq.
    rewrite H1 in Hit. injection Hit as <-. eauto.
  - assert (_receiveData frame r = emit (EMessage (toString (Buffer_from title)) body) r)
      as Hrecv.
    { subst frame. apply _receiveData_parts.
      - apply be_encode_length.
      - apply be_decode_encode. change (256 ^ Z.of_nat 4) with 4294967296. lia. }
    split; [assumption|].
    intros Hwf. rewrite Hrecv, toString_Buffer_from by assumption. reflexivity.
Qed.

(** X25.  What [_receiveData] does with any bytes: fewer than 4 give an
    ['error'] event with the RangeError of the read; otherwise a ['message']
    event whose title is the bytes the length field announces, as far as
    they exist, read as UTF-8 (bytes that are not UTF-8 give U+FFFD), and
    whose data is what follows them.  A length field larger than the frame
    is no error. *)
Theorem titled_receive (frame : list byte) r :
  (len frame < 4 -> _receiveData frame r = emit (EError RangeError) r) /\
  (4 <= len frame ->
     let announced := Z.to_nat (be_decode (take 4 frame)) in
     _receiveData frame r =
       emit (EMessage (toString (take announced (drop 4 frame)))
                      (drop announced (drop 4 frame))) r).
Proof.
  split.
  - intros H. unfold _receiveData. rewrite readUInt32BE_short by assumption. reflexivity.
  - intros H announced.
    assert (length (take 4 frame) = 4%nat) as Hw
      by (rewrite length_take; unfold len in H; lia).
    set (w := take 4 frame) in *. set (rest := drop 4 frame).
    assert (frame = w ++ rest) as Hf by (symmetry; apply take_drop).
    assert (0 <= be_decode w < 4294967296) as Hb.
    { destruct w as [|b0 [|b1 [|b2 [|b3 [|]]]]]; try discriminate.
      unfold be_decode. cbn [fold_left].
      pose proof (Z_of_byte_range b0). pose proof (Z_of_byte_range b1).
      pose proof (Z_of_byte_range b2). pose proof (Z_of_byte_range b3). lia. }
    destruct (Z.le_gt_cases (be_decode w) (len rest)) as [Hfit|Hcut].
    + assert (rest = take announced rest ++ drop announced rest) as Hr
        by (symmetry; apply take_drop).
      rewrite Hf, Hr at 1. rewrite _receiveData_parts; [reflexivity|assumption|].
      unfold len. rewrite length_take. subst announced. unfold len in Hfit. lia.
    + rewrite Hf at 1. unfold _receiveData.
      rewrite readUInt32BE_at by assumption. cbv zeta.
      rewrite (js_add_int 0 4) by (cbn; lia). change (0 + 4) with 4.
      rewrite js_add_int by lia.
      assert (len w = 4) as Hw4 by (unfold len; rewrite Hw; reflexivity).
      rewrite <- Hw4 at 1 2.
      rewrite slice_at by lia. fold announced.
      assert (slice_from (w ++ rest) (JInt (4 + be_decode w)) = []) as ->.
      { unfold slice_from, slice, to_index. rewrite len_app, Hw4.
        pose proof (len_nonneg rest).
        destruct (Z.ltb_spec (4 + be_decode w) 0); [lia|].
        destruct (Z.ltb_spec (4 + len rest) 0); [lia|].
        rewrite !Z.min_r by lia.
        rewrite Z.sub_diag. reflexivity. }
      rewrite (drop_ge rest announced) by (subst announced; unfold len in Hcut; lia).
      reflexivity.
Qed.

(** *** The limit *)

Lemma maxPayload_item_send id err s : maxPayload (item_send id err s) = maxPayload s.
Proof.
  destruct (item_send_cases id err s) as [[-> _]|(it & _ & _ & ->)]; [reflexivity|].
  cbv zeta. destruct err; [|reflexivity]. unfold settle. tfields.
  destruct (promises s !! id) as [[| |]|]; reflexivity.
Qed.

Lemma maxPayload_step s a s' : step s a s' -> maxPayload s' = maxPayload s.
Proof.
  intros Hst. destruct Hst as [s title body|s k e|s id err Hin|s Hn|s frame|s].
  - unfold send. cbv zeta. tfields.
    destruct (writeUInt32BE _) as [w|e]; cbn [bind].
    2:{ cbn [snd]. unfold settle. tfields. rewrite lookup_insert_eq. reflexivity. }
    destruct (_ && _).
    { cbn [snd]. unfold settle. tfields. rewrite lookup_insert_eq. reflexivity. }
    destruct (_ =? 1); cbn [snd]; rewrite ?maxPayload_item_send; reflexivity.
  - unfold cancel. destruct (mem _ _); rewrite ?maxPayload_item_send; reflexivity.
  - unfold written, settle. tfields.
    destruct (promises s !! id) as [[| |]|]; reflexivity.
  - unfold last_then. cbv zeta. tfields.
    destruct (_sendingQueue s); rewrite ?maxPayload_item_send; reflexivity.
  - destruct (_receiveData_frame frame s) as [ev ->]. reflexivity.
  - unfold on_close. generalize (rev (_sendingQueue s)). intros l. revert s.
    induction l as [|k l IH]; intros s; cbn [fold_left]; [reflexivity|].
    rewrite IH. unfold cancel. destruct (mem _ _); rewrite ?maxPayload_item_send;
      reflexivity.
Qed.

Lemma maxPayload_reachable init s : reachable init s -> maxPayload s = maxPayload init.
Proof.
  induction 1 as [|s a s' _ IH Hst]; [reflexivity|].
  rewrite (maxPayload_step s a s' Hst). assumption.
Qed.

(** X26.  The limit of the payload.  A socket made without [maxPayload], or
    with one that is 0 or negative, accepts a frame of any size; made with a
    positive [maxPayload], it rejects a send at once, nothing being queued or
    transmitted, exactly when the title and the data together are longer
    than [maxPayload]: the 4 bytes of the length field do not count. *)
Theorem titled_payload_limit configured s title (body : list byte) :
  reachable (new_socket configured) s -> len (Buffer_from title) <= 4294967295 ->
  let too_large :=
    match configured with
    | Some m => (0 <? m) && (m <? len (Buffer_from title) + len body)
    | None => false
    end in
  let s' := snd (send title body s) in
  (too_large = true ->
     promises s' !! _messageID s = Some (Rejected PayloadTooLarge) /\
     _sendingQueue s' = _sendingQueue s /\ items s' = items s /\
     sendData s' = sendData s) /\
  (too_large = false ->
     promises s' !! _messageID s = Some Pending /\
     _sendingQueue s' = _sendingQueue s ++ [_messageID s]).
Proof.
  intros Hr Ht too_large s'.
  assert (live s) as Hl by (exists configured; assumption).
  pose proof (t_wf_live s Hl) as [Hs _].
  pose proof (maxPayload_reachable _ s Hr) as Hmax. cbn [new_socket maxPayload] in Hmax.
  pose proof (len_nonneg (Buffer_from title)) as Hn.
  set (frame := be_encode 4 (len (Buffer_from title)) ++ Buffer_from title ++ body).
  assert (len frame = 4 + (len (Buffer_from title) + len body)) as Hlen.
  { subst frame. rewrite !len_app. unfold len at 1. rewrite be_encode_length. lia. }
  assert (negb (maxPayload s =? 0) && (maxPayload s <? len frame) = too_large) as Hcheck.
  { subst too_large. rewrite Hmax, Hlen. destruct configured as [m|]; [|reflexivity].
    destruct (Z.leb_spec m 0).
    - destruct (Z.ltb_spec 0 m); [lia|]. reflexivity.
    - destruct (Z.ltb_spec 0 m); [|lia]. destruct (Z.eqb_spec (m + 4) 0); [lia|].
      cbn [negb andb].
      destruct (Z.ltb_spec (m + 4) (4 + (len (Buffer_from title) + len body))),
               (Z.ltb_spec m (len (Buffer_from title) + len body)); lia || reflexivity. }
  assert (~ In (_messageID s) (_sendingQueue s)) as Hfresh.
  { intros Hin. pose proof (t_queued_below s _ Hs Hin). lia. }
  subst s'. unfold send. cbv zeta. tfields.
  rewrite writeUInt32BE_ok by lia. cbn [bind]. fold frame. rewrite Hcheck.
  split; intros ->.
  - cbn [snd]. rewrite t_settle_pending by (tfields; apply lookup_insert_eq).
    tfields. rewrite lookup_insert_eq. auto.
  - rewrite queue_set_fresh by assumption.
    match goal with |- context [item_send ?i None ?t] => set (s1 := t) end.
    assert (promises s1 !! _messageID s = Some Pending) as Hp
      by (subst s1; tfields; apply lookup_insert_eq).
    assert (_sendingQueue s1 = _sendingQueue s ++ [_messageID s]) as Hq by reflexivity.
    destruct (_ =? 1); cbn [snd]; [|auto].
    destruct (item_send_cases (_messageID s) None s1)
      as [[-> _]|(it & _ & _ & ->)]; auto.
Qed.

(** *** One frame at a time *)

(** X27.  One frame at a time, in the order of the calls.  In every state
    the socket can reach, the only item of the queue that was handed to
    [_sendData] is its first, the transport call under way is for it, and
    the calls of [_sendData] so far were made by increasing message id. *)
Theorem titled_one_at_a_time s :
  live s ->
  (forall id it, In id (_sendingQueue s) -> items s !! id = Some it -> sent it = true ->
     hd_error (_sendingQueue s) = Some id) /\
  (forall id, In id (writing s) -> hd_error (_sendingQueue s) = Some id) /\
  StronglySorted Z.lt (map fst (sendData s)) /\
  StronglySorted Z.lt (_sendingQueue s).
Proof.
  intros Hl. pose proof (t_wf_live s Hl) as [Hs _].
  split; [|split; [|split]].
  - intros id it Hin Hit Hsent. apply (sh_flight s Hs id it Hin Hit Hsent).
  - intros id Hw. destruct (sh_writing s Hs id Hw) as (Hin & it & Hit & Hsent).
    apply (sh_flight s Hs id it Hin Hit Hsent).
  - apply Hs.
  - apply Hs.
Qed.

(** X28.  The queue does not stall.  In every state the socket can reach,
    the first item of the queue has been handed to [_sendData] and the
    transport call is under way, or the last [.then] of a finished transport
    call is still due, and once it has run the first item has been handed
    over. *)
Theorem titled_queue_moves s h :
  live s -> hd_error (_sendingQueue s) = Some h ->
  (exists it, items s !! h = Some it /\ sent it = true /\ In h (writing s)) \/
  ((0 < last_thens s)%nat /\
   hd_error (_sendingQueue (last_then s)) = Some h /\
   exists it, items (last_then s) !! h = Some it /\ sent it = true /\
              In (h, r_data it) (sendData (last_then s))).
Proof.
  intros Hl Hh. pose proof (t_wf_live s Hl) as [Hs Hm].
  assert (In h (_sendingQueue s)) as Hin
    by (destruct (_sendingQueue s); [discriminate|injection Hh as ->; left; reflexivity]).
  destruct (sh_queue s Hs h Hin) as [[it Hit] _].
  destruct (sent it) eqn:Hsent; [left|right].
  { exists it. split; [assumption|]. split; [assumption|].
    apply (sh_flight s Hs h it Hin Hit Hsent). }
  split; [apply (Hm h it); assumption|].
  unfold last_then. cbv zeta.
  set (s0 := set_last_thens (Nat.pred (last_thens s)) s).
  change (_sendingQueue s0) with (_sendingQueue s).
  destruct (_sendingQueue s) as [|h0 q] eqn:Hq; [discriminate|]. injection Hh as ->.
  destruct (item_send_cases h None s0) as [[_ [Hn|(it' & Hit' & Hs')]]|(it' & Hit' & _ & ->)].
  - change (items s0) with (items s) in Hn. congruence.
  - change (items s0) with (items s) in Hit'. congruence.
  - cbv zeta. subst s0. tfields. rewrite ?Hq. split; [reflexivity|].
    rewrite lookup_insert_eq. eexists. split; [reflexivity|]. split; [reflexivity|].
    apply in_or_app. right. left. reflexivity.
Qed.

(** *** [cancel] and ['close'] *)

(** X29.  [cancel] takes back a message that waits and only such a one: a
    waiting message is taken out of the queue and its promise rejected with
    the error given, [_sendData] not being called; for the message under
    way, or an id that is not in the queue, [cancel] changes nothing. *)
Theorem titled_cancel s id e :
  live s ->
  (forall it, In id (_sendingQueue s) -> items s !! id = Some it -> sent it = false ->
     ~ In id (_sendingQueue (cancel id e s)) /\
     promises (cancel id e s) !! id = Some (Rejected e) /\
     (forall id', id' <> id -> promises (cancel id e s) !! id' = promises s !! id') /\
     sendData (cancel id e s) = sendData s) /\
  (forall it, In id (_sendingQueue s) -> items s !! id = Some it -> sent it = true ->
     cancel id e s = s) /\
  (~ In id (_sendingQueue s) -> cancel id e s = s).
Proof.
  intros Hl. pose proof (t_wf_live s Hl) as [Hs _].
  destruct (cancel_cases id e s Hs)
    as [[Hc [Hn|(it & Hin & Hit & Hsent)]]|(it & Hin & Hit & Hu & Hc)].
  - split; [intros; contradiction|]. split; [intros; contradiction|auto].
  - split; [intros it' _ Hit' Hu; congruence|]. split; [auto|intros; contradiction].
  - split; [|split; [intros it' _ Hit' Hs'; congruence|intros; contradiction]].
    intros _ _ _ _. rewrite Hc. tfields.
    split; [intros H; apply queue_delete_In in H as [_ H]; congruence|].
    split; [apply lookup_insert_eq|].
    split; [intros id' Hne; apply lookup_insert_ne; congruence|reflexivity].
Qed.

Lemma closes_refl s : closes s s.
Proof.
  unfold closes. split; [reflexivity|]. split; [auto|]. split; [intros; contradiction|].
  split; auto.
Qed.

Lemma closes_trans s t u : closes s t -> closes t u -> closes s u.
Proof.
  intros (A1 & A2 & A3 & A4 & A5) (B1 & B2 & B3 & B4 & B5).
  unfold closes. split; [congruence|]. split; [|split; [|split]].
  - intros id Hu. destruct (B2 id Hu) as (Ht & Ei & Ep).
    destruct (A2 id Ht) as (Hs & Ei' & Ep'). split; [assumption|]. split; congruence.
  - intros id Hs Hnu.
    destruct (in_dec Z.eq_dec id (_sendingQueue t)) as [Ht|Hnt].
    + destruct (B3 id Ht Hnu) as (Hp & it & Hit & Hu).
      split; [assumption|]. exists it. destruct (A2 id Ht) as (_ & Ei & _).
      split; [congruence|assumption].
    + destruct (A3 id Hs Hnt) as (Hp & Hit). split; [|assumption].
      rewrite B4 by assumption. assumption.
  - intros id Hns.
    assert (~ In id (_sendingQueue t)) as Hnt by (intros Ht; apply Hns, (A2 id Ht)).
    rewrite B4, A4 by assumption. reflexivity.
  - intros id it Hs Hit Hsent. pose proof (A5 id it Hs Hit Hsent) as Ht.
    destruct (A2 id Ht) as (_ & Ei & _). apply (B5 id it); [assumption|congruence|assumption].
Qed.

Lemma closes_cancel k s : shape s -> closes s (cancel k ConnectionAborted s).
Proof.
  intros Hs.
  destruct (cancel_cases k ConnectionAborted s Hs)
    as [[-> _]|(it & Hin & Hit & Hu & ->)]; [apply closes_refl|].
  unfold closes. tfields. split; [reflexivity|]. split; [|split; [|split]].
  - intros id Hid. apply queue_delete_In in Hid as [Hid Hne].
    rewrite !lookup_insert_ne by congruence. auto.
  - intros id Hid Hn. assert (id = k) as ->.
    { destruct (Z.eq_dec id k); [assumption|]. exfalso. apply Hn, queue_delete_In. auto. }
    rewrite lookup_insert_eq. eauto.
  - intros id Hn. apply lookup_insert_ne. intros ->. contradiction.
  - intros id it' Hid Hit' Hs'. apply queue_delete_In. split; [assumption|].
    intros ->. congruence.
Qed.

Lemma closing l : forall s,
  shape s ->
  let s' := fold_left (fun s item => cancel item ConnectionAborted s) l s in
  closes s s' /\
  forall id, In id l -> In id (_sendingQueue s') ->
    exists it, items s' !! id = Some it /\ sent it = true.
Proof.
  induction l as [|k l IH]; intros s Hs; cbn [fold_left].
  - split; [apply closes_refl|intros id []].
  - set (s1 := cancel k ConnectionAborted s).
    assert (shape s1) as Hs1 by (apply shape_cancel; assumption).
    destruct (IH s1 Hs1) as [Hc Hdone]. cbv zeta in *.
    pose proof (closes_cancel k s Hs) as Hk. fold s1 in Hk.
    split; [eapply closes_trans; eassumption|].
    intros id [<-|Hin] Hq; [|auto].
    destruct Hc as (_ & C2 & _). destruct (C2 k Hq) as (Hq1 & Ei & _).
    rewrite Ei. subst s1.
    destruct (cancel_cases k ConnectionAborted s Hs)
      as [[Heq [Hn|(it & Hin & Hit & Hsent)]]|(it & Hin & Hit & Hu & Heq)];
      rewrite Heq in *.
    + contradiction.
    + eauto.
    + tfields. apply queue_delete_In in Hq1 as [_ Hne]. congruence.
Qed.

(** X30.  What ['close'] does to this socket: every message that waits is
    taken out of the queue and its promise rejected with the
    connection-aborted error; the message under way is left in the queue,
    its promise pending, until the transport reports on it; [_sendData] is
    not called. *)
Theorem titled_close s :
  live s ->
  (forall id it, In id (_sendingQueue s) -> items s !! id = Some it -> sent it = false ->
     ~ In id (_sendingQueue (on_close s)) /\
     promises (on_close s) !! id = Some (Rejected ConnectionAborted)) /\
  (forall id it, In id (_sendingQueue s) -> items s !! id = Some it -> sent it = true ->
     In id (_sendingQueue (on_close s)) /\ promises (on_close s) !! id = Some Pending) /\
  (forall id, In id (_sendingQueue (on_close s)) ->
     hd_error (_sendingQueue s) = Some id /\ In id (writing s)) /\
  sendData (on_close s) = sendData s.
Proof.
  intros Hl. pose proof (t_wf_live s Hl) as [Hs _].
  destruct (closing (rev (_sendingQueue s)) s Hs) as [(C1 & C2 & C3 & C4 & C5) Hdone].
  fold (on_close s) in *.
  assert (forall id, In id (_sendingQueue (on_close s)) ->
            In id (_sendingQueue s) /\
            exists it, items s !! id = Some it /\ sent it = true) as Hleft.
  { intros id Hq. destruct (C2 id Hq) as (Hin & Ei & _). split; [assumption|].
    rewrite <- Ei. apply Hdone; [apply in_rev in Hin|]; assumption. }
  split; [|split; [|split; [|assumption]]].
  - intros id it Hin Hit Hu.
    assert (~ In id (_sendingQueue (on_close s))) as Hn.
    { intros Hq. destruct (Hleft id Hq) as (_ & it' & Hit' & Hs'). congruence. }
    split; [assumption|]. apply (C3 id Hin Hn).
  - intros id it Hin Hit Hsent. pose proof (C5 id it Hin Hit Hsent) as Hq.
    split; [assumption|]. destruct (C2 id Hq) as (_ & _ & ->).
    apply (sh_queue s Hs id Hin).
  - intros id Hq. destruct (Hleft id Hq) as (Hin & it & Hit & Hsent).
    apply (sh_flight s Hs id it Hin Hit Hsent).
Qed.

End TitledProofs.

(** ** The further theorems at work on the runs *)


(** The runs are runs of a socket. *)
Lemma run0_live : live toy_stringify toy_parse run0.
Proof. exists None, true. apply reach_init. Defined.

Lemma greet_plain :
  Forall plain [@VString unit (str "hi"); VNumber (of_int 42); VBoolean true].
Proof. repeat constructor. vm_compute; intuition congruence. Defined.

Lemma greet_well_formed :
  Forall well_formed_value [@VString unit (str "hi"); VNumber (of_int 42); VBoolean true].
Proof. repeat constructor. Defined.

Lemma run2_acked_quiet :
  reachable toy_stringify toy_parse no_prior (new_socket None true) run2_acked.
Proof.
  apply (reach_step _ _ _ _ run2 (Receive ack0)); [exact run2_quiet| |].
  - intros h Hh. vm_compute in Hh. injection Hh as <-. reflexivity.
  - apply (step_receive _ _ run2 ack0 2). vm_compute. reflexivity.
Defined.

(** [serialize_concat] at [["hi"]] and [[true]]. *)
Lemma serialize_concat_witness :
  let x := writeUInt8 1 ++ writeDoubleBE (of_int 2) ++ Buffer_from (str "hi") in
  let y := writeUInt8 2 ++ writeUInt8 1 in
  serialize toy_stringify [VString (str "hi"); VBoolean true] = Ret (x ++ y) /\
  deserialize toy_parse 3 (x ++ y) = Some (Ret [VString (str "hi"); VBoolean true]).
Proof.
  intros x y.
  destruct (serialize_concat toy_stringify toy_parse [VString (str "hi")] [VBoolean true]
              x y 3) as [Hs Hd];
    [vm_compute; reflexivity|vm_compute; reflexivity|].
  split; [exact Hs|].
  apply Hd; [repeat constructor|repeat constructor|repeat constructor|repeat constructor
            |vm_compute; reflexivity|simpl; lia].
Defined.

(** [deserialize_errors] at the one byte 7. *)
Lemma deserialize_errors_witness :
  deserialize toy_parse 1 [x07] = Some (Throw (TypeNotExist 7)) /\
  (TypeNotExist 7 = RangeError \/ TypeNotExist 7 = SyntaxError \/
   exists t, TypeNotExist 7 = TypeNotExist t /\ 6 < t < 256).
Proof.
  split; [reflexivity|].
  apply (deserialize_errors toy_parse 1 [x07]). reflexivity.
Defined.

(** [head_of_queue_is_sent] on [run2]: two messages queued, the first was sent. *)
Lemma head_of_queue_is_sent_witness :
  _queue run2 = [0; 1] /\
  exists c, controls run2 !! 0 = Some c /\ sent c = true /\ In (0, data c) (sendData run2).
Proof.
  split; [vm_compute; reflexivity|].
  apply (head_of_queue_is_sent toy_stringify toy_parse run2 0 run2_live). reflexivity.
Defined.

(** [transmitted_once] on [run3]: messages 0 and 2 were sent, each once. *)
Lemma transmitted_once_witness :
  map fst (sendData run3) = [0; 2] /\ List.NoDup (map fst (sendData run3)).
Proof.
  split; [vm_compute; reflexivity|].
  exact (proj1 (transmitted_once toy_stringify toy_parse run3 run3_live)).
Defined.

(** [pending_iff_queued] on [run2], at a queued id and at an id not yet used. *)
Lemma pending_iff_queued_witness :
  (promises run2 !! 1 = Some Pending <-> In 1 (_queue run2)) /\
  (promises run2 !! 5 = Some Pending <-> In 5 (_queue run2)).
Proof.
  split; apply (pending_iff_queued toy_stringify toy_parse run2 _ run2_live).
Defined.

(** [close_leaves_none_pending] on [run3]: message 1 was pending. *)
Lemma close_leaves_none_pending_witness :
  promises run3 !! 1 = Some Pending /\
  promises (on_close run3) !! 1 <> Some Pending.
Proof.
  split; [vm_compute; reflexivity|].
  exact (proj1 (close_leaves_none_pending toy_stringify toy_parse run3 1 run3_live)).
Defined.

(** [message_ids_increase]: the first send of the run and a send two steps later. *)
Lemma message_ids_increase_witness :
  0 <= fst (send toy_stringify (str "greet")
              (DArray [VString (str "hi"); VNumber (of_int 42); VBoolean true]) true false run0) /\
  fst (send toy_stringify (str "greet")
         (DArray [VString (str "hi"); VNumber (of_int 42); VBoolean true]) true false run0) <
  fst (send toy_stringify (str "third") (DArray []) true true run2).
Proof.
  apply (message_ids_increase toy_stringify toy_parse run0 _ _ _ _ run2);
    [exact run0_live| |vm_compute; reflexivity].
  apply (reach_step _ _ _ _ run1 (Send (str "second") (DArray []) true false));
    [apply reach_init|exact I|apply step_send].
Defined.

(** [transmitted_in_order] on [run2] after the acknowledgement of message 0:
    message 1 was sent second. *)
Lemma transmitted_in_order_witness :
  map fst (sendData run2_acked) = [0; 1] /\
  StronglySorted Z.lt (map fst (sendData run2_acked)).
Proof.
  split; [vm_compute; reflexivity|].
  exact (proj1 (transmitted_in_order toy_stringify toy_parse None true run2_acked
                  run2_acked_quiet)).
Defined.

(** [sent_message_is_received]: the first frame of the run, handed to a new socket. *)
Lemma sent_message_is_received_witness :
  controls run1 !! 0 = Some greet_control /\
  _receiveData toy_stringify toy_parse 4 (data greet_control) (new_socket None true) =
    Some (emit (EMessage (str "greet") [VString (str "hi"); VNumber (of_int 42); VBoolean true])
            (reply toy_stringify (header_of false (str "greet") true 0)
               (new_socket None true))).
Proof.
  split; [vm_compute; reflexivity|].
  refine (proj1 (proj2 (sent_message_is_received toy_stringify toy_parse run0
                          (new_socket None true) (str "greet")
                          [VString (str "hi"); VNumber (of_int 42); VBoolean true]
                          true false greet_control 4 run0_live greet_plain _ eq_refl
                          greet_well_formed _ _ _))
            eq_refl);
    [vm_compute; reflexivity|vm_compute; reflexivity|vm_compute; reflexivity|simpl; lia].
Defined.

(** [runt_frame_is_an_error] at a frame of two bytes. *)
Lemma runt_frame_is_an_error_witness :
  _receiveData toy_stringify toy_parse 1 [x00; x01] run2 =
  Some (emit (EError RangeError) run2).
Proof. apply runt_frame_is_an_error. reflexivity. Defined.

(** [frame_never_rejects] on [run2] and the frame [ack [0]], at message 1. *)
Lemma frame_never_rejects_witness :
  promises run2_acked !! 1 = promises run2 !! 1 \/
  (promises run2 !! 1 = Some Pending /\ promises run2_acked !! 1 = Some Resolved /\
   In 1 (_queue run2)).
Proof.
  apply (frame_never_rejects toy_stringify toy_parse 2 ack0 run2 run2_acked 1 run2_live);
    [vm_compute; reflexivity|vm_compute; discriminate].
Defined.

(** [acknowledgement_resolves]: the first frame of the run goes to a new socket,
    whose answer resolves message 0 of [run2]. *)
Lemma acknowledgement_resolves_witness :
  exists r' a,
    _receiveData toy_stringify toy_parse 4 (data greet_control) run0 = Some r' /\
    controls r' !! 0 = Some a /\ sent a = true /\
    exists s3,
      _receiveData toy_stringify toy_parse 2 (data a) run2 = Some s3 /\
      promises s3 !! 0 = Some Resolved.
Proof.
  destruct (acknowledgement_resolves toy_stringify toy_parse run0 run0 (str "greet")
              [VString (str "hi"); VNumber (of_int 42); VBoolean true] false greet_control 4
              run0_live run0_live greet_plain)
    as (r' & a & Hr & Ha & Hs & _ & Hloop);
    [vm_compute; reflexivity|vm_compute; reflexivity|left; reflexivity
    |vm_compute; reflexivity|vm_compute; reflexivity|simpl; lia|].
  exists r', a. split; [exact Hr|]. split; [exact Ha|].
  split; [exact Hs|].
  destruct (Hloop run2 run2_live) as (s3 & H3 & _ & Hres & _); [left; reflexivity|].
  exists s3. split; [exact H3|exact Hres].
Defined.

(** [bufferedAmount_send]: the first send of the run buffers 53 bytes. *)
Lemma bufferedAmount_send_witness :
  bufferedAmount run0 = JInt 0 /\ bufferedAmount run1 = JInt 53 /\
  bufferedAmount (on_close run1) = JInt 0.
Proof.
  split; [reflexivity|].
  destruct (bufferedAmount_send toy_stringify toy_parse run0 (str "greet")
              [VString (str "hi"); VNumber (of_int 42); VBoolean true] true false _ 0
              run0_live eq_refl eq_refl)
    as (Hin & _ & Hclose); [lia|vm_compute; reflexivity|].
  split; [|exact Hclose].
  apply Hin. vm_compute. left. reflexivity.
Defined.

(** [write_completion] on [run2]: message 0 asks for an acknowledgement. *)
Lemma write_completion_witness :
  writing run2 = [0] /\
  _queue (written 0 None run2) = _queue run2 /\
  promises (written 0 (Some (Other "reset")) run2) !! 0 = Some (Rejected (Other "reset")).
Proof.
  split; [vm_compute; reflexivity|].
  destruct (write_completion toy_stringify toy_parse run2 0 greet_control run2_live)
    as ((Hack & _ & Hfail) & _);
    [left; reflexivity|vm_compute; reflexivity|left; reflexivity|].
  split; [exact (proj1 (Hack eq_refl))|exact (proj1 (Hfail _))].
Defined.

(** [on_close_idempotent] on [run3]. *)
Lemma on_close_idempotent_witness : on_close (on_close run3) = on_close run3.
Proof. exact (on_close_idempotent toy_stringify toy_parse run3 run3_live). Defined.

(** [cancelled_never_transmitted]: message 1 of [run2] is cancelled; when message 0
    is acknowledged the queue is empty and 1 was not sent. *)
Lemma cancelled_never_transmitted_witness :
  fst (cancel 1 None run2) = true /\
  _queue run2_cancelled_acked = [] /\
  ~ In 1 (_queue run2_cancelled_acked) /\
  forall d, ~ In (1, d) (sendData run2_cancelled_acked).
Proof.
  split; [vm_compute; reflexivity|]. split; [vm_compute; reflexivity|].
  apply (cancelled_never_transmitted toy_stringify toy_parse run2 1 None
           run2_cancelled_acked run2_live); [vm_compute; reflexivity|].
  apply (reach_step _ _ _ _ run2_cancelled (Receive ack0));
    [apply reach_init|exact I|].
  apply (step_receive _ _ run2_cancelled ack0 2). vm_compute. reflexivity.
Defined.

(** [small_limit_blocks_ack] at a socket with a limit of 30 bytes. *)
Lemma small_limit_blocks_ack_witness :
  let r : @socket unit := new_socket (Some 30) true in
  let r1 := reply toy_stringify (header_of false (str "greet") true 0) r in
  promises r1 !! 0 = Some (Rejected PayloadTooLarge) /\
  emitted r1 = [EError PayloadTooLarge] /\ sendData r1 = [].
Proof.
  intros r r1.
  destruct (small_limit_blocks_ack toy_stringify (header_of false (str "greet") true 0) r 30)
    as (Hp & He & _ & _ & Hd); [reflexivity|reflexivity|lia|].
  split; [exact Hp|]. split; [exact He|exact Hd].
Defined.

(** [internal_frame_is_silent] at an internal frame with a body of one byte 7. *)
Lemma internal_frame_is_silent_witness :
  let frame := _serializeHeader true (str "ack") false (of_int 7) ++ [x07] in
  _receiveData toy_stringify toy_parse 2 frame run2 =
    Some (emit (EError (TypeNotExist 7)) run2) /\
  (In (EError (TypeNotExist 7)) (emitted run2) \/
   exists e, @EError unit (TypeNotExist 7) = EError e).
Proof.
  intros frame. split; [vm_compute; reflexivity|].
  apply (internal_frame_is_silent toy_stringify toy_parse 2 frame
           {| isInternal := true; messageName := (str "ack"); needACK := false;
              messageID := of_int 7; headerLength := of_int 29 |} run2
           (emit (EError (TypeNotExist 7)) run2));
    [vm_compute; reflexivity|reflexivity|vm_compute; reflexivity
    |vm_compute; left; reflexivity].
Defined.

(** [marked_buffer_passes_through] at the Buffer <09 09>. *)
Lemma marked_buffer_passes_through_witness :
  let s1 := snd (send toy_stringify (str "raw") (DBuffer [x09; x09] true) false false run0) in
  exists c, controls s1 !! 0 = Some c /\
    _receiveData toy_stringify toy_parse 0 (data c) (new_socket None false) =
      Some (emit (EMessageRaw (str "raw") [x09; x09]) (new_socket None false)).
Proof.
  intros s1.
  exists {| data := _serializeHeader false (str "raw") false (of_int 0) ++ [x09; x09];
            msgID := 0; sent := true; ackWanted := false |}.
  split; [vm_compute; reflexivity|].
  refine (proj1 (proj2 (marked_buffer_passes_through toy_stringify toy_parse run0
                          (new_socket None false) (str "raw") [x09; x09] false false _ 0
                          run0_live _ _ _ eq_refl)));
    [vm_compute; reflexivity|vm_compute; reflexivity|vm_compute; reflexivity].
Defined.

(** ** The theorems at work on the run [t0] ... [t3] *)

Lemma t2_reachable : Titled.reachable (Titled.new_socket (Some 8)) t2.
Proof.
  apply (Titled.reach_step _ t1 (Titled.Send (str "c") [])); [|apply Titled.step_send].
  apply (Titled.reach_step _ t0 (Titled.Send (str "ab") [x01; x02; x03]));
    [apply Titled.reach_init|apply Titled.step_send].
Defined.

Lemma t2_live : Titled.live t2.
Proof. exists (Some 8). exact t2_reachable. Defined.

Lemma t2_done_live : Titled.live t2_done.
Proof.
  exists (Some 8).
  apply (Titled.reach_step _ t2 (Titled.Written 0 None)); [exact t2_reachable|].
  apply Titled.step_written. vm_compute. left. reflexivity.
Defined.

(** [titled_send_receive] at [send("ab", <01 02 03>)] on [t0]. *)
Lemma titled_send_receive_witness :
  Titled.maxPayload t0 = 12 /\
  (exists it, Titled.items t1 !! 0 = Some it /\
     Titled.r_data it = be_encode 4 2 ++ Buffer_from (str "ab") ++ [x01; x02; x03]) /\
  Titled._receiveData (be_encode 4 2 ++ Buffer_from (str "ab") ++ [x01; x02; x03]) t0 =
    Titled.emit (Titled.EMessage (str "ab") [x01; x02; x03]) t0.
Proof.
  split; [reflexivity|].
  destruct (titled_send_receive (str "ab") [x01; x02; x03] t0 t0)
    as [(it & Hit & Hr & _) [_ Hrecv]].
  - exists (Some 8). apply Titled.reach_init.
  - vm_compute. discriminate.
  - right. vm_compute. discriminate.
  - split; [exists it; split; [exact Hit|exact Hr]|exact (Hrecv eq_refl)].
Defined.

(** [titled_payload_limit] on the run: the third send is too large, the second was not. *)
Lemma titled_payload_limit_witness :
  Titled.promises t3 !! 2 = Some (Rejected PayloadTooLarge) /\
  Titled._sendingQueue t3 = Titled._sendingQueue t2 /\
  Titled.promises t2 !! 1 = Some Pending.
Proof.
  destruct (titled_payload_limit (Some 8) t2 (str "title") [x01; x02; x03; x04] t2_reachable)
    as [Hbig _]; [vm_compute; discriminate|].
  destruct (Hbig eq_refl) as (Hp & Hq & _).
  split; [exact Hp|]. split; [exact Hq|].
  destruct (titled_payload_limit (Some 8) t1 (str "c") []) as [_ Hok].
  - apply (Titled.reach_step _ t0 (Titled.Send (str "ab") [x01; x02; x03]));
      [apply Titled.reach_init|apply Titled.step_send].
  - vm_compute. discriminate.
  - exact (proj1 (Hok eq_refl)).
Defined.

(** [titled_one_at_a_time] on [t2]. *)
Lemma titled_one_at_a_time_witness :
  Titled._sendingQueue t2 = [0; 1] /\
  (forall id, In id (Titled.writing t2) -> hd_error (Titled._sendingQueue t2) = Some id) /\
  StronglySorted Z.lt (map fst (Titled.sendData t2)).
Proof.
  split; [vm_compute; reflexivity|].
  destruct (titled_one_at_a_time t2 t2_live) as (_ & Hw & Ho & _).
  split; [exact Hw|exact Ho].
Defined.

(** [titled_queue_moves] on [t2_done]: message 1 waits for the last [.then]. *)
Lemma titled_queue_moves_witness :
  Titled._sendingQueue t2_done = [1] /\
  ((exists it, Titled.items t2_done !! 1 = Some it /\ Titled.sent it = true /\
               In 1 (Titled.writing t2_done)) \/
   ((0 < Titled.last_thens t2_done)%nat /\
    hd_error (Titled._sendingQueue (Titled.last_then t2_done)) = Some 1 /\
    exists it, Titled.items (Titled.last_then t2_done) !! 1 = Some it /\
               Titled.sent it = true /\
               In (1, Titled.r_data it) (Titled.sendData (Titled.last_then t2_done)))).
Proof.
  split; [vm_compute; reflexivity|].
  apply (titled_queue_moves t2_done 1 t2_done_live). vm_compute. reflexivity.
Defined.

(** [titled_cancel] on [t2]: message 1 waits, message 0 is under way. *)
Lemma titled_cancel_witness :
  ~ In 1 (Titled._sendingQueue (Titled.cancel 1 (Other "stop") t2)) /\
  Titled.promises (Titled.cancel 1 (Other "stop") t2) !! 1 = Some (Rejected (Other "stop")) /\
  Titled.cancel 0 (Other "stop") t2 = t2.
Proof.
  destruct (titled_cancel t2 1 (Other "stop") t2_live) as (Hwait & _ & _).
  destruct (Hwait {| Titled.size := 5; Titled.sent := false;
                     Titled.r_data := be_encode 4 1 ++ Buffer_from (str "c") |})
    as (Hq & Hp & _); [vm_compute; auto|vm_compute; reflexivity|reflexivity|].
  split; [exact Hq|]. split; [exact Hp|].
  destruct (titled_cancel t2 0 (Other "stop") t2_live) as (_ & Hflight & _).
  apply (Hflight {| Titled.size := 9; Titled.sent := true;
                    Titled.r_data := be_encode 4 2 ++ Buffer_from (str "ab") ++ [x01; x02; x03] |});
    [vm_compute; auto|vm_compute; reflexivity|reflexivity].
Defined.

(** [titled_close] on [t2]. *)
Lemma titled_close_witness :
  Titled.promises (Titled.on_close t2) !! 1 = Some (Rejected ConnectionAborted) /\
  In 0 (Titled._sendingQueue (Titled.on_close t2)) /\
  Titled.promises (Titled.on_close t2) !! 0 = Some Pending.
Proof.
  destruct (titled_close t2 t2_live) as (Hwait & Hflight & _).
  destruct (Hwait 1 {| Titled.size := 5; Titled.sent := false;
                       Titled.r_data := be_encode 4 1 ++ Buffer_from (str "c") |})
    as (_ & Hp); [vm_compute; auto|vm_compute; reflexivity|reflexivity|].
  split; [exact Hp|].
  apply (Hflight 0 {| Titled.size := 9; Titled.sent := true;
                      Titled.r_data := be_encode 4 2 ++ Buffer_from (str "ab") ++ [x01; x02; x03] |});
    [vm_compute; auto|vm_compute; reflexivity|reflexivity].
Defined.
